(** * Social-Computing-Notebooks, method-1-youtube/scripts

    A shallow embedding of the three scraper scripts

    - [youtube_scraper.py]  (module [Scraper]),
    - [yt_topup.py]         (module [Topup]),
    - [rappler_scraper.py]  (module [Rappler]),

    together with the properties of the selection, collection and top-up
    pipeline.  Network collaborators (the YouTube Data API client, the
    HTTP client and the HTML parser) are modelled as records of functions
    from a request to its response; everything the scripts compute on top
    of the responses is translated statement by statement. *)

From stdpp Require Import base option list strings pretty gmap sorting.
From Stdlib Require Import ZArith Lia.

#[local] Set Warnings "-clear-no-such-hyp".
Local Open Scope Z_scope.

(** ** Python prelude *)

(** Exceptions raised by the scripts.  [OutOfFuel] is not a Python
    exception: it marks a run of a [while True] loop that was cut off by
    the step bound of the model. *)
Inductive exn : Type :=
  | TypeError
  | KeyError
  | ValueError
  | SystemExit (code : Z)
  | OutOfFuel.

Inductive result (A : Type) : Type :=
  | Ok (a : A)
  | Raise (e : exn).
Arguments Ok {A} a.
Arguments Raise {A} e.

#[global] Instance result_ret : MRet result := @Ok.
#[global] Instance result_bind : MBind result :=
  λ A B f m, match m with Ok a => f a | Raise e => Raise e end.

(** [for x in l: acc = f(acc, x)] where the body may raise. *)
Fixpoint foldlM {A B} (f : A → B → result A) (acc : A) (l : list B) : result A :=
  match l with
  | [] => Ok acc
  | x :: l' => acc' ← f acc x; foldlM f acc' l'
  end.

(** [[f(x) for x in l]] where [f] may raise; evaluation is left to right. *)
Fixpoint traverse {A B} (f : A → result B) (l : list A) : result (list B) :=
  match l with
  | [] => Ok []
  | x :: l' => y ← f x; ys ← traverse f l'; Ok (y :: ys)
  end.

(** Truthiness of an optional string: [None] and [''] are falsy. *)
Definition truthy (s : option string) : bool :=
  match s with
  | Some s => negb (bool_decide (s = ""))
  | None => false
  end.

(** [l[:n]] for a Python int [n]; a negative [n] counts from the end. *)
Definition py_take {A} (n : Z) (l : list A) : list A :=
  if bool_decide (0 ≤ n) then take (Z.to_nat n) l
  else take (length l - Z.to_nat (- n))%nat l.

(** [range(0, n, step)]. *)
Definition range_step (n step : nat) : list nat :=
  (λ k, k * step)%nat <$> seq 0 ((n + step - 1) / step)%nat.

(** *** Insertion-ordered dictionaries

    Python dictionaries iterate in insertion order, and the selector
    depends on it (discovery order of channels).  Such a dictionary is an
    association list with pairwise distinct keys. *)
Section odict.
Context {K V : Type} `{EqDecision K}.

Definition odict := list (K * V).

(** [d.get(k)] *)
Fixpoint od_get (k : K) (d : list (K * V)) : option V :=
  match d with
  | [] => None
  | (k', v) :: d' => if decide (k = k') then Some v else od_get k d'
  end.

(** [d[k] = v]: an existing key keeps its position. *)
Fixpoint od_set (k : K) (v : V) (d : list (K * V)) : list (K * V) :=
  match d with
  | [] => [(k, v)]
  | (k', v') :: d' =>
      if decide (k = k') then (k, v) :: d' else (k', v') :: od_set k v d'
  end.

(** [d.setdefault(k, v)], keeping the dictionary only. *)
Definition od_setdefault (k : K) (v : V) (d : list (K * V)) : list (K * V) :=
  match od_get k d with
  | Some _ => d
  | None => d ++ [(k, v)]
  end.

Definition od_keys (d : list (K * V)) : list K := d.*1.
End odict.
Arguments odict : clear implicits.

(** *** Stable sort, descending

    [sorted(l, key=f, reverse=True)] and [l.sort(key=f, reverse=True)]:
    the keys are computed first, one call per element from left to right,
    then the decorated list is sorted.  The sort is stable, also with
    [reverse=True]: elements with equal keys keep their original order. *)
Section sort.
Context {A : Type}.

Fixpoint insert_desc (x : Z * A) (l : list (Z * A)) : list (Z * A) :=
  match l with
  | [] => [x]
  | y :: l' => if bool_decide (x.1 < y.1) then y :: insert_desc x l' else x :: l
  end.

Definition isort_desc (l : list (Z * A)) : list (Z * A) :=
  foldr insert_desc [] l.

(** the key function cannot raise *)
Definition sorted_desc (key : A → Z) (l : list A) : list A :=
  (isort_desc ((λ x, (key x, x)) <$> l)).*2.

(** the key function may raise *)
Definition sorted_descM (key : A → result Z) (l : list A) : result (list A) :=
  ks ← traverse (λ x, k ← key x; Ok (k, x)) l;
  Ok (isort_desc ks).*2.
End sort.

(** The keys do not increase along the list. *)
Definition descending {A} (key : A → Z) (l : list A) : Prop :=
  StronglySorted (λ a b, key b ≤ key a) l.

(** ** The YouTube Data API client

    Each endpoint is a function from the request to the decoded response
    (the [items] list, plus the continuation token for comment threads).
    Transport and quota errors are outside the model. *)

Record SearchRequest : Type := {
  sr_q : string;
  sr_channelId : option string;
  sr_type : string;
  sr_maxResults : Z;
  sr_order : option string;
}.

(** A search item: [it['id']['videoId']] for a video search,
    [it['snippet']['channelId']] and [['channelTitle']] for a channel search. *)
Record SearchItem : Type := {
  si_videoId : string;
  si_channelId : option string;
  si_channelTitle : option string;
}.

(** A [videos().list] item.  [vi_commentCount] is the number that
    [int(statistics['commentCount'])] yields when the field is present. *)
Record VideoItem : Type := {
  vi_id : string;
  vi_commentCount : option Z;
  vi_channelId : option string;
  vi_channelTitle : option string;
  vi_title : option string;
  vi_publishedAt : option string;
}.

(** A comment resource: [c['id']] and the fields read from [c['snippet']]. *)
Record Comment : Type := {
  cm_id : string;
  cm_textDisplay : option string;
  cm_publishedAt : option string;
  cm_textOriginal : option string;
  cm_likeCount : option Z;
  cm_authorChannelId : option string;
  cm_authorDisplayName : option string;
}.

(** A comment thread: [item['snippet']['topLevelComment']] and
    [item.get('replies', {}).get('comments', [])]. *)
Record Thread : Type := {
  th_top : Comment;
  th_replies : list Comment;
}.

Record ThreadsResponse : Type := {
  tr_items : list Thread;
  tr_nextPageToken : option string;
}.

Record YouTube : Type := {
  search_list : SearchRequest → list SearchItem;
  (** [videos().list(id=",".join(chunk), part=...)]: the chunk and the part *)
  videos_list : list string → string → list VideoItem;
  (** [commentThreads().list(videoId=..., pageToken=...)]; [None] when the
      request carries no [pageToken] *)
  commentThreads_list : string → option string → ThreadsResponse;
}.

(** ** The corpus row

    One dictionary per comment or reply.  The last two keys exist only in
    rows of the top-up script; [None] stands for an absent key as well as
    for a null value, which [r.get] and the fixed column list of the data
    frame do not tell apart. *)
Record Row : Type := {
  title : string;
  link : string;
  date_published : option string;
  text : string;
  like_count : Z;
  reply_parent_id : option string;
  channel_id : option string;
  channel_title : option string;
  video_id : option string;
  video_title : option string;
  comment_id : string;
  author : option string;
  is_reply : bool;
  video_uploader_channel_id : option string;
  video_uploader_channel_title : option string;
}.

(** The thirteen keys written at creation by both collectors. *)
Definition comment_row (vid : string) (parent : option string) (reply : bool)
    (c : Comment) : Row := {|
  title := default "" (cm_textDisplay c);
  link := "https://www.youtube.com/watch?v=" +:+ vid +:+ "&lc=" +:+ cm_id c;
  date_published := cm_publishedAt c;
  text := default "" (cm_textOriginal c);
  like_count := default 0 (cm_likeCount c);
  reply_parent_id := parent;
  channel_id := cm_authorChannelId c;
  channel_title := cm_authorDisplayName c;
  video_id := Some vid;
  video_title := None;
  comment_id := cm_id c;
  author := cm_authorDisplayName c;
  is_reply := reply;
  video_uploader_channel_id := None;
  video_uploader_channel_title := None;
|}.

(** The rows of one thread: the top-level comment, then its replies. *)
Definition thread_rows (vid : string) (item : Thread) : list Row :=
  comment_row vid None false (th_top item)
  :: (comment_row vid (Some (cm_id (th_top item))) true <$> th_replies item).

(** The [for item in resp.get('items', [])] loop of both collectors, with
    its [break]: returns the rows and the counter after the loop. *)
Fixpoint collect_items (vid : string) (target : Z) (items : list Thread)
    (rows : list Row) (fetched : Z) : list Row * Z :=
  match items with
  | [] => (rows, fetched)
  | item :: items' =>
      let rows := rows ++ thread_rows vid item in
      let fetched := fetched + 1 + Z.of_nat (length (th_replies item)) in
      if bool_decide (target ≤ fetched) then (rows, fetched)
      else collect_items vid target items' rows fetched
  end.

(** The [while True] loop of both collectors.  [fuel] bounds the number of
    page requests; [trace] records the page token of every request made
    (ghost state, used to count requests). *)
Fixpoint collect_pages (fuel : nat) (y : YouTube) (vid : string) (target : Z)
    (rows : list Row) (next_page : option string) (fetched : Z)
    (trace : list (option string)) : result (list Row * list (option string)) :=
  match fuel with
  | O => Raise OutOfFuel
  | S fuel' =>
      let token := if truthy next_page then next_page else None in
      let resp := commentThreads_list y vid token in
      let trace := trace ++ [token] in
      let '(rows, fetched) := collect_items vid target (tr_items resp) rows fetched in
      if bool_decide (target ≤ fetched) then Ok (rows, trace)
      else
        let next_page := tr_nextPageToken resp in
        if truthy next_page then
          collect_pages fuel' y vid target rows next_page fetched trace
        else Ok (rows, trace)
  end.

(** *** Vocabulary of the collector's properties *)

(** The pages the source serves for a video: the responses met by
    following the cursor from [token] up to the first response without a
    usable [nextPageToken]. *)
Inductive page_chain (y : YouTube) (vid : string)
    : option string → list ThreadsResponse → Prop :=
  | chain_last token :
      truthy (tr_nextPageToken (commentThreads_list y vid token)) = false →
      page_chain y vid token [commentThreads_list y vid token]
  | chain_next token pages :
      truthy (tr_nextPageToken (commentThreads_list y vid token)) = true →
      page_chain y vid (tr_nextPageToken (commentThreads_list y vid token)) pages →
      page_chain y vid token (commentThreads_list y vid token :: pages).

(** The token sent with a request is the cursor itself. *)
Definition cursor_ok (token : option string) : Prop :=
  (if truthy token then token else None) = token.

Definition threads_of (pages : list ThreadsResponse) : list Thread :=
  pages ≫= tr_items.

(** Top-level comments plus replies. *)
Definition thread_size (t : Thread) : Z := 1 + Z.of_nat (length (th_replies t)).

Definition threads_size (threads : list Thread) : Z :=
  foldr (λ t n, thread_size t + n) 0 threads.

(** What the source holds across the given pages. *)
Definition available (pages : list ThreadsResponse) : Z :=
  threads_size (threads_of pages).

Definition rows_of (vid : string) (threads : list Thread) : list Row :=
  threads ≫= thread_rows vid.

(** The identifier, parent and reply flag that the rows of a run of
    threads must carry, in order. *)
Definition thread_keys (threads : list Thread)
    : list (string * option string * bool) :=
  threads ≫= λ t,
    (cm_id (th_top t), None, false)
    :: ((λ c, (cm_id c, Some (cm_id (th_top t)), true)) <$> th_replies t).

(** The threads of the pages requested with the given tokens. *)
Definition requested_threads (y : YouTube) (vid : string)
    (tokens : list (option string)) : list Thread :=
  tokens ≫= λ token, tr_items (commentThreads_list y vid token).

(** Every top-level row has no parent; every reply row names as parent the
    nearest top-level row before it, with only reply rows in between. *)
Definition well_threaded (rows : list Row) : Prop :=
  ∀ (i : nat) r, rows !! i = Some r →
    if is_reply r then
      ∃ (j : nat) top, (j < i)%nat ∧ rows !! j = Some top ∧ is_reply top = false
        ∧ reply_parent_id r = Some (comment_id top)
        ∧ ∀ (k : nat) r', (j < k < i)%nat → rows !! k = Some r' → is_reply r' = true
    else reply_parent_id r = None.

(** *** Vocabulary of the backfill's properties *)

(** The twelve fields that no backfill pass writes. *)
Definition same_base_fields (r r' : Row) : Prop :=
  title r' = title r ∧ link r' = link r ∧ date_published r' = date_published r
  ∧ text r' = text r ∧ like_count r' = like_count r
  ∧ reply_parent_id r' = reply_parent_id r ∧ channel_id r' = channel_id r
  ∧ channel_title r' = channel_title r ∧ video_id r' = video_id r
  ∧ comment_id r' = comment_id r ∧ author r' = author r ∧ is_reply r' = is_reply r.

(** Every field but [video_title] agrees. *)
Definition same_but_title (r r' : Row) : Prop :=
  same_base_fields r r'
  ∧ video_uploader_channel_id r' = video_uploader_channel_id r
  ∧ video_uploader_channel_title r' = video_uploader_channel_title r.

(** ** youtube_scraper.py *)
Module Scraper.

(** The value stored per video by [video_stats]. *)
Record Meta : Type := {
  commentCount : Z;
  channelId : option string;
  channelTitle : option string;
  m_title : option string;
  publishedAt : option string;
}.

Definition meta_of (it : VideoItem) : Meta := {|
  commentCount := default 0 (vi_commentCount it);
  channelId := vi_channelId it;
  channelTitle := vi_channelTitle it;
  m_title := vi_title it;
  publishedAt := vi_publishedAt it;
|}.

Definition search_videos (y : YouTube) (keywords : string) (max_results : Z)
    (order : string) : list SearchItem :=
  search_list y {| sr_q := keywords; sr_channelId := None; sr_type := "video";
                   sr_maxResults := max_results; sr_order := Some order |}.

Definition video_stats (y : YouTube) (video_ids : list string) : odict string Meta :=
  foldl (λ out i,
           let chunk := take 50 (drop i video_ids) in
           foldl (λ out it, od_set (vi_id it) (meta_of it) out) out
                 (videos_list y chunk "snippet,statistics"))
        [] (range_step (length video_ids) 50).

(** A bucket map: channel id (possibly null) to its video ids. *)
Abbreviation buckets := (list (option string * list string)).

(** [by_channel.setdefault(ch, []).append(vid)] *)
Definition bucket_append (ch : option string) (vid : string) (by_channel : buckets)
    : buckets :=
  let by_channel := od_setdefault ch [] by_channel in
  od_set ch (default [] (od_get ch by_channel) ++ [vid]) by_channel.

(** Lines 60-64: group the qualifying videos by channel. *)
Definition group_by_channel (min_comments : Z) (stats : odict string Meta) : buckets :=
  foldl (λ by_channel '(vid, meta),
           if bool_decide (min_comments ≤ commentCount meta)
           then bucket_append (channelId meta) vid by_channel
           else by_channel)
        [] stats.

(** [stats[v]['commentCount']] *)
Definition count_in (stats : odict string Meta) (v : string) : result Z :=
  match od_get v stats with
  | Some meta => Ok (commentCount meta)
  | None => Raise KeyError
  end.

(** Lines 67-69: sort every bucket and keep its first five. *)
Definition top_5 (stats : odict string Meta) (by_channel : buckets) : result buckets :=
  traverse (λ '(ch, vids),
              vids ← sorted_descM (count_in stats) vids;
              Ok (ch, take 5 vids))
           by_channel.

(** [[(ch, vids) for ch, vids in by_channel.items() if len(vids) == 5]] *)
Definition selected_of (by_channel : buckets) : buckets :=
  filter (λ kv, length kv.2 = 5%nat) by_channel.

(** [stats.get(v, stats2.get(v))['commentCount']]: subscripting [None]
    raises [TypeError]. *)
Definition count_in2 (stats stats2 : odict string Meta) (v : string) : result Z :=
  match od_get v stats with
  | Some meta => Ok (commentCount meta)
  | None =>
      match od_get v stats2 with
      | Some meta => Ok (commentCount meta)
      | None => Raise TypeError
      end
  end.

(** Lines 82-89: the body of the loop over [stats2.items()]. *)
Definition merge_candidate (min_comments : Z) (stats stats2 : odict string Meta)
    (by_channel : buckets) (entry : string * Meta) : result buckets :=
  let '(vid, meta) := entry in
  if bool_decide (min_comments ≤ commentCount meta) then
    let ch := channelId meta in
    let by_channel := od_setdefault ch [] by_channel in
    let bucket := default [] (od_get ch by_channel) in
    if bool_decide (vid ∈ bucket) then Ok by_channel
    else
      vids ← sorted_descM (count_in2 stats stats2) (bucket ++ [vid]);
      Ok (od_set ch (take 5 vids) by_channel)
  else Ok by_channel.

(** Lines 79-89: one escalation tier, up to the re-check. *)
Definition merge_tier (y : YouTube) (keywords : string) (min_comments : Z)
    (stats : odict string Meta) (ordv : string) (by_channel : buckets)
    : result buckets :=
  let items2 := search_videos y keywords 50 ordv in
  let video_ids2 := si_videoId <$> items2 in
  let stats2 := video_stats y video_ids2 in
  foldlM (merge_candidate min_comments stats stats2) by_channel stats2.

(** Lines 94-96. *)
Definition fallback (by_channel : buckets) : buckets :=
  take 5 (sorted_desc (λ kv, Z.of_nat (length kv.2)) by_channel).

(** Lines 78-96: the loop over the variants, then the fallback. *)
Fixpoint escalate (y : YouTube) (keywords : string) (min_comments : Z)
    (stats : odict string Meta) (variants : list string) (by_channel : buckets)
    : result buckets :=
  match variants with
  | [] => Ok (fallback by_channel)
  | ordv :: variants' =>
      by_channel ← merge_tier y keywords min_comments stats ordv by_channel;
      let selected := selected_of by_channel in
      if bool_decide (5 ≤ length selected)%nat then Ok (take 5 selected)
      else escalate y keywords min_comments stats variants' by_channel
  end.

Definition variants : list string := ["viewCount"; "date"; "rating"].

(** The buckets after lines 55-69. *)
Definition first_tier (y : YouTube) (keywords : string) (min_comments : Z)
    : odict string Meta * result buckets :=
  let items := search_videos y keywords 50 "relevance" in
  let video_ids := si_videoId <$> items in
  let stats := video_stats y video_ids in
  (stats, top_5 stats (group_by_channel min_comments stats)).

Definition pick_5_channels_5_videos (y : YouTube) (keywords : string)
    (min_comments : Z) : result buckets :=
  let '(stats, by_channel) := first_tier y keywords min_comments in
  by_channel ← by_channel;
  let selected := selected_of by_channel in
  if bool_decide (5 ≤ length selected)%nat then Ok (take 5 selected)
  else escalate y keywords min_comments stats variants by_channel.

Definition fetch_comments_for_video (fuel : nat) (y : YouTube) (video_id : string)
    (target : Z) : result (list Row * list (option string)) :=
  collect_pages fuel y video_id target [] None 0 [].

(** [sorted(set(r['video_id'] for r in rows if r['video_id']))] *)
Definition covered_ids (rows : list Row) : list string :=
  merge_sort String.le
    (remove_dups (omap (λ r, if truthy (video_id r) then video_id r else None) rows)).

(** Lines 168-173: the title of every video the API knows. *)
Definition title_map (y : YouTube) (vids : list string) : gmap string (option string) :=
  foldl (λ meta i,
           let chunk := take 50 (drop i vids) in
           foldl (λ meta it, <[vi_id it := vi_title it]> meta) meta
                 (videos_list y chunk "snippet"))
        ∅ (range_step (length vids) 50).

(** Lines 174-176, on one row. *)
Definition fill_title (meta : gmap string (option string)) (r : Row) : Row :=
  match video_id r ≫= (meta !!.) with
  | Some t =>
      {| title := title r; link := link r; date_published := date_published r;
         text := text r; like_count := like_count r;
         reply_parent_id := reply_parent_id r; channel_id := channel_id r;
         channel_title := channel_title r; video_id := video_id r;
         video_title := t;
         comment_id := comment_id r; author := author r; is_reply := is_reply r;
         video_uploader_channel_id := video_uploader_channel_id r;
         video_uploader_channel_title := video_uploader_channel_title r |}
  | None => r
  end.

(** The rows after the in-place pass of [fill_video_titles]. *)
Definition fill_video_titles (y : YouTube) (rows : list Row) : list Row :=
  let vids := covered_ids rows in
  let meta := title_map y vids in
  fill_title meta <$> rows.

(** Lines 199-208 of [main]: the selection plan that drives collection. *)
Definition main_selection (y : YouTube) (keywords : string) (min_comments : Z)
    (channels videos_per_channel : Z) : result buckets :=
  selected ← pick_5_channels_5_videos y keywords min_comments;
  if bool_decide (length selected = 0%nat) then Raise (SystemExit 2)
  else
    let selected := py_take channels selected in
    Ok ((λ '(ch, vids),
           (ch, if bool_decide (videos_per_channel < Z.of_nat (length vids))
                then py_take videos_per_channel vids else vids)) <$> selected).

(** *** Vocabulary of the selector's properties *)

(** The probe result that the selector sees for one search ordering. *)
Definition probe (y : YouTube) (keywords order : string) : odict string Meta :=
  video_stats y (si_videoId <$> search_videos y keywords 50 order).

(** The four orderings a run may search with. *)
Definition orders : list string := "relevance" :: variants.

(** Some probe of the run reports video [v], of channel [ch], with at
    least [min_comments] comments. *)
Definition probed_ok (y : YouTube) (keywords : string) (min_comments : Z)
    (ch : option string) (v : string) : Prop :=
  ∃ order meta, order ∈ orders ∧ od_get v (probe y keywords order) = Some meta
                ∧ min_comments ≤ commentCount meta ∧ channelId meta = ch.

Definition buckets_ok (y : YouTube) (keywords : string) (min_comments : Z)
    (by_channel : buckets) : Prop :=
  ∀ ch vids v, (ch, vids) ∈ by_channel → v ∈ vids →
               probed_ok y keywords min_comments ch v.

(** No bucket holds more than five video ids. *)
Definition buckets_capped (by_channel : buckets) : Prop :=
  Forall (λ kv, (length kv.2 ≤ 5)%nat) by_channel.

(** No bucket holds a video id twice. *)
Definition buckets_distinct (by_channel : buckets) : Prop :=
  Forall (λ kv, NoDup kv.2) by_channel.

(** What a merge keeps of the buckets it started from: the channels, in
    their order; the size of every bucket; and every video of a bucket
    that is not full afterwards. *)
Definition buckets_grow (by_channel by_channel' : buckets) : Prop :=
  od_keys by_channel `prefix_of` od_keys by_channel'
  ∧ ∀ ch vids, od_get ch by_channel = Some vids →
      ∃ vids', od_get ch by_channel' = Some vids'
               ∧ (length vids ≤ length vids')%nat
               ∧ ∀ v, v ∈ vids → v ∉ vids' → length vids' = 5%nat.

(** The channels are pairwise distinct and no bucket is empty. *)
Definition buckets_nonempty (by_channel : buckets) : Prop :=
  NoDup (od_keys by_channel) ∧ Forall (λ kv, kv.2 ≠ []) by_channel.

(** The qualification rule in the words of the specification, for a
    per-channel target [M]: the channels whose bucket has exactly [M]
    members, in discovery order. *)
Definition spec_qualifying (M : Z) (by_channel : buckets) : buckets :=
  filter (λ kv, Z.of_nat (length kv.2) = M) by_channel.

End Scraper.

(** ** yt_topup.py *)
Module Topup.

Definition TARGET_CHANNEL_NAMES : list string :=
  ["Rappler"; "GMA News"; "ABS-CBN News"; "News5"; "INQUIRER.net"].
Definition KEYWORDS : string := "POGO Philippines Senate hearing Rappler".
Definition MIN_COMMENTS : Z := 25.
Definition TARGET_PER_VIDEO : Z := 120.

Record Meta : Type := {
  commentCount : Z;
  m_title : option string;
  channelId : option string;
  channelTitle : option string;
}.

Definition meta_of (it : VideoItem) : Meta := {|
  commentCount := default 0 (vi_commentCount it);
  m_title := vi_title it;
  channelId := vi_channelId it;
  channelTitle := vi_channelTitle it;
|}.

Definition find_channel_id (y : YouTube) (name : string)
    : option string * option string :=
  let items := search_list y {| sr_q := name; sr_channelId := None;
                                sr_type := "channel"; sr_maxResults := 1;
                                sr_order := None |} in
  match items with
  | [] => (None, None)
  | ch :: _ => (si_channelId ch, si_channelTitle ch)
  end.

(** A non-empty slice is never falsy, so [if not chunk: continue] never
    fires inside [range(0, len(ids), 50)]. *)
Definition video_stats (y : YouTube) (ids : list string) : odict string Meta :=
  foldl (λ out i,
           let chunk := take 50 (drop i ids) in
           if bool_decide (chunk = []) then out
           else foldl (λ out it, od_set (vi_id it) (meta_of it) out) out
                      (videos_list y chunk "snippet,statistics"))
        [] (range_step (length ids) 50).

Definition search_channel_videos (y : YouTube) (channel_id query : string)
    (max_results : Z) : list string :=
  si_videoId <$>
    search_list y {| sr_q := query; sr_channelId := Some channel_id;
                     sr_type := "video"; sr_maxResults := max_results;
                     sr_order := Some "viewCount" |}.

Definition fetch_comments (fuel : nat) (y : YouTube) (video_id : string)
    (target : Z) : result (list Row * list (option string)) :=
  collect_pages fuel y video_id target [] None 0 [].

(** [r['video_title'] = t; r['video_uploader_channel_id'] = c;
    r['video_uploader_channel_title'] = n] *)
Definition set_video_meta (t c n : option string) (r : Row) : Row :=
  {| title := title r; link := link r; date_published := date_published r;
     text := text r; like_count := like_count r;
     reply_parent_id := reply_parent_id r; channel_id := channel_id r;
     channel_title := channel_title r; video_id := video_id r;
     video_title := t;
     comment_id := comment_id r; author := author r; is_reply := is_reply r;
     video_uploader_channel_id := c;
     video_uploader_channel_title := n |}.

(** [r['video_uploader_channel_id'] = c; r['video_uploader_channel_title'] = n] *)
Definition set_uploader (c n : option string) (r : Row) : Row :=
  set_video_meta (video_title r) c n r.

(** [sorted(set(r['video_id'] for r in rows if r.get('video_id')))] *)
Definition covered_ids (rows : list Row) : list string :=
  merge_sort String.le
    (remove_dups (omap (λ r, if truthy (video_id r) then video_id r else None) rows)).

(** Lines 104-109, on one row.  A stored [Meta] is a non-empty
    dictionary, hence truthy. *)
Definition fill_meta (meta : odict string Meta) (r : Row) : Row :=
  match video_id r ≫= (λ v, od_get v meta) with
  | Some m => set_video_meta (m_title m) (channelId m) (channelTitle m) r
  | None => r
  end.

(** The rows after the in-place pass of [fill_video_meta]. *)
Definition fill_video_meta (y : YouTube) (rows : list Row) : list Row :=
  let vids := covered_ids rows in
  let meta := video_stats y vids in
  fill_meta meta <$> rows.

(** The mutable state of [main]'s loop.  [log] is ghost state: the
    target name and video id of every [fetch_comments] call, in order. *)
Record State : Type := {
  added : list Row;
  existing_vids : gset string;
  per_ch : gmap string (gset string);
  log : list (string * string);
}.

(** [set(r.get('video_id') for r in existing if r.get('video_id'))] *)
Definition covered (existing : list Row) : gset string :=
  list_to_set (omap (λ r, if truthy (video_id r) then video_id r else None) existing).

(** [per_ch.setdefault(ch, set()).add(vid)] *)
Definition per_ch_add (ch vid : string) (per_ch : gmap string (gset string))
    : gmap string (gset string) :=
  <[ch := {[vid]} ∪ default ∅ (per_ch !! ch)]> per_ch.

(** Lines 120-125. *)
Definition count_existing (existing : list Row) : gmap string (gset string) :=
  foldl (λ per_ch r,
           let ch := if truthy (video_uploader_channel_id r)
                     then video_uploader_channel_id r else channel_id r in
           let vid := video_id r in
           match ch, vid with
           | Some c, Some v =>
               if truthy ch && truthy vid then per_ch_add c v per_ch else per_ch
           | _, _ => per_ch
           end)
        ∅ existing.

(** [meta[v]['commentCount']] *)
Definition count_in (meta : odict string Meta) (v : string) : result Z :=
  match od_get v meta with
  | Some m => Ok (commentCount m)
  | None => Raise KeyError
  end.

(** Line 137: the candidates of one channel. *)
Definition candidates (meta : odict string Meta) (existing_vids : gset string)
    (vids : list string) : list string :=
  filter (λ v, MIN_COMMENTS ≤ from_option commentCount 0 (od_get v meta)
               ∧ v ∉ existing_vids) vids.

(** Lines 141-149: the body of [for vid in pick]. *)
Definition collect_video (fuel : nat) (y : YouTube) (name ch_id : string)
    (meta : odict string Meta) (st : State) (vid : string) : result State :=
  '(rows, _) ← fetch_comments fuel y vid TARGET_PER_VIDEO;
  let rows := fill_video_meta y rows in
  rows ← traverse (λ r, match od_get vid meta with
                        | Some m => Ok (set_uploader (channelId m) (channelTitle m) r)
                        | None => Raise KeyError
                        end) rows;
  Ok {| added := added st ++ rows;
        existing_vids := {[vid]} ∪ existing_vids st;
        per_ch := per_ch_add ch_id vid (per_ch st);
        log := log st ++ [(name, vid)] |}.

(** Lines 129-149: the body of [for name in TARGET_CHANNEL_NAMES]. *)
Definition top_up_channel (fuel : nat) (y : YouTube) (st : State) (name : string)
    : result State :=
  let '(ch_id, ch_title) := find_channel_id y name in
  match ch_id with
  | None => Ok st
  | Some c =>
      if negb (truthy ch_id) then Ok st
      else
        let have := Z.of_nat (size (default ∅ (per_ch st !! c))) in
        let need := Z.max 0 (5 - have) in
        if bool_decide (need = 0) then Ok st
        else
          let vids := search_channel_videos y c KEYWORDS 40 in
          let meta := video_stats y vids in
          let cand := candidates meta (existing_vids st) vids in
          cand ← sorted_descM (count_in meta) cand;
          let pick := py_take need cand in
          foldlM (collect_video fuel y name c meta) st pick
  end.

Definition initial (existing : list Row) : State :=
  {| added := []; existing_vids := covered existing;
     per_ch := count_existing existing; log := [] |}.

(** [main], from the loaded corpus to [all_rows]; the final state is
    returned with it for the ghost log. *)
Definition main (fuel : nat) (y : YouTube) (existing : list Row)
    : result (list Row * State) :=
  st ← foldlM (top_up_channel fuel y) (initial existing) TARGET_CHANNEL_NAMES;
  let all_rows := existing ++ added st in
  Ok (all_rows, st).

(** *** Vocabulary of the top-up's properties *)

(** No video id with a usable value is recorded with two different
    uploader channels. *)
Definition owner_consistent (rows : list Row) : Prop :=
  ∀ r1 r2, r1 ∈ rows → r2 ∈ rows → truthy (video_id r1) = true →
           video_id r1 = video_id r2 →
           video_uploader_channel_id r1 = video_uploader_channel_id r2.

(** What holds of the state of [main]'s loop after every target
    channel: the covered set is the initial one plus the fetched videos;
    every row with a usable video id is covered; no fetched video was
    covered at the start; a video fetched for one target name is not
    fetched for another; no video is fetched twice when no search lists
    a video twice; and the corpus stays owner-consistent. *)
Definition top_up_inv (y : YouTube) (existing : list Row) (st : State) : Prop :=
  existing_vids st = covered existing ∪ list_to_set (log st).*2
  ∧ (∀ r, r ∈ existing ++ added st → truthy (video_id r) = true →
          ∃ v, video_id r = Some v ∧ v ∈ existing_vids st)
  ∧ (∀ name v, (name, v) ∈ log st → v ∉ covered existing)
  ∧ (∀ (i j : nat) n1 n2 v, (i < j)%nat →
       log st !! i = Some (n1, v) → log st !! j = Some (n2, v) → n1 = n2)
  ∧ ((∀ c, NoDup (search_channel_videos y c KEYWORDS 40)) → NoDup (log st).*2)
  ∧ (owner_consistent existing → owner_consistent (existing ++ added st)).

(** Every video that the search of a resolved target channel returns
    fails the threshold or is already covered. *)
Definition no_new_candidates (y : YouTube) (covered : gset string) : Prop :=
  ∀ name c v,
    name ∈ TARGET_CHANNEL_NAMES → (find_channel_id y name).1 = Some c →
    v ∈ search_channel_videos y c KEYWORDS 40 →
    from_option commentCount 0
      (od_get v (video_stats y (search_channel_videos y c KEYWORDS 40)))
    < MIN_COMMENTS
    ∨ v ∈ covered.

End Topup.

(** ** rappler_scraper.py *)
Module Rappler.

(** What [extract_article] reads off the parsed page: the text of the
    first [h1], the [datetime] attribute of the first [time] tag, the
    text of the first author or byline element, the [get_text] of every
    [p], [h2] and [li] of the body container ([None] without a
    container), and the [get_text] of every link of the tags container. *)
Record Soup : Type := {
  h1_text : option string;
  time_datetime : option string;
  author_text : option string;
  body_texts : option (list string);
  tag_texts : option (list string);
}.

(** The collaborators: [requests.get] followed by parsing, for an article
    ([None] when the request fails) and for a listing (the links that
    [get_article_links_from_listing] returns), [urllib]'s [quote_plus]
    and [str.strip]. *)
Record Env : Type := {
  get_soup : string → option Soup;
  get_article_links_from_listing : string → list string;
  quote_plus : string → string;
  strip : string → string;
}.

Record Article : Type := {
  a_link : string;
  a_title : option string;
  a_date_published : option string;
  a_text : option string;
  a_author : option string;
  a_tags : option string;
}.

(** [sep.join(l)] *)
Fixpoint join (sep : string) (l : list string) : string :=
  match l with
  | [] => ""
  | [x] => x
  | x :: l' => x +:+ sep +:+ join sep l'
  end.

(** The string of the one character LF. *)
Definition newline : string := String (Ascii.ascii_of_nat 10) "".

Definition nonempty (s : string) : bool := negb (bool_decide (s = "")).

Definition build_listing_url (e : Env) (mode slug_or_query : string) (page : Z)
    : result string :=
  if bool_decide (mode = "topic") then
    Ok ("https://www.rappler.com/topic/" +:+ slug_or_query +:+ "/page/"
        +:+ pretty page +:+ "/")
  else if bool_decide (mode = "person") then
    Ok ("https://www.rappler.com/persons/" +:+ slug_or_query +:+ "/page/"
        +:+ pretty page +:+ "/")
  else if bool_decide (mode = "search") then
    let q := quote_plus e slug_or_query in
    Ok ("https://www.rappler.com/?s=" +:+ q +:+ "&paged=" +:+ pretty page)
  else Raise ValueError.

Definition extract_article (e : Env) (url : string) : option Article :=
  match get_soup e url with
  | None => None
  | Some soup =>
      let title := h1_text soup in
      let date_published := time_datetime soup in
      let author := author_text soup in
      let text_parts := filter (λ t, nonempty t) (default [] (body_texts soup)) in
      let text := if bool_decide (text_parts = []) then None
                  else Some (strip e (join newline text_parts)) in
      let tags := filter (λ t, nonempty t) (default [] (tag_texts soup)) in
      Some {| a_link := url; a_title := title; a_date_published := date_published;
              a_text := text; a_author := author;
              a_tags := if bool_decide (tags = []) then None
                        else Some (join ", " tags) |}
  end.

(** [data and data.get("title") and data.get("text")]; the dictionary
    itself has six keys and is truthy. *)
Definition keep (data : option Article) : bool :=
  match data with
  | Some a => truthy (a_title a) && truthy (a_text a)
  | None => false
  end.

(** Lines 113-117: the loop over the links of one listing page. *)
Definition scrape_links (e : Env) (rows : list Article) (article_links : list string)
    : list Article :=
  foldl (λ rows link,
           let data := extract_article e link in
           match data with
           | Some a => if keep data then rows ++ [a] else rows
           | None => rows
           end)
        rows article_links.

(** The rows of the data frame, in order. *)
Definition scrape_rappler (e : Env) (mode slug_or_query : string) (pages : Z)
    : result (list Article) :=
  foldlM (λ rows page,
            url ← build_listing_url e mode slug_or_query page;
            let article_links := get_article_links_from_listing e url in
            Ok (scrape_links e rows article_links))
         [] (Z.of_nat <$> seq 1 (Z.to_nat pages)).

(** *** Vocabulary of the scraper's properties *)

(** The articles of the given links that pass the filter, in order. *)
Definition kept (e : Env) (article_links : list string) : list Article :=
  omap (λ link, a ← extract_article e link;
                if keep (Some a) then Some a else None) article_links.

End Rappler.

(** ** The rest of the scripts

    What the functions above leave of [youtube_scraper.py]'s [main], and
    the vocabulary of the further properties. *)

(** The batches in which [video_stats] and [fill_video_titles] ask for
    video ids: [video_ids[i:i+50]] for [i] in [range(0, len(video_ids), 50)]. *)
Definition chunks (video_ids : list string) : list (list string) :=
  (λ i, take 50 (drop i video_ids)) <$> range_step (length video_ids) 50.

(** The items of all responses to these batches, in order. *)
Definition responses (y : YouTube) (part : string) (video_ids : list string)
    : list VideoItem :=
  chunks video_ids ≫= λ chunk, videos_list y chunk part.

(** The last item of a list of response items that carries the id. *)
Definition last_item (v : string) (items : list VideoItem) : option VideoItem :=
  last (filter (λ it, vi_id it = v) items).

(** The statistics of [yt_topup.py] are those of [youtube_scraper.py]
    without the publication date. *)
Definition topup_meta (m : Scraper.Meta) : Topup.Meta := {|
  Topup.commentCount := Scraper.commentCount m;
  Topup.m_title := Scraper.m_title m;
  Topup.channelId := Scraper.channelId m;
  Topup.channelTitle := Scraper.channelTitle m;
|}.

(** The comment count that a probe reports for a video, 0 for a video it
    does not know. *)
Definition count_of (stats : odict string Scraper.Meta) (v : string) : Z :=
  from_option Scraper.commentCount 0 (od_get v stats).

(** Every video of every bucket is a key of one of the two probes. *)
Definition buckets_known (stats stats2 : odict string Scraper.Meta)
    (by_channel : list (option string * list string)) : Prop :=
  Forall (λ kv, Forall (λ v, is_Some (od_get v stats) ∨ is_Some (od_get v stats2)) kv.2)
         by_channel.

(** The videos of a probe that have at least [min_comments] comments and
    belong to channel [ch], in the order of the probe. *)
Definition qualifying_of (min_comments : Z) (stats : odict string Scraper.Meta)
    (ch : option string) : list string :=
  (filter (λ vm, min_comments ≤ Scraper.commentCount vm.2 ∧ Scraper.channelId vm.2 = ch)
          stats).*1.

(** None of the four probes of a run reports a video with at least
    [min_comments] comments. *)
Definition no_qualifying (y : YouTube) (keywords : string) (min_comments : Z) : Prop :=
  ∀ order v m, order ∈ Scraper.orders → (v, m) ∈ Scraper.probe y keywords order →
               Scraper.commentCount m < min_comments.

(** Video [v] as a pass of [yt_topup.py] over target [name] sees it:
    [name] resolves to channel [c], the search of [c] lists [v], and the
    statistics [m] fetched for that search report at least
    [MIN_COMMENTS] comments. *)
Definition fetched_as (y : YouTube) (name v c : string) (m : Topup.Meta) : Prop :=
  (Topup.find_channel_id y name).1 = Some c ∧ c ≠ ""
  ∧ v ∈ Topup.search_channel_videos y c Topup.KEYWORDS 40
  ∧ od_get v (Topup.video_stats y (Topup.search_channel_videos y c Topup.KEYWORDS 40))
    = Some m
  ∧ Topup.MIN_COMMENTS ≤ Topup.commentCount m.


Module ScraperMain.

(** Lines 211-219 of [main]: the comments of every video of the plan, in
    the order of the plan. *)
Definition collect_selected (fuel : nat) (y : YouTube) (target : Z)
    (selected : list (option string * list string)) : result (list Row) :=
  foldlM (λ all_rows vid,
            '(rows, _) ← Scraper.fetch_comments_for_video fuel y vid target;
            Ok (all_rows ++ rows))
         [] (selected ≫= snd).

(** Lines 196-224 of [main]: the rows handed to [build_corpus_df]. *)
Definition main (fuel : nat) (y : YouTube) (keywords : string)
    (min_comments channels videos_per_channel target_per_video : Z)
    : result (list Row) :=
  selected ← Scraper.main_selection y keywords min_comments channels videos_per_channel;
  all_rows ← collect_selected fuel y target_per_video selected;
  Ok (Scraper.fill_video_titles y all_rows).

End ScraperMain.

(** ** Test fixtures

    A client answering from fixed tables: the video ids a search returns
    for each ordering, a video database, and the comment pages of a video
    keyed by page token. *)
Module Fixture.

Definition video (id ch : string) (n : Z) : VideoItem := {|
  vi_id := id; vi_commentCount := Some n; vi_channelId := Some ch;
  vi_channelTitle := Some ch; vi_title := Some ("title of " +:+ id);
  vi_publishedAt := None;
|}.

Definition hit (id : string) : SearchItem :=
  {| si_videoId := id; si_channelId := None; si_channelTitle := None |}.

Definition comment (id : string) : Comment := {|
  cm_id := id; cm_textDisplay := Some ("text of " +:+ id); cm_publishedAt := None;
  cm_textOriginal := Some ("text of " +:+ id); cm_likeCount := Some 1;
  cm_authorChannelId := Some "UCauthor"; cm_authorDisplayName := Some "author";
|}.

Definition thread (top : string) (replies : list string) : Thread :=
  {| th_top := comment top; th_replies := comment <$> replies |}.

Definition client (search : SearchRequest → list SearchItem) (db : list VideoItem)
    (pages : string → option string → ThreadsResponse) : YouTube := {|
  search_list := search;
  videos_list := λ chunk _,
    omap (λ v, list_find (λ it, vi_id it = v) db ≫= (λ p, Some p.2)) chunk;
  commentThreads_list := pages;
|}.

Definition by_order (tbl : list (string * list string)) (req : SearchRequest)
    : list SearchItem :=
  hit <$> default [] (sr_order req ≫= (λ o, od_get o tbl)).

Definition no_pages (_ : string) (_ : option string) : ThreadsResponse :=
  {| tr_items := []; tr_nextPageToken := None |}.

(** Relevance finds nothing; the most-viewed tier finds video A of
    channel X, the recency tier finds video B of the same channel. *)
Definition yt_two_tiers : YouTube :=
  client (by_order [("relevance", []); ("viewCount", ["A"]); ("date", ["B"]);
                    ("rating", [])])
         [video "A" "X" 30; video "B" "X" 40] no_pages.

(** Relevance finds video A of channel X only. *)
Definition yt_one_video : YouTube :=
  client (by_order [("relevance", ["A"])]) [video "A" "X" 30] no_pages.

(** Relevance fills the bucket of channel X with five videos; the
    most-viewed tier finds a sixth one with more comments. *)
Definition yt_full_bucket : YouTube :=
  client (by_order [("relevance", ["a"; "b"; "c"; "d"; "e"]); ("viewCount", ["f"])])
         [video "a" "X" 30; video "b" "X" 40; video "c" "X" 50; video "d" "X" 60;
          video "e" "X" 70; video "f" "X" 80] no_pages.

(** Relevance finds one video of channel X; the most-viewed tier finds
    two videos of channel Y. *)
Definition yt_late_channel : YouTube :=
  client (by_order [("relevance", ["x1"]); ("viewCount", ["y1"; "y2"])])
         [video "x1" "X" 30; video "y1" "Y" 40; video "y2" "Y" 50] no_pages.

(** The ids [ch1], ..., [chn]. *)
Definition ids_of (ch : string) (n : nat) : list string :=
  (λ i : nat, ch +:+ pretty i) <$> seq 1 n.

(** Relevance finds five videos of each of the channels P, Q, R, S and
    four of channel T; the most-viewed tier finds the fifth video of T.
    Every video has 30 comments. *)
Definition yt_escalation : YouTube :=
  client (by_order [("relevance", ids_of "P" 5 ++ ids_of "Q" 5 ++ ids_of "R" 5
                                  ++ ids_of "S" 5 ++ ids_of "T" 4);
                    ("viewCount", ["T5"])])
         (["P"; "Q"; "R"; "S"; "T"] ≫= λ ch, (λ v, video v ch 30) <$> ids_of ch 5)
         no_pages.

(** Video V has two pages of comment threads: a thread with two replies
    and a thread without replies, then, under token p2, a thread with
    one reply. *)
Definition pages_of_V (vid : string) (token : option string) : ThreadsResponse :=
  if bool_decide (vid = "V") then
    match token with
    | None => {| tr_items := [thread "c1" ["c1.1"; "c1.2"]; thread "c2" []];
                 tr_nextPageToken := Some "p2" |}
    | Some _ => {| tr_items := [thread "c3" ["c3.1"]]; tr_nextPageToken := None |}
    end
  else {| tr_items := []; tr_nextPageToken := None |}.

Definition two_pages : list ThreadsResponse :=
  [pages_of_V "V" None; pages_of_V "V" (Some "p2")].

(** The channel search resolves the name Rappler only; the search in
    that channel finds video V, which has 30 comments. *)
Definition yt_rappler : YouTube :=
  client (λ req,
            if bool_decide (sr_type req = "channel") then
              if bool_decide (sr_q req = "Rappler")
              then [{| si_videoId := ""; si_channelId := Some "UCrappler";
                       si_channelTitle := Some "Rappler" |}]
              else []
            else if bool_decide (sr_channelId req = Some "UCrappler")
                 then [hit "V"] else [])
         [video "V" "UCrappler" 30] pages_of_V.

(** A site with one listing page of three links: a complete article, an
    article without body container, and a link whose request fails. *)
Definition site : Rappler.Env := {|
  Rappler.get_soup := λ url,
    if bool_decide (url = "https://www.rappler.com/a") then
      Some {| Rappler.h1_text := Some "Headline"; Rappler.time_datetime := None;
              Rappler.author_text := None;
              Rappler.body_texts := Some ["First."; ""; "Second."];
              Rappler.tag_texts := None |}
    else if bool_decide (url = "https://www.rappler.com/b") then
      Some {| Rappler.h1_text := Some "No body"; Rappler.time_datetime := None;
              Rappler.author_text := None; Rappler.body_texts := None;
              Rappler.tag_texts := None |}
    else None;
  Rappler.get_article_links_from_listing := λ url,
    if bool_decide (url = "https://www.rappler.com/topic/pogo/page/1/")
    then ["https://www.rappler.com/a"; "https://www.rappler.com/b";
          "https://www.rappler.com/c"]
    else [];
  Rappler.quote_plus := λ s, s;
  Rappler.strip := λ s, s;
|}.

(** The channels that qualify after the first tier. *)
Definition selected_of_first (y : YouTube) : list (option string * list string) :=
  match (Scraper.first_tier y "k" 25).2 with
  | Ok by_channel => Scraper.selected_of by_channel
  | Raise _ => []
  end.

(** The rows and the requests of collecting video V with target 4. *)
Definition collected_V : list Row * list (option string) :=
  match Scraper.fetch_comments_for_video 2 yt_rappler "V" 4 with
  | Ok res => res
  | Raise _ => ([], [])
  end.

(** The corpus and the final state of a first top-up run, from an empty
    corpus. *)
Definition first_run : list Row * Topup.State :=
  match Topup.main 2 yt_rappler [] with
  | Ok res => res
  | Raise _ => ([], Topup.initial [])
  end.

(** The data frame of one listing page of the topic pogo. *)
Definition scraped : list Rappler.Article :=
  match Rappler.scrape_rappler site "topic" "pogo" 1 with
  | Ok df => df
  | Raise _ => []
  end.

(** A source whose every response is empty and names a further page. *)
Definition endless (_ : string) (_ : option string) : ThreadsResponse :=
  {| tr_items := []; tr_nextPageToken := Some "more" |}.

Definition yt_endless : YouTube := client (by_order []) [] endless.

(** Relevance finds video V of channel X, which has the two pages of
    comment threads. *)
Definition yt_video_V : YouTube :=
  client (by_order [("relevance", ["V"])]) [video "V" "X" 30] pages_of_V.

(** The rows of a whole run of [youtube_scraper.py] on that source, with
    a target of four comments per video. *)
Definition main_rows : list Row :=
  match ScraperMain.main 2 yt_video_V "k" 25 5 5 4 with
  | Ok rows => rows
  | Raise _ => []
  end.

End Fixture.

(** * Properties *)

(** ** The prelude *)

Lemma bind_Ok {A B} (m : result A) (f : A → result B) (b : B) :
  m ≫= f = Ok b → ∃ a, m = Ok a ∧ f a = Ok b.
Proof. destruct m as [a|e]; [by exists a | done]. Qed.

Ltac inv_bind H :=
  let a := fresh "a" in
  let H1 := fresh H in
  apply bind_Ok in H as (a & H1 & H).

Lemma foldlM_app {A B} (f : A → B → result A) (acc : A) (l1 l2 : list B) :
  foldlM f acc (l1 ++ l2) = foldlM f acc l1 ≫= λ acc', foldlM f acc' l2.
Proof.
  revert acc. induction l1 as [|x l1 IH]; intros acc; [done|].
  simpl. destruct (f acc x) as [acc'|e]; [apply IH | done].
Qed.

(** An invariant of the accumulator carries through a loop that completes. *)
Lemma foldlM_inv {A B} (P : A → Prop) (f : A → B → result A) (l : list B) :
  (∀ acc x acc', x ∈ l → P acc → f acc x = Ok acc' → P acc') →
  ∀ acc acc', P acc → foldlM f acc l = Ok acc' → P acc'.
Proof.
  induction l as [|x l IH]; intros Hf acc acc' Hacc Hrun; simpl in Hrun.
  - by simplify_eq.
  - inv_bind Hrun. eapply IH; [|eapply Hf|]; eauto using list_elem_of_here.
    intros ?????. eapply Hf; eauto using list_elem_of_further.
Qed.

Lemma foldl_inv {A B} (P : A → Prop) (f : A → B → A) (l : list B) :
  (∀ acc x, x ∈ l → P acc → P (f acc x)) →
  ∀ acc, P acc → P (foldl f acc l).
Proof.
  induction l as [|x l IH]; intros Hf acc Hacc; simpl; [done|].
  apply IH; [|apply Hf]; eauto using list_elem_of_here.
  intros ????. apply Hf; eauto using list_elem_of_further.
Qed.

Lemma traverse_Ok {A B} (f : A → result B) (l : list A) (l' : list B) :
  traverse f l = Ok l' → Forall2 (λ x y, f x = Ok y) l l'.
Proof.
  revert l'. induction l as [|x l IH]; intros l' H; simpl in H.
  - simplify_eq. constructor.
  - inv_bind H. inv_bind H. simplify_eq. constructor; auto.
Qed.

Lemma py_take_subseteq {A} (n : Z) (l : list A) : py_take n l ⊆ l.
Proof.
  unfold py_take. case_bool_decide; apply subseteq_take.
Qed.

Lemma py_take_length {A} (n : Z) (l : list A) :
  0 ≤ n → (length (py_take n l) ≤ Z.to_nat n)%nat.
Proof.
  intros Hn. unfold py_take. rewrite bool_decide_true by done.
  rewrite length_take. lia.
Qed.

(** *** Dictionaries *)
Section odict_facts.
Context {K V : Type} `{EqDecision K}.
Implicit Types (d : list (K * V)) (k : K) (v : V).

Lemma od_get_elem_of k v d : od_get k d = Some v → (k, v) ∈ d.
Proof.
  induction d as [|[k' v'] d IH]; simpl; [done|].
  case_decide; intros ?; simplify_eq; [left | right; auto].
Qed.

Lemma od_get_None k d : od_get k d = None ↔ k ∉ d.*1.
Proof.
  induction d as [|[k' v'] d IH]; simpl.
  - split; [intros _; apply not_elem_of_nil | done].
  - rewrite not_elem_of_cons. case_decide; naive_solver.
Qed.

Lemma od_get_NoDup k v d : NoDup d.*1 → (k, v) ∈ d → od_get k d = Some v.
Proof.
  induction d as [|[k' v'] d IH]; simpl; intros Hnd Hin.
  - by apply elem_of_nil in Hin.
  - apply NoDup_cons in Hnd as [Hk Hnd]. apply elem_of_cons in Hin as [?|Hin].
    + simplify_eq. by rewrite decide_True.
    + rewrite decide_False; [auto|]. intros ->. apply Hk.
      apply list_elem_of_fmap. by exists (k', v).
Qed.

Lemma od_get_set k k' v d :
  od_get k' (od_set k v d) = if decide (k' = k) then Some v else od_get k' d.
Proof.
  induction d as [|[k'' v''] d IH]; simpl.
  - by repeat case_decide.
  - repeat (case_decide || simpl || simplify_eq); try done.
Qed.

Lemma od_keys_set k v d :
  od_keys (od_set k v d)
  = match od_get k d with Some _ => od_keys d | None => od_keys d ++ [k] end.
Proof.
  unfold od_keys. induction d as [|[k' v'] d IH]; simpl; [done|].
  case_decide; simplify_eq/=; [done|]. rewrite IH. by destruct (od_get k d).
Qed.

Lemma elem_of_od_set k v d kv : kv ∈ od_set k v d → kv = (k, v) ∨ kv ∈ d.
Proof.
  induction d as [|[k' v'] d IH]; simpl.
  - rewrite list_elem_of_singleton. auto.
  - case_decide; rewrite !elem_of_cons; naive_solver.
Qed.

Lemma od_get_app k d1 d2 :
  od_get k (d1 ++ d2) = match od_get k d1 with Some v => Some v | None => od_get k d2 end.
Proof.
  induction d1 as [|[k' v'] d1 IH]; simpl; [done|]. by case_decide.
Qed.

Lemma od_get_setdefault k k' v d :
  od_get k' (od_setdefault k v d)
  = match od_get k' d with
    | Some v' => Some v'
    | None => if decide (k' = k) then Some v else None
    end.
Proof.
  unfold od_setdefault. destruct (od_get k d) as [v0|] eqn:Hk.
  - destruct (od_get k' d) eqn:Hk'; [done|]. case_decide; congruence.
  - rewrite od_get_app. simpl. by destruct (od_get k' d).
Qed.

Lemma od_keys_setdefault k v d :
  od_keys (od_setdefault k v d)
  = match od_get k d with Some _ => od_keys d | None => od_keys d ++ [k] end.
Proof.
  unfold od_setdefault, od_keys. destruct (od_get k d); [done|].
  by rewrite fmap_app.
Qed.

Lemma elem_of_od_setdefault k v d kv :
  kv ∈ od_setdefault k v d → kv = (k, v) ∨ kv ∈ d.
Proof.
  unfold od_setdefault. destruct (od_get k d); [auto|].
  rewrite elem_of_app, list_elem_of_singleton. naive_solver.
Qed.

Lemma od_set_NoDup k v d : NoDup d.*1 → NoDup (od_set k v d).*1.
Proof.
  intros Hnd. fold (od_keys (od_set k v d)). rewrite od_keys_set.
  destruct (od_get k d) eqn:Hk; [done|].
  apply NoDup_app. split_and!; [done| |apply NoDup_singleton].
  intros k' Hk' ->%list_elem_of_singleton. by apply od_get_None in Hk.
Qed.
End odict_facts.

(** *** The sort *)
Section sort_facts.
Context {A : Type}.
Implicit Types (l : list A) (ks : list (Z * A)).

Lemma insert_desc_perm (x : Z * A) ks : insert_desc x ks ≡ₚ x :: ks.
Proof.
  induction ks as [|y ks IH]; simpl; [done|].
  case_bool_decide; [|done]. rewrite IH. apply Permutation_swap.
Qed.

Lemma isort_desc_perm ks : isort_desc ks ≡ₚ ks.
Proof.
  induction ks as [|x ks IH]; simpl; [done|].
  by rewrite insert_desc_perm, IH.
Qed.

Lemma sorted_desc_perm (key : A → Z) l : sorted_desc key l ≡ₚ l.
Proof.
  unfold sorted_desc. rewrite isort_desc_perm, <-list_fmap_compose.
  by rewrite list_fmap_id.
Qed.

Lemma traverse_decorate (key : A → result Z) l ks :
  traverse (λ x, k ← key x; Ok (k, x)) l = Ok ks → ks.*2 = l.
Proof.
  revert ks. induction l as [|x l IH]; intros ks H; simpl in H.
  - by simplify_eq.
  - inv_bind H. inv_bind H. simplify_eq. inv_bind H0. simplify_eq/=.
    f_equal. auto.
Qed.

Lemma sorted_descM_perm (key : A → result Z) l l' :
  sorted_descM key l = Ok l' → l' ≡ₚ l.
Proof.
  unfold sorted_descM. intros H. inv_bind H. simplify_eq.
  rewrite isort_desc_perm. by erewrite traverse_decorate.
Qed.

(** The sort completes as soon as every key can be computed. *)
Lemma sorted_descM_total (key : A → result Z) l :
  (∀ x, x ∈ l → ∃ k, key x = Ok k) → ∃ l', sorted_descM key l = Ok l'.
Proof.
  intros Hkey. unfold sorted_descM.
  assert (∃ ks, traverse (λ x, k ← key x; Ok (k, x)) l = Ok ks) as [ks ->]; [|by eexists].
  induction l as [|x l IH]; simpl; [by eexists|].
  destruct (Hkey x) as [k ->]; [left|]. simpl.
  destruct IH as [ks ->]; [|by eexists].
  intros ??. apply Hkey. by right.
Qed.

Lemma insert_desc_descending (x : Z * A) ks :
  descending fst ks → descending fst (insert_desc x ks).
Proof.
  unfold descending. induction ks as [|y ks IH]; intros Hks; simpl.
  - repeat constructor.
  - apply StronglySorted_inv in Hks as [Hks Hy]. case_bool_decide as Hlt.
    + constructor; [auto|]. rewrite insert_desc_perm. constructor; [lia|done].
    + constructor; [by constructor|]. constructor; [lia|].
      eapply Forall_impl; [exact Hy|]. intros z ?. simpl in *. lia.
Qed.

Lemma isort_desc_descending ks : descending fst (isort_desc ks).
Proof.
  induction ks as [|x ks IH]; simpl; [constructor|].
  by apply insert_desc_descending.
Qed.

Lemma descending_decorated (key : A → Z) ks :
  Forall (λ kx, kx.1 = key kx.2) ks → descending fst ks → descending key ks.*2.
Proof.
  unfold descending. induction ks as [|[k x] ks IH]; intros Hkeys Hks; simpl.
  - constructor.
  - apply Forall_cons in Hkeys as [Hk Hkeys].
    apply StronglySorted_inv in Hks as [Hks Hx]. constructor; [auto|].
    apply Forall_fmap, Forall_forall. intros [k' x'] Hin. simpl in *.
    pose proof (proj1 (Forall_forall _ _) Hx _ Hin).
    pose proof (proj1 (Forall_forall _ _) Hkeys _ Hin). simpl in *. lia.
Qed.

Lemma sorted_desc_descending (key : A → Z) l : descending key (sorted_desc key l).
Proof.
  unfold sorted_desc. apply descending_decorated; [|apply isort_desc_descending].
  rewrite isort_desc_perm. by apply Forall_fmap, Forall_true.
Qed.

Lemma descending_take (key : A → Z) (n : nat) l :
  descending key l → descending key (take n l).
Proof.
  unfold descending. intros Hl. rewrite <-(take_drop n l) in Hl.
  by apply StronglySorted_app_1_l in Hl.
Qed.

(** What a cut of a descending list leaves out is no larger than what it
    keeps. *)
Lemma descending_take_largest (key : A → Z) (n : nat) l x x' :
  descending key l → x' ∈ take n l → x ∈ l → x ∉ take n l → key x ≤ key x'.
Proof.
  unfold descending. intros Hl Hx' Hx Hnot. rewrite <-(take_drop n l) in Hl, Hx.
  apply elem_of_app in Hx as [?|Hx]; [done|].
  by apply (StronglySorted_app_1_elem_of _ _ _ _ _ Hl).
Qed.
End sort_facts.

(** ** The channel selector *)
Section selector.
Import Scraper.
Context (y : YouTube) (keywords : string) (min_comments : Z).

Local Abbreviation probe := (probe y keywords).
Local Abbreviation probed_ok := (probed_ok y keywords min_comments).
Local Abbreviation buckets_ok := (buckets_ok y keywords min_comments).

Lemma video_stats_NoDup (ids : list string) : NoDup (video_stats y ids).*1.
Proof.
  unfold video_stats. apply foldl_inv; [|apply NoDup_nil_2].
  intros out i _ Hout. apply foldl_inv; [|done].
  intros out' it _ Hout'. by apply od_set_NoDup.
Qed.

Lemma buckets_ok_nil : buckets_ok [].
Proof. intros ??? []%elem_of_nil. Qed.

Lemma buckets_ok_set ch vids by_channel :
  buckets_ok by_channel → (∀ v, v ∈ vids → probed_ok ch v) →
  buckets_ok (od_set ch vids by_channel).
Proof.
  intros Hok Hvids ch' vids' v [?|?]%elem_of_od_set ?; simplify_eq; eauto.
Qed.

Lemma buckets_ok_setdefault ch by_channel :
  buckets_ok by_channel → buckets_ok (od_setdefault ch [] by_channel).
Proof.
  intros Hok ch' vids' v [?|?]%elem_of_od_setdefault Hv; simplify_eq; eauto.
  by apply elem_of_nil in Hv.
Qed.

Lemma buckets_ok_get ch v by_channel :
  buckets_ok by_channel → v ∈ default [] (od_get ch by_channel) → probed_ok ch v.
Proof.
  intros Hok Hv. destruct (od_get ch by_channel) as [vids'|] eqn:Hget; simpl in Hv.
  - eauto using od_get_elem_of.
  - by apply elem_of_nil in Hv.
Qed.

Lemma buckets_ok_subseteq by_channel by_channel' :
  by_channel' ⊆ by_channel → buckets_ok by_channel → buckets_ok by_channel'.
Proof. intros Hsub Hok ch vids v ??. eapply Hok; eauto. Qed.

Lemma probe_entry_ok order vid meta :
  order ∈ orders → (vid, meta) ∈ probe order →
  min_comments ≤ commentCount meta → probed_ok (channelId meta) vid.
Proof.
  intros Ho Hin Hmin. exists order, meta. split_and!; try done.
  apply od_get_NoDup; [apply video_stats_NoDup | done].
Qed.

Lemma group_by_channel_ok order :
  order ∈ orders → buckets_ok (group_by_channel min_comments (probe order)).
Proof.
  intros Ho. unfold group_by_channel.
  apply (foldl_inv buckets_ok); [|apply buckets_ok_nil].
  intros by_channel [vid meta] Hin Hok. case_bool_decide; [|done].
  unfold bucket_append. apply buckets_ok_set; [by apply buckets_ok_setdefault|].
  intros v [Hv| ->%list_elem_of_singleton]%elem_of_app.
  - eapply buckets_ok_get; [|done]. by apply buckets_ok_setdefault.
  - by eapply probe_entry_ok.
Qed.

Lemma top_5_ok stats by_channel by_channel' :
  top_5 stats by_channel = Ok by_channel' →
  buckets_ok by_channel → buckets_ok by_channel'.
Proof.
  intros Htop%traverse_Ok Hok ch vids v Hin Hv.
  apply list_elem_of_lookup in Hin as [i Hi].
  destruct (Forall2_lookup_r _ _ _ _ _ Htop Hi) as ([ch0 vids0] & Hi0 & Hrun).
  inv_bind Hrun. simplify_eq.
  apply subseteq_take in Hv. apply sorted_descM_perm in Hrun0.
  rewrite Hrun0 in Hv. eapply Hok; [|done]. by eapply list_elem_of_lookup_2.
Qed.

Lemma merge_candidate_ok order stats by_channel entry by_channel' :
  order ∈ orders → entry ∈ probe order →
  merge_candidate min_comments stats (probe order) by_channel entry = Ok by_channel' →
  buckets_ok by_channel → buckets_ok by_channel'.
Proof.
  intros Ho Hin Hrun Hok. destruct entry as [vid meta].
  unfold merge_candidate in Hrun. case_bool_decide; [|by simplify_eq].
  case_bool_decide; [simplify_eq; by apply buckets_ok_setdefault|].
  inv_bind Hrun. simplify_eq.
  apply buckets_ok_set; [by apply buckets_ok_setdefault|].
  intros v Hv%subseteq_take. apply sorted_descM_perm in Hrun0.
  rewrite Hrun0 in Hv. apply elem_of_app in Hv as [Hv| ->%list_elem_of_singleton].
  - eapply buckets_ok_get; [|done]. by apply buckets_ok_setdefault.
  - by eapply probe_entry_ok.
Qed.

Lemma merge_tier_ok order stats by_channel by_channel' :
  order ∈ orders →
  merge_tier y keywords min_comments stats order by_channel = Ok by_channel' →
  buckets_ok by_channel → buckets_ok by_channel'.
Proof.
  intros Ho Hrun Hok. unfold merge_tier in Hrun.
  eapply (foldlM_inv buckets_ok); [|done|done].
  intros acc x acc' Hx Hacc Hstep. by eapply merge_candidate_ok.
Qed.

Lemma selected_of_subseteq by_channel : selected_of by_channel ⊆ by_channel.
Proof. intros kv [_ ?]%list_elem_of_filter. done. Qed.

Lemma fallback_subseteq by_channel : fallback by_channel ⊆ by_channel.
Proof.
  intros kv Hkv%subseteq_take. by rewrite sorted_desc_perm in Hkv.
Qed.

Lemma escalate_ok stats vs by_channel plan :
  vs ⊆ orders →
  escalate y keywords min_comments stats vs by_channel = Ok plan →
  buckets_ok by_channel → buckets_ok plan.
Proof.
  revert by_channel. induction vs as [|ordv vs IH]; intros by_channel Hvs Hrun Hok.
  - simpl in Hrun. simplify_eq.
    eapply buckets_ok_subseteq; [apply fallback_subseteq | done].
  - simpl in Hrun. inv_bind Hrun.
    assert (buckets_ok a) as Ha.
    { eapply merge_tier_ok; [|done..]. apply Hvs. left. }
    case_bool_decide.
    + simplify_eq. eapply buckets_ok_subseteq; [|exact Ha].
      etrans; [apply subseteq_take | apply selected_of_subseteq].
    + eapply IH; [|done..]. intros o Ho. apply Hvs. by right.
Qed.

Lemma pick_ok plan :
  pick_5_channels_5_videos y keywords min_comments = Ok plan → buckets_ok plan.
Proof.
  unfold pick_5_channels_5_videos, first_tier. intros Hrun. inv_bind Hrun.
  assert (buckets_ok a) as Ha.
  { eapply top_5_ok; [done|]. apply (group_by_channel_ok "relevance"). left. }
  case_bool_decide.
  - simplify_eq. eapply buckets_ok_subseteq; [|exact Ha].
    etrans; [apply subseteq_take | apply selected_of_subseteq].
  - eapply escalate_ok; [|done..]. intros o Ho. by right.
Qed.

Lemma main_selection_entry channels videos_per_channel plan ch vids :
  main_selection y keywords min_comments channels videos_per_channel = Ok plan →
  (ch, vids) ∈ plan →
  ∃ selected vids0,
    pick_5_channels_5_videos y keywords min_comments = Ok selected
    ∧ (ch, vids0) ∈ py_take channels selected
    ∧ vids = (if bool_decide (videos_per_channel < Z.of_nat (length vids0))
              then py_take videos_per_channel vids0 else vids0).
Proof.
  unfold main_selection. intros Hrun Hin. inv_bind Hrun.
  case_bool_decide; [done|]. simplify_eq.
  apply list_elem_of_fmap in Hin as ([ch0 vids0] & ? & Hin). simplify_eq.
  by exists a, vids0.
Qed.

(** C1.  Every video identifier of the selection plan has a probed
    comment count of at least [min_comments]: whatever path returned the
    plan (first tier, an escalation tier or the fallback), each of its
    videos was reported, by the probe of one of the four search
    orderings of the run, with that many comments and as a video of the
    channel it is listed under.  The same holds for the plan after
    [main] has cut it to the requested numbers. *)
Theorem C1_plan_videos_meet_threshold (plan : buckets) :
  pick_5_channels_5_videos y keywords min_comments = Ok plan →
  (∀ ch vids v, (ch, vids) ∈ plan → v ∈ vids →
     ∃ order meta, order ∈ orders ∧ od_get v (probe order) = Some meta
                   ∧ min_comments ≤ commentCount meta ∧ channelId meta = ch)
  ∧ (∀ channels videos_per_channel plan' ch vids v,
       main_selection y keywords min_comments channels videos_per_channel = Ok plan' →
       (ch, vids) ∈ plan' → v ∈ vids →
       ∃ order meta, order ∈ orders ∧ od_get v (probe order) = Some meta
                     ∧ min_comments ≤ commentCount meta ∧ channelId meta = ch).
Proof.
  intros Hpick. split; [apply (pick_ok _ Hpick)|].
  intros channels videos_per_channel plan' ch vids v Hmain Hin Hv.
  destruct (main_selection_entry _ _ _ _ _ Hmain Hin) as (sel & vids0 & Hsel & Hin0 & ->).
  apply (pick_ok _ Hsel ch vids0 v); [by eapply py_take_subseteq|].
  case_bool_decide; [by eapply py_take_subseteq | done].
Qed.
End selector.

(** ** Bucket sizes across escalation tiers *)
Section buckets.
Import Scraper.
Implicit Types (by_channel : buckets) (ch : option string) (vids : list string).

Lemma buckets_capped_get by_channel ch vids :
  buckets_capped by_channel → od_get ch by_channel = Some vids →
  (length vids ≤ 5)%nat.
Proof.
  intros Hcap Hget%od_get_elem_of.
  by apply (proj1 (Forall_forall _ _) Hcap (ch, vids)).
Qed.

Lemma Forall_od_set {V} (P : option string * V → Prop) ch (v : V) (d : list _) :
  Forall P d → P (ch, v) → Forall P (od_set ch v d).
Proof.
  intros Hd Hv. apply Forall_forall. intros kv [->|?]%elem_of_od_set; [done|].
  by eapply Forall_forall.
Qed.

Lemma Forall_od_setdefault {V} (P : option string * V → Prop) ch (v : V) (d : list _) :
  Forall P d → P (ch, v) → Forall P (od_setdefault ch v d).
Proof.
  intros Hd Hv. apply Forall_forall. intros kv [->|?]%elem_of_od_setdefault; [done|].
  by eapply Forall_forall.
Qed.

Lemma buckets_grow_refl by_channel : buckets_grow by_channel by_channel.
Proof. split; [done|]. intros ch vids Hget. exists vids. naive_solver. Qed.

Lemma buckets_grow_trans b1 b2 b3 :
  buckets_capped b3 → buckets_grow b1 b2 → buckets_grow b2 b3 → buckets_grow b1 b3.
Proof.
  intros Hcap [Hk12 H12] [Hk23 H23]. split; [by etrans|].
  intros ch vids1 Hget1.
  destruct (H12 _ _ Hget1) as (vids2 & Hget2 & Hlen12 & Hdrop12).
  destruct (H23 _ _ Hget2) as (vids3 & Hget3 & Hlen23 & Hdrop23).
  exists vids3. split_and!; [done|lia|].
  intros v Hv Hv3. destruct (decide (v ∈ vids2)) as [Hv2|Hv2]; [eauto|].
  specialize (Hdrop12 _ Hv Hv2).
  pose proof (buckets_capped_get _ _ _ Hcap Hget3). lia.
Qed.

Lemma buckets_grow_setdefault by_channel ch :
  buckets_grow by_channel (od_setdefault ch [] by_channel).
Proof.
  split.
  - rewrite od_keys_setdefault. destruct (od_get ch by_channel); [done|].
    by apply prefix_app_r.
  - intros ch' vids Hget. exists vids. rewrite od_get_setdefault, Hget.
    naive_solver.
Qed.

Lemma setdefault_get by_channel ch :
  od_get ch (od_setdefault ch [] by_channel)
  = Some (default [] (od_get ch by_channel)).
Proof.
  rewrite od_get_setdefault. destruct (od_get ch by_channel); [done|].
  by rewrite decide_True.
Qed.

(** Re-sorting and re-capping a bucket after one append. *)
Lemma recap_facts (bucket sorted : list string) (vid : string) :
  sorted ≡ₚ bucket ++ [vid] → (length bucket ≤ 5)%nat →
  (length bucket ≤ length (take 5 sorted) ≤ 5)%nat
  ∧ ∀ v, v ∈ bucket → v ∉ take 5 sorted → length (take 5 sorted) = 5%nat.
Proof.
  intros Hperm Hlen.
  assert (length sorted = S (length bucket)) as Hsorted.
  { rewrite Hperm, length_app. simpl. lia. }
  rewrite length_take. split; [lia|]. intros v Hv Hnot.
  destruct (decide (length bucket = 5%nat)); [lia|].
  exfalso. apply Hnot. rewrite take_ge by lia. rewrite Hperm.
  apply elem_of_app. by left.
Qed.

Lemma merge_candidate_grow min_comments stats stats2 by_channel entry by_channel' :
  merge_candidate min_comments stats stats2 by_channel entry = Ok by_channel' →
  buckets_capped by_channel →
  buckets_capped by_channel' ∧ buckets_grow by_channel by_channel'
  ∧ (buckets_distinct by_channel → buckets_distinct by_channel').
Proof.
  intros Hrun Hcap. destruct entry as [vid meta]. unfold merge_candidate in Hrun.
  case_bool_decide as Hmin; [|simplify_eq; eauto using buckets_grow_refl].
  set (ch := channelId meta) in *.
  set (b1 := od_setdefault ch [] by_channel) in *.
  assert (buckets_capped b1) as Hcap1.
  { apply Forall_od_setdefault; [done|]. simpl. lia. }
  assert (buckets_distinct by_channel → buckets_distinct b1) as Hdis1.
  { intros Hdis. apply Forall_od_setdefault; [done|]. apply NoDup_nil_2. }
  pose proof (buckets_grow_setdefault by_channel ch) as Hgrow1.
  case_bool_decide as Hin; [by simplify_eq|].
  inv_bind Hrun. simplify_eq. rename a into sorted.
  apply sorted_descM_perm in Hrun0.
  assert (od_get ch b1 = Some (default [] (od_get ch b1))) as Hget1.
  { unfold b1. rewrite setdefault_get. simpl.
    by destruct (od_get ch by_channel). }
  set (bucket := default [] (od_get ch b1)) in *.
  pose proof (buckets_capped_get _ _ _ Hcap1 Hget1) as Hlen.
  destruct (recap_facts _ _ _ Hrun0 Hlen) as [Hlen' Hdrop].
  assert (buckets_capped (od_set ch (take 5 sorted) b1)) as Hcap2.
  { apply Forall_od_set; [done|]. simpl. lia. }
  split_and!; [done| |].
  - eapply buckets_grow_trans; [done..|]. split.
    + rewrite od_keys_set, Hget1. done.
    + intros ch' vids Hget. rewrite od_get_set. case_decide as Hch.
      * rewrite Hch in Hget. change (od_get ch b1 = Some vids) in Hget.
        rewrite Hget1 in Hget. injection Hget as <-.
        exists (take 5 sorted). split_and!; [done|lia|done].
      * exists vids. naive_solver.
  - intros Hdis. apply Forall_od_set; [by apply Hdis1|]. simpl.
    eapply sublist_NoDup; [|apply sublist_take]. rewrite Hrun0.
    apply NoDup_app. split_and!.
    + apply (proj1 (Forall_forall _ _) (Hdis1 Hdis) (ch, bucket)).
      by apply od_get_elem_of.
    + by intros v Hv ->%list_elem_of_singleton.
    + apply NoDup_singleton.
Qed.

Lemma merge_fold_grow min_comments stats stats2 (l : list (string * Meta))
    by_channel by_channel' :
  foldlM (merge_candidate min_comments stats stats2) by_channel l = Ok by_channel' →
  buckets_capped by_channel →
  buckets_capped by_channel' ∧ buckets_grow by_channel by_channel'
  ∧ (buckets_distinct by_channel → buckets_distinct by_channel').
Proof.
  revert by_channel. induction l as [|entry l IH]; intros by_channel Hrun Hcap.
  - simpl in Hrun. simplify_eq. eauto using buckets_grow_refl.
  - simpl in Hrun. inv_bind Hrun.
    destruct (merge_candidate_grow _ _ _ _ _ _ Hrun0 Hcap) as (Hcap1 & Hgrow1 & Hdis1).
    destruct (IH _ Hrun Hcap1) as (Hcap2 & Hgrow2 & Hdis2).
    split_and!; [done| |auto]. by eapply buckets_grow_trans.
Qed.

(** C4, as amended.  A merge of one escalation tier that completes keeps
    every channel with its position, never shrinks a bucket, keeps every
    bucket within the cap of five and free of duplicates, keeps a full
    bucket full, and leaves out a previously held video only from a
    bucket that is full afterwards (the video was displaced by the
    re-cap). *)
Theorem C4_merge_keeps_buckets (y : YouTube) (keywords : string) (min_comments : Z)
    (stats : odict string Meta) (ordv : string) by_channel by_channel' :
  buckets_capped by_channel → buckets_distinct by_channel →
  merge_tier y keywords min_comments stats ordv by_channel = Ok by_channel' →
  buckets_capped by_channel' ∧ buckets_distinct by_channel'
  ∧ od_keys by_channel `prefix_of` od_keys by_channel'
  ∧ ∀ ch vids, od_get ch by_channel = Some vids →
      ∃ vids', od_get ch by_channel' = Some vids'
               ∧ (length vids ≤ length vids' ≤ 5)%nat
               ∧ (length vids = 5%nat → length vids' = 5%nat)
               ∧ ∀ v, v ∈ vids → v ∉ vids' → length vids' = 5%nat.
Proof.
  intros Hcap Hdis Hrun. unfold merge_tier in Hrun.
  destruct (merge_fold_grow _ _ _ _ _ _ Hrun Hcap) as (Hcap' & [Hkeys Hgrow] & Hdis').
  split_and!; [done|auto|done|].
  intros ch vids Hget. destruct (Hgrow _ _ Hget) as (vids' & Hget' & Hlen & Hdrop).
  pose proof (buckets_capped_get _ _ _ Hcap' Hget').
  exists vids'. split_and!; [done|lia|lia|lia|done].
Qed.
End buckets.

(** ** The shape of the selection plan *)
Section plan_shape.
Import Scraper.
Context (y : YouTube) (keywords : string) (min_comments : Z).
Implicit Types (by_channel plan : buckets).

Lemma top_5_capped stats by_channel by_channel' :
  top_5 stats by_channel = Ok by_channel' → buckets_capped by_channel'.
Proof.
  intros Htop%traverse_Ok. apply Forall_forall. intros kv Hin.
  apply list_elem_of_lookup in Hin as [i Hi].
  destruct (Forall2_lookup_r _ _ _ _ _ Htop Hi) as ([ch0 vids0] & Hi0 & Hrun).
  inv_bind Hrun. simplify_eq/=. rewrite length_take. lia.
Qed.

Lemma buckets_capped_subseteq by_channel by_channel' :
  by_channel' ⊆ by_channel → buckets_capped by_channel → buckets_capped by_channel'.
Proof.
  intros Hsub Hcap. apply Forall_forall. intros kv Hkv.
  by apply (proj1 (Forall_forall _ _) Hcap), Hsub.
Qed.

Lemma escalate_shape stats vs by_channel plan :
  escalate y keywords min_comments stats vs by_channel = Ok plan →
  buckets_capped by_channel →
  (length plan ≤ 5)%nat ∧ buckets_capped plan.
Proof.
  revert by_channel. induction vs as [|ordv vs IH]; intros by_channel Hrun Hcap.
  - simpl in Hrun. simplify_eq. split.
    + unfold fallback. rewrite length_take. lia.
    + eapply buckets_capped_subseteq; [apply fallback_subseteq | done].
  - simpl in Hrun. inv_bind Hrun.
    destruct (merge_fold_grow _ _ _ _ _ _ Hrun0 Hcap) as (Hcap' & _ & _).
    case_bool_decide; [|eauto]. simplify_eq. split.
    + rewrite length_take. lia.
    + eapply buckets_capped_subseteq; [|exact Hcap'].
      etrans; [apply subseteq_take | apply selected_of_subseteq].
Qed.

Lemma pick_shape plan :
  pick_5_channels_5_videos y keywords min_comments = Ok plan →
  (length plan ≤ 5)%nat ∧ buckets_capped plan.
Proof.
  unfold pick_5_channels_5_videos, first_tier. intros Hrun. inv_bind Hrun.
  pose proof (top_5_capped _ _ _ Hrun0) as Hcap.
  case_bool_decide; [|by eapply escalate_shape]. simplify_eq. split.
  - rewrite length_take. lia.
  - eapply buckets_capped_subseteq; [|exact Hcap].
    etrans; [apply subseteq_take | apply selected_of_subseteq].
Qed.

(** C5, as amended.  Inside the selector both targets are the constant
    five: a channel qualifies exactly when its bucket has exactly five
    members; five or more qualifying channels, after the first tier or
    after an escalation tier, is the terminal success state and returns
    the first five of them in discovery order, each with exactly five
    video ids; once the variants are exhausted the plan is the fallback,
    which lists the channels by non-increasing bucket size, fullest
    buckets first; every plan the selector returns has at most five
    entries of at most five video ids.  [main] then keeps the first
    [channels] entries and the first [videos_per_channel] ids of each, so
    that, for non-negative numbers, the plan that drives collection has at
    most [min channels 5] entries of at most [min videos_per_channel 5]
    ids. *)
Theorem C5_plan_shape :
  (∀ by_channel kv,
     kv ∈ selected_of by_channel ↔ kv ∈ by_channel ∧ length kv.2 = 5%nat)
  ∧ (∀ stats by_channel,
       first_tier y keywords min_comments = (stats, Ok by_channel) →
       (5 ≤ length (selected_of by_channel))%nat →
       pick_5_channels_5_videos y keywords min_comments
       = Ok (take 5 (selected_of by_channel)))
  ∧ (∀ stats ordv vs by_channel by_channel',
       merge_tier y keywords min_comments stats ordv by_channel = Ok by_channel' →
       (5 ≤ length (selected_of by_channel'))%nat →
       escalate y keywords min_comments stats (ordv :: vs) by_channel
       = Ok (take 5 (selected_of by_channel')))
  ∧ (∀ by_channel,
       (5 ≤ length (selected_of by_channel))%nat →
       length (take 5 (selected_of by_channel)) = 5%nat
       ∧ take 5 (selected_of by_channel) `sublist_of` by_channel
       ∧ Forall (λ kv, length kv.2 = 5%nat) (take 5 (selected_of by_channel)))
  ∧ (∀ stats by_channel,
       escalate y keywords min_comments stats [] by_channel = Ok (fallback by_channel)
       ∧ descending (λ kv, Z.of_nat (length kv.2)) (fallback by_channel))
  ∧ (∀ plan,
       pick_5_channels_5_videos y keywords min_comments = Ok plan →
       (length plan ≤ 5)%nat ∧ Forall (λ kv, (length kv.2 ≤ 5)%nat) plan)
  ∧ (∀ channels videos_per_channel plan,
       0 ≤ channels → 0 ≤ videos_per_channel →
       main_selection y keywords min_comments channels videos_per_channel = Ok plan →
       Z.of_nat (length plan) ≤ Z.min channels 5
       ∧ Forall (λ kv, Z.of_nat (length kv.2) ≤ Z.min videos_per_channel 5) plan).
Proof.
  split_and!.
  - intros by_channel kv. unfold selected_of. rewrite list_elem_of_filter. tauto.
  - intros stats by_channel Hfirst Hlen. unfold pick_5_channels_5_videos.
    rewrite Hfirst. simpl. by rewrite bool_decide_true.
  - intros stats ordv vs by_channel by_channel' Hmerge Hlen. simpl.
    rewrite Hmerge. simpl. by rewrite bool_decide_true.
  - intros by_channel Hlen. split_and!.
    + rewrite length_take. lia.
    + etrans; [apply sublist_take | apply sublist_filter].
    + apply Forall_forall. intros kv Hkv%subseteq_take.
      by apply list_elem_of_filter in Hkv as [? _].
  - intros stats by_channel. split; [done|].
    apply descending_take, sorted_desc_descending.
  - apply pick_shape.
  - intros channels videos_per_channel plan Hc Hv Hmain.
    unfold main_selection in Hmain. inv_bind Hmain.
    destruct (pick_shape _ Hmain0) as [Hlen Hcap].
    case_bool_decide; [done|]. simplify_eq. split.
    + rewrite length_fmap. pose proof (py_take_length channels a Hc).
      pose proof (py_take_subseteq channels a).
      unfold py_take in *. rewrite bool_decide_true in * by done.
      rewrite length_take in *. lia.
    + apply Forall_fmap, Forall_forall. intros [ch vids] Hin%py_take_subseteq.
      pose proof (proj1 (Forall_forall _ _) Hcap _ Hin) as Hvids. simpl in *.
      case_bool_decide; [|lia].
      pose proof (py_take_length videos_per_channel vids Hv). lia.
Qed.
End plan_shape.

(** ** The fallback, and the buckets of a returned plan

    What holds of the last step of the selector and of every plan it
    returns; these facts do not depend on whether an escalation tier
    completes. *)
Section fallback.
Import Scraper.
Context (y : YouTube) (keywords : string) (min_comments : Z).
Implicit Types (by_channel plan : buckets).

Lemma elem_of_od_set_NoDup {V} (k : option string) (v : V) (d : list _) kv :
  NoDup d.*1 → kv ∈ od_set k v d → kv = (k, v) ∨ (kv ∈ d ∧ kv.1 ≠ k).
Proof.
  induction d as [|[k' v'] d IH]; simpl; intros Hnd Hin.
  - apply list_elem_of_singleton in Hin. by left.
  - apply NoDup_cons in Hnd as [Hk' Hnd]. case_decide as Hk.
    + subst k'. apply elem_of_cons in Hin as [->|Hin]; [by left|]. right.
      split; [by right|]. intros <-. apply Hk', list_elem_of_fmap. by exists kv.
    + apply elem_of_cons in Hin as [->|Hin].
      * right. split; [left | simpl; congruence].
      * destruct (IH Hnd Hin) as [->|[? ?]]; [by left|]. right. split; [by right|done].
Qed.

Lemma od_setdefault_NoDup {V} (k : option string) (v : V) (d : list _) :
  NoDup d.*1 → NoDup (od_setdefault k v d).*1.
Proof.
  intros Hnd. fold (od_keys (od_setdefault k v d)). rewrite od_keys_setdefault.
  destruct (od_get k d) eqn:Hk; [done|].
  apply NoDup_app. split_and!; [done| |apply NoDup_singleton].
  intros k' Hk' ->%list_elem_of_singleton. by apply od_get_None in Hk.
Qed.

(** Replacing the bucket of [ch] by a non-empty one, after [setdefault]. *)
Lemma buckets_nonempty_set by_channel ch vids :
  buckets_nonempty by_channel → vids ≠ [] →
  buckets_nonempty (od_set ch vids (od_setdefault ch [] by_channel)).
Proof.
  intros [Hnd Hne] Hvids. split.
  - by apply od_set_NoDup, od_setdefault_NoDup.
  - apply Forall_forall. intros kv Hin.
    apply elem_of_od_set_NoDup in Hin as [->|[Hin Hch]]; [done| |by apply od_setdefault_NoDup].
    apply elem_of_od_setdefault in Hin as [->|Hin]; [done|].
    by apply (proj1 (Forall_forall _ _) Hne).
Qed.

Lemma group_by_channel_nonempty stats :
  buckets_nonempty (group_by_channel min_comments stats).
Proof.
  unfold group_by_channel. apply (foldl_inv buckets_nonempty).
  - intros by_channel [vid meta] _ Hne. case_bool_decide; [|done].
    apply buckets_nonempty_set; [done|]. by destruct (default [] _).
  - split; [apply NoDup_nil_2 | constructor].
Qed.

Lemma take_5_nonempty (vids vids' : list string) :
  vids' ≡ₚ vids → vids ≠ [] → take 5 vids' ≠ [].
Proof.
  intros Hperm Hne. destruct vids' as [|v vids']; [|done].
  by apply Permutation_nil_l in Hperm.
Qed.

Lemma top_5_entries stats by_channel by_channel' :
  top_5 stats by_channel = Ok by_channel' →
  Forall2 (λ kv kv', kv'.1 = kv.1 ∧ ∃ vids, vids ≡ₚ kv.2 ∧ kv'.2 = take 5 vids)
          by_channel by_channel'.
Proof.
  intros Hrun%traverse_Ok. eapply Forall2_impl; [exact Hrun|].
  intros [ch vids] kv' Hkv. inv_bind Hkv. simplify_eq. split; [done|].
  exists a. split; [by eapply sorted_descM_perm | done].
Qed.

Lemma top_5_nonempty stats by_channel by_channel' :
  top_5 stats by_channel = Ok by_channel' →
  buckets_nonempty by_channel → buckets_nonempty by_channel'.
Proof.
  intros Hrun%top_5_entries [Hnd Hne]. unfold buckets_nonempty, od_keys in *.
  induction Hrun as [|kv kv' l l' (Hch & vids & Hperm & Hvids) Hrest IH].
  - done.
  - rewrite !fmap_cons in *. apply NoDup_cons in Hnd as [Hkv Hnd].
    apply Forall_cons in Hne as [Hkvne Hne]. destruct (IH Hnd Hne) as [Hnd' Hne'].
    assert (l'.*1 = l.*1) as Hkeys.
    { clear -Hrest. induction Hrest as [|?? ?? [? _] ? IH']; [done|].
      rewrite !fmap_cons. by f_equal. }
    split.
    + apply NoDup_cons. by rewrite Hch, Hkeys.
    + constructor; [|done]. rewrite Hvids. by eapply take_5_nonempty.
Qed.

Lemma merge_candidate_nonempty stats stats2 by_channel entry by_channel' :
  merge_candidate min_comments stats stats2 by_channel entry = Ok by_channel' →
  buckets_nonempty by_channel → buckets_nonempty by_channel'.
Proof.
  intros Hrun Hne. destruct entry as [vid meta]. unfold merge_candidate in Hrun.
  case_bool_decide; [|by simplify_eq].
  case_bool_decide as Hin.
  - simplify_eq. unfold od_setdefault.
    destruct (od_get (channelId meta) by_channel) eqn:Hget; [done|].
    exfalso. rewrite setdefault_get, Hget in Hin. by apply elem_of_nil in Hin.
  - inv_bind Hrun. simplify_eq. apply buckets_nonempty_set; [done|].
    apply sorted_descM_perm in Hrun0. eapply take_5_nonempty; [done|].
    by destruct (default [] _).
Qed.

Lemma buckets_nonempty_sublist by_channel by_channel' :
  by_channel' `sublist_of` by_channel →
  buckets_nonempty by_channel → buckets_nonempty by_channel'.
Proof.
  intros Hsub [Hnd Hne]. split.
  - eapply sublist_NoDup; [exact Hnd|]. by apply fmap_sublist.
  - apply Forall_forall. intros kv Hkv.
    apply (proj1 (Forall_forall _ _) Hne). by eapply elem_of_sublist.
Qed.

Lemma fallback_nonempty by_channel :
  buckets_nonempty by_channel → buckets_nonempty (fallback by_channel).
Proof.
  intros [Hnd Hne]. unfold fallback.
  eapply buckets_nonempty_sublist; [apply sublist_take|].
  unfold buckets_nonempty, od_keys. by rewrite sorted_desc_perm.
Qed.

Lemma selected_nonempty by_channel :
  buckets_nonempty by_channel → buckets_nonempty (take 5 (selected_of by_channel)).
Proof.
  apply buckets_nonempty_sublist.
  etrans; [apply sublist_take | apply sublist_filter].
Qed.

Lemma escalate_nonempty stats vs by_channel plan :
  escalate y keywords min_comments stats vs by_channel = Ok plan →
  buckets_nonempty by_channel → buckets_nonempty plan.
Proof.
  revert by_channel. induction vs as [|ordv vs IH]; intros by_channel Hrun Hne.
  - simpl in Hrun. simplify_eq. by apply fallback_nonempty.
  - simpl in Hrun. inv_bind Hrun.
    assert (buckets_nonempty a) as Ha.
    { unfold merge_tier in Hrun0. eapply (foldlM_inv buckets_nonempty); [|done..].
      intros acc x acc' _ Hacc Hstep. by eapply merge_candidate_nonempty. }
    case_bool_decide; [|eauto]. simplify_eq. by apply selected_nonempty.
Qed.

(** X19.  Every plan the selector returns lists pairwise distinct
    channels, each with at least one video. *)
Theorem plan_buckets_nonempty plan :
  pick_5_channels_5_videos y keywords min_comments = Ok plan →
  buckets_nonempty plan.
Proof.
  unfold pick_5_channels_5_videos, first_tier. intros Hrun. inv_bind Hrun.
  assert (buckets_nonempty a) as Ha.
  { eapply top_5_nonempty; [done|]. apply group_by_channel_nonempty. }
  case_bool_decide; [|by eapply escalate_nonempty].
  simplify_eq. by apply selected_nonempty.
Qed.

(** X20.  The last step of the selector cannot raise: once the variants
    are exhausted the result is the fallback, which lists the five largest
    buckets (all of them when there are fewer than five) by non-increasing
    size. *)
Theorem fallback_is_best_effort stats by_channel :
  escalate y keywords min_comments stats [] by_channel = Ok (fallback by_channel)
  ∧ length (fallback by_channel) = (5 `min` length by_channel)%nat
  ∧ fallback by_channel ⊆ by_channel
  ∧ descending (λ kv, Z.of_nat (length kv.2)) (fallback by_channel)
  ∧ ∀ kv kv', kv' ∈ fallback by_channel → kv ∈ by_channel →
              kv ∉ fallback by_channel → (length kv.2 ≤ length kv'.2)%nat.
Proof.
  split_and!.
  - done.
  - unfold fallback. by rewrite length_take, sorted_desc_perm.
  - apply fallback_subseteq.
  - apply descending_take, sorted_desc_descending.
  - intros kv kv' Hkv' Hkv Hnot. unfold fallback in *.
    rewrite <-(sorted_desc_perm (λ kv, Z.of_nat (length kv.2))) in Hkv.
    pose proof (descending_take_largest _ _ _ _ _
                  (sorted_desc_descending _ by_channel) Hkv' Hkv Hnot) as Hle.
    simpl in Hle. lia.
Qed.
End fallback.

(** ** The comment collector *)
Section collector.
Context (y : YouTube) (vid : string) (target : Z).
Implicit Types (rows : list Row) (pages : list ThreadsResponse).

Lemma thread_size_pos t : 0 < thread_size t.
Proof. unfold thread_size. lia. Qed.

Lemma threads_size_nonneg threads : 0 ≤ threads_size threads.
Proof.
  induction threads as [|t threads IH]; simpl; [done|].
  pose proof (thread_size_pos t). lia.
Qed.

Lemma threads_size_app l1 l2 :
  threads_size (l1 ++ l2) = threads_size l1 + threads_size l2.
Proof. induction l1 as [|t l1 IH]; simpl; lia. Qed.

Lemma available_cons p pages :
  available (p :: pages) = threads_size (tr_items p) + available pages.
Proof. unfold available, threads_of. by rewrite bind_cons, threads_size_app. Qed.

Lemma available_nonneg pages : 0 ≤ available pages.
Proof. apply threads_size_nonneg. Qed.

Lemma rows_of_length threads :
  Z.of_nat (length (rows_of vid threads)) = threads_size threads.
Proof.
  unfold rows_of. induction threads as [|t threads IH]; [done|].
  rewrite bind_cons, length_app, Nat2Z.inj_add, IH.
  change (threads_size (t :: threads)) with (thread_size t + threads_size threads).
  unfold thread_rows, thread_size. rewrite length_cons, length_fmap. lia.
Qed.

Lemma threads_size_zero threads : threads_size threads = 0 → threads = [].
Proof.
  destruct threads as [|t threads]; [done|]. simpl.
  pose proof (thread_size_pos t). pose proof (threads_size_nonneg threads). lia.
Qed.

(** The inner loop consumes a prefix of the page; it stops early only
    once the target is reached. *)
Lemma rows_of_cons t threads :
  rows_of vid (t :: threads) = thread_rows vid t ++ rows_of vid threads.
Proof. apply bind_cons. Qed.

Lemma collect_items_spec items rows fetched :
  ∃ k : nat,
    collect_items vid target items rows fetched
    = (rows ++ rows_of vid (take k items), fetched + threads_size (take k items))
    ∧ (fetched + threads_size (take k items) < target → take k items = items).
Proof.
  revert rows fetched. induction items as [|item items IH]; intros rows fetched.
  - exists 0%nat. simpl. unfold rows_of. simpl. by rewrite app_nil_r, Z.add_0_r.
  - cbn [collect_items]. case_bool_decide as Hstop.
    + exists 1%nat. cbn [take]. rewrite take_0, rows_of_cons.
      unfold rows_of at 1. cbn [threads_size foldr mbind list_bind].
      rewrite app_nil_r. unfold thread_size.
      split; [f_equal; lia | lia].
    + destruct (IH (rows ++ thread_rows vid item)
                   (fetched + 1 + Z.of_nat (length (th_replies item))))
        as (k & -> & Hall).
      exists (S k). cbn [take]. rewrite rows_of_cons, <-(assoc_L (++)).
      cbn [threads_size foldr]. fold (threads_size (take k items)).
      unfold thread_size in *.
      split; [f_equal; lia|].
      intros Hlt. f_equal. apply Hall. lia.
Qed.

Lemma collect_pages_spec pages token :
  page_chain y vid token pages → cursor_ok token →
  ∀ (fuel : nat) rows fetched trace, (length pages ≤ fuel)%nat →
  ∃ (n : nat) threads tokens,
    collect_pages fuel y vid target rows token fetched trace
    = Ok (rows ++ rows_of vid threads, trace ++ tokens)
    ∧ length tokens = n ∧ (1 ≤ n ≤ length pages)%nat
    ∧ threads `prefix_of` threads_of pages
    ∧ (fetched + available pages < target →
       threads = threads_of pages ∧ n = length pages)
    ∧ (target ≤ fetched + available pages → target ≤ fetched + threads_size threads)
    ∧ (∀ j : nat, (1 ≤ j < n)%nat → fetched + available (take j pages) < target).
Proof.
  induction 1 as [token Hlast|token pages Hnext Hchain IH];
    intros Htok fuel rows fetched trace Hfuel;
    (destruct fuel as [|fuel]; [simpl in Hfuel; lia|]); cbn [collect_pages];
    rewrite Htok;
    set (resp := commentThreads_list y vid token) in *;
    destruct (collect_items_spec (tr_items resp) rows fetched) as (k & -> & Hall).
  - exists 1%nat, (take k (tr_items resp)), [token].
    assert (available [resp] = threads_size (tr_items resp)) as Hav.
    { rewrite available_cons. unfold available. simpl. lia. }
    assert (threads_of [resp] = tr_items resp) as Hthr.
    { unfold threads_of. by rewrite bind_singleton. }
    split; [|split_and!].
    + case_bool_decide; [done|]. by rewrite Hlast.
    + done.
    + lia.
    + simpl. lia.
    + rewrite Hthr. apply prefix_take.
    + intros Hlt. rewrite Hthr. split; [|done]. apply Hall.
      pose proof (threads_size_nonneg (drop k (tr_items resp))).
      rewrite <-(take_drop k (tr_items resp)), threads_size_app in Hav. lia.
    + intros Hge. destruct (decide (target ≤ fetched + threads_size (take k (tr_items resp))));
        [done|]. rewrite Hall in * by lia. lia.
    + intros j ?. lia.
  - case_bool_decide as Hstop.
    + exists 1%nat, (take k (tr_items resp)), [token].
      pose proof (threads_size_nonneg (drop k (tr_items resp))) as Hdrop.
      pose proof (available_nonneg pages).
      assert (threads_size (tr_items resp)
              = threads_size (take k (tr_items resp))
                + threads_size (drop k (tr_items resp))) as Hsplit.
      { by rewrite <-threads_size_app, take_drop. }
      split_and!; [done|done|lia|simpl; lia| | | |].
      * unfold threads_of. rewrite bind_cons.
        etrans; [apply prefix_take | by apply prefix_app_r].
      * rewrite available_cons. lia.
      * done.
      * intros j ?. lia.
    + rewrite Hall in * by lia. rewrite Hnext.
      assert (cursor_ok (tr_nextPageToken resp)) as Htok'.
      { unfold cursor_ok. by rewrite Hnext. }
      destruct (IH Htok' fuel (rows ++ rows_of vid (tr_items resp))
                   (fetched + threads_size (tr_items resp)) (trace ++ [token]))
        as (n & threads & tokens & -> & Hn & Hbound & Hpre & Hex & Hreach & Hmin).
      { simpl in Hfuel. lia. }
      exists (S n), (tr_items resp ++ threads), (token :: tokens).
      split_and!.
      * unfold rows_of. by rewrite bind_app, !(assoc_L (++)), <-(assoc_L (++) trace).
      * simpl. lia.
      * lia.
      * simpl. lia.
      * unfold threads_of. rewrite bind_cons. by apply prefix_app.
      * rewrite available_cons. intros Hlt. destruct Hex as [-> ->]; [lia|].
        unfold threads_of. by rewrite bind_cons.
      * rewrite available_cons, threads_size_app. intros Hge.
        specialize (Hreach ltac:(lia)). lia.
      * intros j Hj. destruct j as [|j]; [lia|]. simpl. rewrite available_cons.
        destruct j as [|j].
        -- rewrite take_0. unfold available. simpl. lia.
        -- specialize (Hmin (S j) ltac:(lia)). lia.
Qed.
End collector.

Section collector_claims.
Context (y : YouTube) (vid : string) (target : Z).
Implicit Types (rows : list Row) (pages : list ThreadsResponse).

(** C2.  Let the source serve [pages] for the video (the cursor chain
    from the first request to the first response without continuation).
    With enough steps for these pages the collector returns; it returns
    at least [target] rows when the pages hold at least [target]
    comments and replies; when they hold fewer it returns exactly what
    they hold, every row of every page, after requesting every page (the
    cursor is exhausted); it requests at least one page, no more pages
    than the source has, and a further page only while the rows of the
    pages so far fall short of [target]; and a source without comments
    yields the empty list.  Both scripts' collectors agree. *)
Theorem C2_collector_reaches_target_or_exhausts pages (fuel : nat) :
  page_chain y vid None pages → (length pages ≤ fuel)%nat →
  ∃ rows trace,
    Scraper.fetch_comments_for_video fuel y vid target = Ok (rows, trace)
    ∧ Topup.fetch_comments fuel y vid target = Ok (rows, trace)
    ∧ (target ≤ available pages → target ≤ Z.of_nat (length rows))
    ∧ (available pages < target →
       Z.of_nat (length rows) = available pages
       ∧ rows = rows_of vid (threads_of pages)
       ∧ length trace = length pages)
    ∧ (1 ≤ length trace ≤ length pages)%nat
    ∧ (∀ j : nat, (1 ≤ j < length trace)%nat → available (take j pages) < target)
    ∧ (available pages = 0 → rows = []).
Proof.
  intros Hchain Hfuel.
  destruct (collect_pages_spec y vid target pages None Hchain eq_refl fuel [] 0 [] Hfuel)
    as (n & threads & tokens & Hrun & Hn & Hbound & Hpre & Hex & Hreach & Hmin).
  exists (rows_of vid threads), tokens. rewrite rows_of_length.
  split_and!.
  - exact Hrun.
  - exact Hrun.
  - intros Hge. specialize (Hreach ltac:(lia)). lia.
  - intros Hlt. destruct Hex as [-> ->]; [lia|]. done.
  - lia.
  - lia.
  - intros j Hj. specialize (Hmin j ltac:(lia)). lia.
  - intros Hzero. destruct Hpre as [rest Hrest].
    assert (threads_of pages = []) as Hnil by by apply threads_size_zero.
    rewrite Hnil in Hrest. symmetry in Hrest. by apply app_nil in Hrest as [-> _].
Qed.

Lemma collect_pages_rows (fuel : nat) rows token fetched trace rows' trace' :
  collect_pages fuel y vid target rows token fetched trace = Ok (rows', trace') →
  ∃ threads tokens,
    rows' = rows ++ rows_of vid threads ∧ trace' = trace ++ tokens
    ∧ threads `prefix_of` requested_threads y vid tokens.
Proof.
  revert rows token fetched trace.
  induction fuel as [|fuel IH]; intros rows token fetched trace Hrun; [done|].
  cbn [collect_pages] in Hrun.
  set (token' := if truthy token then token else None) in *.
  set (resp := commentThreads_list y vid token') in *.
  destruct (collect_items_spec vid target (tr_items resp) rows fetched) as (k & Hk & Hall).
  rewrite Hk in Hrun.
  assert (take k (tr_items resp) `prefix_of` requested_threads y vid [token']) as Hone.
  { unfold requested_threads. rewrite bind_singleton. apply prefix_take. }
  case_bool_decide as Hstop.
  { simplify_eq. by exists (take k (tr_items resp)), [token']. }
  destruct (truthy (tr_nextPageToken resp)); [|simplify_eq; by eexists _, [token']].
  rewrite Hall in Hrun by lia.
  destruct (IH _ _ _ _ Hrun) as (threads & tokens & -> & -> & Hpre).
  exists (tr_items resp ++ threads), (token' :: tokens). split_and!.
  - unfold rows_of. by rewrite bind_app, (assoc_L (++)).
  - by rewrite <-(assoc_L (++)).
  - unfold requested_threads. rewrite bind_cons. by apply prefix_app.
Qed.

Lemma thread_keys_rows threads :
  (λ r, (comment_id r, reply_parent_id r, is_reply r)) <$> rows_of vid threads
  = thread_keys threads.
Proof.
  unfold rows_of, thread_keys. induction threads as [|t threads IH]; [done|].
  rewrite !bind_cons, fmap_app, IH. f_equal. unfold thread_rows.
  rewrite fmap_cons, <-list_fmap_compose. done.
Qed.

Lemma well_threaded_app rows1 rows2 :
  well_threaded rows1 → well_threaded rows2 → well_threaded (rows1 ++ rows2).
Proof.
  intros H1 H2 i r Hi. destruct (decide (i < length rows1)%nat) as [Hlt|Hge].
  - rewrite lookup_app_l in Hi by done. specialize (H1 i r Hi).
    destruct (is_reply r); [|done].
    destruct H1 as (j & top & Hj & Htop & ? & ? & Hbetween).
    exists j, top. split_and!; try done.
    + rewrite lookup_app_l by lia. done.
    + intros k r' Hk Hr'. rewrite lookup_app_l in Hr' by lia. eauto.
  - rewrite lookup_app_r in Hi by lia. specialize (H2 _ r Hi).
    destruct (is_reply r); [|done].
    destruct H2 as (j & top & Hj & Htop & ? & ? & Hbetween).
    exists (length rows1 + j)%nat, top. split_and!; try done.
    + lia.
    + rewrite lookup_app_r by lia. rewrite <-Htop. f_equal. lia.
    + intros k r' Hk Hr'. rewrite lookup_app_r in Hr' by lia.
      apply (Hbetween (k - length rows1)%nat); [lia | done].
Qed.

Lemma well_threaded_thread (t : Thread) : well_threaded (thread_rows vid t).
Proof.
  intros i r Hi. unfold thread_rows in Hi. destruct i as [|i]; simpl in Hi.
  - by simplify_eq.
  - apply list_lookup_fmap_Some in Hi as (c & -> & Hc). simpl.
    exists 0%nat, (comment_row vid None false (th_top t)).
    split_and!; [lia|done|done|done|].
    intros k r' Hk Hr'. destruct k as [|k]; [lia|]. simpl in Hr'.
    by apply list_lookup_fmap_Some in Hr' as (c' & -> & _).
Qed.

Lemma well_threaded_rows_of threads : well_threaded (rows_of vid threads).
Proof.
  unfold rows_of. induction threads as [|t threads IH].
  - intros i r Hi. done.
  - rewrite bind_cons. apply well_threaded_app; [apply well_threaded_thread | done].
Qed.

(** C6.  The rows a collector returns are the rows of a run of threads,
    a prefix of the threads of the pages it requested, thread by thread:
    the top-level row, with null parent and reply flag false, followed
    at once by one row per reply in the order of the response, each with
    the top-level comment's id as parent and reply flag true.  Hence
    every reply row names the nearest top-level row before it, from
    which only reply rows separate it.  Both scripts' collectors agree. *)
Theorem C6_rows_follow_threads (fuel : nat) rows trace :
  Scraper.fetch_comments_for_video fuel y vid target = Ok (rows, trace) →
  Topup.fetch_comments fuel y vid target = Ok (rows, trace)
  ∧ (∃ threads,
       threads `prefix_of` requested_threads y vid trace
       ∧ rows = rows_of vid threads
       ∧ (λ r, (comment_id r, reply_parent_id r, is_reply r)) <$> rows
         = thread_keys threads)
  ∧ well_threaded rows
  ∧ (∀ r, r ∈ rows → is_reply r = false → reply_parent_id r = None)
  ∧ (∀ r, r ∈ rows → is_reply r = true →
       ∃ top, top ∈ rows ∧ is_reply top = false
              ∧ reply_parent_id r = Some (comment_id top)).
Proof.
  intros Hrun. split; [done|].
  destruct (collect_pages_rows _ _ _ _ _ _ _ Hrun) as (threads & tokens & -> & -> & Hpre).
  rewrite !app_nil_l. pose proof (well_threaded_rows_of threads) as Hwt.
  split_and!; [|done| |].
  - exists threads. split_and!; [done|done|apply thread_keys_rows].
  - intros r [i Hi]%list_elem_of_lookup Hr. specialize (Hwt i r Hi).
    by rewrite Hr in Hwt.
  - intros r [i Hi]%list_elem_of_lookup Hr. specialize (Hwt i r Hi).
    rewrite Hr in Hwt. destruct Hwt as (j & top & _ & Htop & ? & ? & _).
    exists top. split_and!; [by eapply list_elem_of_lookup_2|done..].
Qed.
End collector_claims.

(** ** The deferred backfill *)
Section backfill.
Context (y : YouTube).

Lemma same_base_fields_refl r : same_base_fields r r.
Proof. by repeat split. Qed.

Lemma fill_title_frame meta r :
  same_but_title r (Scraper.fill_title meta r)
  ∧ match video_id r ≫= (meta !!.) with
    | Some t => video_title (Scraper.fill_title meta r) = t
    | None => Scraper.fill_title meta r = r
    end.
Proof.
  unfold Scraper.fill_title. destruct (video_id r ≫= (meta !!.)) as [t|].
  - by repeat split.
  - by repeat split.
Qed.

Lemma fill_meta_frame meta r :
  same_base_fields r (Topup.fill_meta meta r)
  ∧ match video_id r ≫= (λ v, od_get v meta) with
    | Some m =>
        video_title (Topup.fill_meta meta r) = Topup.m_title m
        ∧ video_uploader_channel_id (Topup.fill_meta meta r) = Topup.channelId m
        ∧ video_uploader_channel_title (Topup.fill_meta meta r) = Topup.channelTitle m
    | None => Topup.fill_meta meta r = r
    end.
Proof.
  unfold Topup.fill_meta. destruct (video_id r ≫= (λ v, od_get v meta)) as [m|].
  - by repeat split.
  - by repeat split.
Qed.

(** C9.  The backfill pass keeps the number and order of the rows.  In
    [youtube_scraper.py] a row whose video id is a key of the fetched
    metadata gets that video's title as [video_title] and keeps every
    other field; in [yt_topup.py] such a row gets the video's title,
    uploader channel id and uploader channel title and keeps the other
    twelve fields.  A row whose video id is null or not a key of the
    metadata is left as it is. *)
Theorem C9_backfill_frame (rows : list Row) :
  let titles := Scraper.title_map y (Scraper.covered_ids rows) in
  let meta := Topup.video_stats y (Topup.covered_ids rows) in
  length (Scraper.fill_video_titles y rows) = length rows
  ∧ length (Topup.fill_video_meta y rows) = length rows
  ∧ (∀ (i : nat) r, rows !! i = Some r →
       ∃ r', Scraper.fill_video_titles y rows !! i = Some r'
             ∧ same_but_title r r'
             ∧ match video_id r ≫= (titles !!.) with
               | Some t => video_title r' = t
               | None => r' = r
               end)
  ∧ (∀ (i : nat) r, rows !! i = Some r →
       ∃ r', Topup.fill_video_meta y rows !! i = Some r'
             ∧ same_base_fields r r'
             ∧ match video_id r ≫= (λ v, od_get v meta) with
               | Some m =>
                   video_title r' = Topup.m_title m
                   ∧ video_uploader_channel_id r' = Topup.channelId m
                   ∧ video_uploader_channel_title r' = Topup.channelTitle m
               | None => r' = r
               end).
Proof.
  intros titles meta. unfold Scraper.fill_video_titles, Topup.fill_video_meta.
  rewrite !length_fmap. split_and!; [done|done| |].
  - intros i r Hi. exists (Scraper.fill_title titles r).
    rewrite list_lookup_fmap, Hi. split; [done|]. apply fill_title_frame.
  - intros i r Hi. exists (Topup.fill_meta meta r).
    rewrite list_lookup_fmap, Hi. split; [done|]. apply fill_meta_frame.
Qed.
End backfill.

(** ** The article scraper *)
Section rappler.
Import Rappler.
Context (e : Env).

Lemma scrape_links_kept rows article_links :
  scrape_links e rows article_links = rows ++ kept e article_links.
Proof.
  unfold scrape_links, kept. revert rows.
  induction article_links as [|link links IH]; intros rows; simpl.
  - by rewrite app_nil_r.
  - rewrite IH. destruct (extract_article e link) as [a|]; simpl; [|done].
    destruct (truthy (a_title a) && truthy (a_text a)); [|done].
    by rewrite <-(assoc_L (++)).
Qed.

Lemma scrape_pages_kept mode slug_or_query (page_numbers : list Z) rows df :
  foldlM (λ rows page,
            url ← build_listing_url e mode slug_or_query page;
            Ok (scrape_links e rows (get_article_links_from_listing e url)))
         rows page_numbers = Ok df →
  ∃ urls,
    Forall2 (λ page url, build_listing_url e mode slug_or_query page = Ok url)
            page_numbers urls
    ∧ df = rows ++ kept e (urls ≫= get_article_links_from_listing e).
Proof.
  revert rows. induction page_numbers as [|page pages IH]; intros rows Hrun.
  - simpl in Hrun. simplify_eq. exists []. split; [constructor|].
    unfold kept. simpl. by rewrite app_nil_r.
  - simpl in Hrun. inv_bind Hrun. inv_bind Hrun0. simplify_eq.
    destruct (IH _ Hrun) as (urls & Hurls & ->).
    exists (a0 :: urls). split; [by constructor|].
    rewrite scrape_links_kept, bind_cons. unfold kept.
    by rewrite omap_app, (assoc_L (++)).
Qed.

Lemma truthy_Some (s : option string) :
  truthy s = true → ∃ t, s = Some t ∧ t ≠ "".
Proof.
  destruct s as [t|]; [|done]. simpl. intros Ht. exists t. split; [done|].
  intros ->. by rewrite bool_decide_true in Ht.
Qed.

(** C10.  The rows of the data frame are exactly the extracted articles
    of the links of the listing pages, in order, that have a title and a
    text, neither null nor empty; an article extracted without one of
    them, and a link whose request failed, leaves no row. *)
Theorem C10_rows_have_title_and_text (mode slug_or_query : string) (pages : Z)
    (df : list Article) :
  scrape_rappler e mode slug_or_query pages = Ok df →
  (∃ urls,
     Forall2 (λ page url, build_listing_url e mode slug_or_query page = Ok url)
             (Z.of_nat <$> seq 1 (Z.to_nat pages)) urls
     ∧ df = kept e (urls ≫= get_article_links_from_listing e))
  ∧ (∀ a, a ∈ df →
       (∃ t, a_title a = Some t ∧ t ≠ "") ∧ (∃ x, a_text a = Some x ∧ x ≠ "")
       ∧ extract_article e (a_link a) = Some a).
Proof.
  intros Hrun. apply scrape_pages_kept in Hrun as (urls & Hurls & ->).
  rewrite app_nil_l. split; [by exists urls|].
  intros a Ha. unfold kept in Ha.
  apply list_elem_of_omap in Ha as (link & _ & Hlink).
  destruct (extract_article e link) as [a'|] eqn:Hext; [|done]. simpl in Hlink.
  destruct (truthy (a_title a') && truthy (a_text a')) eqn:Hkeep; [|done].
  simplify_eq. apply andb_true_iff in Hkeep as [Ht Hx].
  split_and!; [by apply truthy_Some | by apply truthy_Some |].
  unfold extract_article in Hext |- *.
  destruct (get_soup e link) eqn:Hsoup; [|done]. simplify_eq. simpl.
  by rewrite Hsoup.
Qed.
End rappler.

(** ** The top-up run *)
Section top_up.
Import Topup.
Context (y : YouTube) (fuel : nat).
Implicit Types (st : State) (rows existing : list Row) (pick : list string).

Lemma collected_rows_video vid target rows trace :
  fetch_comments fuel y vid target = Ok (rows, trace) →
  Forall (λ r, video_id r = Some vid) rows.
Proof.
  intros Hrun.
  destruct (collect_pages_rows _ _ _ _ _ _ _ _ _ _ Hrun) as (threads & _ & -> & _).
  rewrite app_nil_l. unfold rows_of. apply Forall_forall. intros r Hr.
  apply list_elem_of_bind in Hr as (t & Hr & _). unfold thread_rows in Hr.
  apply elem_of_cons in Hr as [->|Hr]; [done|].
  by apply list_elem_of_fmap in Hr as (c & -> & _).
Qed.

Lemma fill_meta_video_id meta r : video_id (fill_meta meta r) = video_id r.
Proof.
  unfold fill_meta. by destruct (video_id r ≫= (λ v, od_get v meta)).
Qed.

(** One collected video: what [collect_video] adds to the state. *)
Lemma collect_video_spec name ch_id meta st vid st' :
  collect_video fuel y name ch_id meta st vid = Ok st' →
  log st' = log st ++ [(name, vid)]
  ∧ existing_vids st' = {[vid]} ∪ existing_vids st
  ∧ ∃ new, added st' = added st ++ new
           ∧ Forall (λ r, video_id r = Some vid
                          ∧ ∃ m, od_get vid meta = Some m
                                 ∧ video_uploader_channel_id r = channelId m) new.
Proof.
  unfold collect_video. intros Hrun. inv_bind Hrun. destruct a as [rows trace].
  inv_bind Hrun. simplify_eq. simpl. split_and!; [done|done|].
  exists a. split; [done|].
  apply collected_rows_video in Hrun0. apply traverse_Ok in Hrun1.
  apply Forall_forall. intros r' Hr'.
  apply list_elem_of_lookup in Hr' as [i Hi].
  destruct (Forall2_lookup_r _ _ _ _ _ Hrun1 Hi) as (r & Hr & Hset).
  unfold fill_video_meta in Hr. apply list_lookup_fmap_Some in Hr as (r0 & -> & Hr0).
  destruct (od_get vid meta) as [m|] eqn:Hm; [|done]. simplify_eq. simpl.
  rewrite fill_meta_video_id. split; [|by exists m].
  apply (proj1 (Forall_forall _ _) Hrun0). by eapply list_elem_of_lookup_2.
Qed.

(** The loop over [pick]. *)
Lemma collect_pick_spec name ch_id meta pick st st' :
  foldlM (collect_video fuel y name ch_id meta) st pick = Ok st' →
  log st' = log st ++ ((name,.) <$> pick)
  ∧ existing_vids st' = list_to_set pick ∪ existing_vids st
  ∧ ∃ new, added st' = added st ++ new
           ∧ Forall (λ r, ∃ v m, v ∈ pick ∧ video_id r = Some v
                                 ∧ od_get v meta = Some m
                                 ∧ video_uploader_channel_id r = channelId m) new.
Proof.
  revert st. induction pick as [|vid pick IH]; intros st Hrun; simpl in Hrun.
  - simplify_eq. simpl. rewrite app_nil_r. split_and!; [done| |].
    + by rewrite (left_id_L ∅ (∪)).
    + exists []. by rewrite app_nil_r.
  - inv_bind Hrun.
    destruct (collect_video_spec _ _ _ _ _ _ Hrun0) as (Hlog & Hvids & new1 & Hadd & Hnew1).
    destruct (IH _ Hrun) as (Hlog' & Hvids' & new2 & Hadd' & Hnew2).
    split_and!.
    + rewrite Hlog', Hlog, <-(assoc_L (++)). done.
    + rewrite Hvids', Hvids. set_solver.
    + exists (new1 ++ new2). split; [by rewrite Hadd', Hadd, (assoc_L (++))|].
      apply Forall_app. split.
      * eapply Forall_impl; [exact Hnew1|]. intros r (? & m & ? & ?).
        exists vid, m. split_and!; [left|done..].
      * eapply Forall_impl; [exact Hnew2|]. intros r (v & m & ? & ? & ? & ?).
        exists v, m. split_and!; [by right|done..].
Qed.

(** One target channel: the videos of a pick are collected (an empty
    pick when the channel is skipped), none of them covered when the
    pass began, and the pick is cut from the sorted candidates. *)
Lemma top_up_channel_spec st name st' :
  top_up_channel fuel y st name = Ok st' →
  ∃ pick c meta l,
    foldlM (collect_video fuel y name c meta) st pick = Ok st'
    ∧ (∀ v, v ∈ pick → v ∉ existing_vids st)
    ∧ l ≡ₚ candidates meta (existing_vids st) (search_channel_videos y c KEYWORDS 40)
    ∧ pick `sublist_of` l.
Proof.
  unfold top_up_channel. intros Hrun.
  assert (∀ st0, Ok st = Ok st0 → ∃ pick c meta l,
    foldlM (collect_video fuel y name c meta) st pick = Ok st0
    ∧ (∀ v, v ∈ pick → v ∉ existing_vids st)
    ∧ l ≡ₚ candidates meta (existing_vids st) (search_channel_videos y c KEYWORDS 40)
    ∧ pick `sublist_of` l) as Hskip.
  { intros st0 ?. simplify_eq. eexists [], "", [], _.
    split_and!; [done| |done|apply sublist_nil_l].
    by intros v ?%elem_of_nil. }
  destruct (find_channel_id y name) as [ch_id ch_title] eqn:Hfind.
  destruct ch_id as [c|]; [|by apply Hskip].
  destruct (truthy (Some c)); simpl in Hrun; [|by apply Hskip].
  case_bool_decide; [by apply Hskip|].
  inv_bind Hrun. rename a into cand.
  apply sorted_descM_perm in Hrun0.
  eexists _, c, _, cand. split_and!; [exact Hrun| |done|].
  - intros v Hv%py_take_subseteq. rewrite Hrun0 in Hv.
    unfold candidates in Hv. apply list_elem_of_filter in Hv as [[_ ?] _]. done.
  - unfold py_take. case_bool_decide; apply sublist_take.
Qed.

Lemma covered_spec existing v :
  v ∈ covered existing ↔ ∃ r, r ∈ existing ∧ truthy (video_id r) = true
                              ∧ video_id r = Some v.
Proof.
  unfold covered. rewrite elem_of_list_to_set, list_elem_of_omap. split.
  - intros (r & Hr & Hv). exists r. destruct (truthy (video_id r)); naive_solver.
  - intros (r & Hr & Ht & Hv). exists r. by rewrite Ht.
Qed.

Lemma top_up_inv_initial existing : top_up_inv y existing (initial existing).
Proof.
  unfold top_up_inv, initial. simpl. split_and!.
  - set_solver.
  - intros r Hr Ht. rewrite app_nil_r in Hr.
    destruct (video_id r) as [v|] eqn:Hv; [|done]. exists v. split; [done|].
    apply covered_spec. exists r. by rewrite Hv.
  - by intros ?? ?%elem_of_nil.
  - intros i j ??? _ Hi. by rewrite lookup_nil in Hi.
  - intros _. apply NoDup_nil_2.
  - by rewrite app_nil_r.
Qed.

Lemma log_snd_app name (l : list (string * string)) pick :
  (l ++ ((name,.) <$> pick)).*2 = l.*2 ++ pick.
Proof.
  rewrite fmap_app, <-list_fmap_compose. f_equal. apply list_fmap_id.
Qed.

Lemma top_up_inv_step existing st name st' :
  top_up_channel fuel y st name = Ok st' →
  top_up_inv y existing st → top_up_inv y existing st'.
Proof.
  intros Hrun (Hvids & Hrows & Hfresh & Hpass & Hnodup & Hown).
  destruct (top_up_channel_spec _ _ _ Hrun) as (pick & c & meta & l & Hfold & Hpick & Hl & Hsub).
  destruct (collect_pick_spec _ _ _ _ _ _ Hfold) as (Hlog & Hvids' & new & Hadd & Hnew).
  assert (∀ n v, (n, v) ∈ log st → v ∈ existing_vids st) as Hlogged.
  { intros n v Hin. rewrite Hvids. apply elem_of_union_r, elem_of_list_to_set.
    apply list_elem_of_fmap. by exists (n, v). }
  assert (∀ r, r ∈ new → ∃ v m, v ∈ pick ∧ video_id r = Some v
                                ∧ od_get v meta = Some m
                                ∧ video_uploader_channel_id r = channelId m) as Hnew'.
  { intros r Hr. by apply (proj1 (Forall_forall _ _) Hnew). }
  assert (∀ r v, r ∈ existing ++ added st → truthy (video_id r) = true →
                 video_id r = Some v → v ∉ pick) as Hold.
  { intros r v Hr Ht Hv Hin. destruct (Hrows r Hr Ht) as (v' & Hv' & Hcov).
    assert (v' = v) as -> by congruence. by apply (Hpick v). }
  unfold top_up_inv. rewrite Hlog, Hvids', Hadd, log_snd_app. split_and!.
  - rewrite Hvids, list_to_set_app_L. set_solver.
  - intros r Hr Ht. rewrite (assoc_L (++)) in Hr.
    apply elem_of_app in Hr as [Hr|Hr].
    + destruct (Hrows r Hr Ht) as (v & ? & ?). exists v. set_solver.
    + destruct (Hnew' r Hr) as (v & m & ? & ? & _). exists v. set_solver.
  - intros n v [Hin|Hin]%elem_of_app; [eauto|].
    apply list_elem_of_fmap in Hin as (v' & ? & Hv'). simplify_eq.
    intros Hcov. apply (Hpick v' Hv'). rewrite Hvids. set_solver.
  - intros i j n1 n2 v Hij Hi Hj.
    destruct (decide (j < length (log st))%nat) as [Hlt|Hge].
    { rewrite lookup_app_l in Hi, Hj by lia. eauto. }
    rewrite lookup_app_r in Hj by lia.
    apply list_lookup_fmap_Some in Hj as (v' & ? & Hv'). simplify_eq.
    destruct (decide (i < length (log st))%nat) as [Hlt|Hge'].
    + rewrite lookup_app_l in Hi by lia. exfalso.
      apply (Hpick v'); [by eapply list_elem_of_lookup_2|].
      eapply Hlogged, list_elem_of_lookup_2, Hi.
    + rewrite lookup_app_r in Hi by lia.
      by apply list_lookup_fmap_Some in Hi as (v'' & ? & _); simplify_eq.
  - intros Hsearch. apply NoDup_app. split_and!; [auto| |].
    + intros v Hv Hin. apply (Hpick v Hin). rewrite Hvids.
      by apply elem_of_union_r, elem_of_list_to_set.
    + eapply sublist_NoDup; [|exact Hsub]. rewrite Hl.
      unfold candidates. apply NoDup_filter, Hsearch.
  - intros Hex. specialize (Hown Hex). rewrite (assoc_L (++)).
    intros r1 r2 [H1|H1]%elem_of_app [H2|H2]%elem_of_app Ht Heq.
    + by apply Hown.
    + exfalso. destruct (Hnew' r2 H2) as (v & m & Hv & Hid & _).
      apply (Hold r1 v); [done|done|congruence|done].
    + exfalso. destruct (Hnew' r1 H1) as (v & m & Hv & Hid & _).
      apply (Hold r2 v); [done|congruence|congruence|done].
    + destruct (Hnew' r1 H1) as (v1 & m1 & _ & Hid1 & Hm1 & ->).
      destruct (Hnew' r2 H2) as (v2 & m2 & _ & Hid2 & Hm2 & ->).
      congruence.
Qed.

Lemma main_inv existing corpus st :
  main fuel y existing = Ok (corpus, st) →
  corpus = existing ++ added st ∧ top_up_inv y existing st.
Proof.
  unfold main. intros Hrun. inv_bind Hrun. simplify_eq. split; [done|].
  eapply (foldlM_inv (top_up_inv y existing)); [|apply top_up_inv_initial|done].
  intros acc name acc' _ Hacc Hstep. by eapply top_up_inv_step.
Qed.


Lemma foldlM_fixed {A B} (f : A → B → result A) (acc : A) (l : list B) :
  (∀ x, x ∈ l → f acc x = Ok acc) → foldlM f acc l = Ok acc.
Proof.
  induction l as [|x l IH]; intros Hf; simpl; [done|].
  rewrite Hf by left. simpl. apply IH. intros ??. apply Hf. by right.
Qed.

Lemma top_up_channel_skip st name :
  (∀ c v, (find_channel_id y name).1 = Some c →
          v ∈ search_channel_videos y c KEYWORDS 40 →
          from_option commentCount 0
            (od_get v (video_stats y (search_channel_videos y c KEYWORDS 40)))
          < MIN_COMMENTS
          ∨ v ∈ existing_vids st) →
  top_up_channel fuel y st name = Ok st.
Proof.
  intros Hnone. unfold top_up_channel.
  destruct (find_channel_id y name) as [ch_id ch_title]. simpl in Hnone.
  destruct ch_id as [c|]; [|done]. destruct (negb (truthy (Some c))); [done|].
  case_bool_decide; [done|].
  assert (candidates (video_stats y (search_channel_videos y c KEYWORDS 40))
            (existing_vids st) (search_channel_videos y c KEYWORDS 40) = []) as ->.
  { apply elem_of_nil_inv. intros v [[Hmin Hcov] Hv]%list_elem_of_filter.
    destruct (Hnone c v eq_refl Hv); [lia|done]. }
  simpl. unfold py_take. by case_bool_decide; rewrite take_nil.
Qed.

Lemma main_no_candidates existing :
  no_new_candidates y (covered existing) →
  main fuel y existing = Ok (existing, initial existing).
Proof.
  intros Hnone. unfold main. rewrite foldlM_fixed; [simpl; by rewrite app_nil_r|].
  intros name Hname. apply top_up_channel_skip. intros c v Hc Hv.
  by apply (Hnone name).
Qed.
End top_up.

(** C7.  Top-up is idempotent.  Let a first run have produced a corpus.
    Every video that corpus covers was in the covered set at the end of
    the first run; and a second run on that corpus that finds no new
    qualifying candidate (every video that the search of a target channel
    returns fails the threshold or is covered by the corpus) completes,
    returns the corpus as it is, appends no row, fetches no video and
    leaves the covered set as it was. *)
Theorem C7_top_up_idempotent (y1 y2 : YouTube) (fuel1 fuel2 : nat)
    (existing corpus : list Row) (st : Topup.State) :
  Topup.main fuel1 y1 existing = Ok (corpus, st) →
  Topup.no_new_candidates y2 (Topup.covered corpus) →
  Topup.covered corpus ⊆ Topup.existing_vids st
  ∧ ∃ st2,
      Topup.main fuel2 y2 corpus = Ok (corpus, st2)
      ∧ Topup.added st2 = [] ∧ Topup.log st2 = []
      ∧ Topup.existing_vids st2 = Topup.covered corpus.
Proof.
  intros Hfirst Hnone. split.
  - destruct (main_inv _ _ _ _ _ Hfirst) as (-> & _ & Hrows & _).
    intros v (r & Hr & Ht & Hv)%covered_spec.
    destruct (Hrows r Hr Ht) as (v' & Hv' & Hin). congruence.
  - exists (Topup.initial corpus).
    split; [by apply main_no_candidates | done].
Qed.

(** ** The selector on concrete runs *)
Section runs.
Import Fixture.

(** Settle a decidable proposition by evaluating its decision. *)
Ltac decide_by_vm :=
  match goal with
  | |- ?P => apply (bool_decide_unpack P); vm_compute; exact I
  end.

Example sorted_desc_stable :
  sorted_desc (λ s, match s with "a" => 1 | "b" => 3 | "c" => 1 | _ => 3 end)
    ["a"; "b"; "c"; "d"] = ["b"; "d"; "a"; "c"].
Proof. reflexivity. Qed.

Example py_take_negative : py_take (-1) [1; 2; 3] = [1; 2].
Proof. reflexivity. Qed.

Example range_step_120 : range_step 120 50 = [0; 50; 100]%nat.
Proof. reflexivity. Qed.

Example pick_one_video :
  Scraper.pick_5_channels_5_videos yt_one_video "k" 25 = Ok [(Some "X", ["A"])].
Proof. reflexivity. Qed.

(** Four channels qualify on relevance, the fifth after one escalation
    tier: the plan has five channels of five videos. *)
Example pick_after_one_escalation :
  length (selected_of_first yt_escalation) = 4%nat
  ∧ Scraper.pick_5_channels_5_videos yt_escalation "k" 25
    = Ok ((λ ch, (Some ch, ids_of ch 5)) <$> ["P"; "Q"; "R"; "S"; "T"]).
Proof. split; reflexivity. Qed.

Lemma C1_witness :
  ∃ order meta,
    order ∈ Scraper.orders
    ∧ od_get "A" (Scraper.probe yt_one_video "k" order) = Some meta
    ∧ 25 ≤ Scraper.commentCount meta ∧ Scraper.channelId meta = Some "X".
Proof.
  destruct (C1_plan_videos_meet_threshold yt_one_video "k" 25 [(Some "X", ["A"])])
    as [H _]; [reflexivity|].
  apply (H (Some "X") ["A"] "A"); left.
Defined.

(** Counterexample to C4 as stated.  The first tier fills the bucket of
    channel X with the videos e, d, c, b, a; the merge of the
    most-viewed tier completes and adds video f, which has more comments
    than all of them: video a, held before the merge, is no longer in
    the bucket. *)
Lemma C4_counterexample :
  (Scraper.first_tier yt_full_bucket "k" 25).2
  = Ok [(Some "X", ["e"; "d"; "c"; "b"; "a"])]
  ∧ Scraper.merge_tier yt_full_bucket "k" 25
      (Scraper.first_tier yt_full_bucket "k" 25).1 "viewCount"
      [(Some "X", ["e"; "d"; "c"; "b"; "a"])]
    = Ok [(Some "X", ["f"; "e"; "d"; "c"; "b"])]
  ∧ "a" ∈ ["e"; "d"; "c"; "b"; "a"]
  ∧ "a" ∉ ["f"; "e"; "d"; "c"; "b"].
Proof.
  split_and!; [reflexivity|reflexivity|decide_by_vm|decide_by_vm].
Qed.

Lemma C4_witness :
  Scraper.buckets_capped [(Some "X", ["f"; "e"; "d"; "c"; "b"])]
  ∧ Scraper.buckets_distinct [(Some "X", ["f"; "e"; "d"; "c"; "b"])]
  ∧ od_keys [(Some "X", ["e"; "d"; "c"; "b"; "a"])]
    `prefix_of` od_keys [(Some "X", ["f"; "e"; "d"; "c"; "b"])]
  ∧ ∀ ch vids,
      od_get ch [(Some "X", ["e"; "d"; "c"; "b"; "a"])] = Some vids →
      ∃ vids', od_get ch [(Some "X", ["f"; "e"; "d"; "c"; "b"])] = Some vids'
               ∧ (length vids ≤ length vids' ≤ 5)%nat
               ∧ (length vids = 5%nat → length vids' = 5%nat)
               ∧ ∀ v, v ∈ vids → v ∉ vids' → length vids' = 5%nat.
Proof.
  apply (C4_merge_keeps_buckets yt_full_bucket "k" 25
           (Scraper.first_tier yt_full_bucket "k" 25).1 "viewCount").
  - decide_by_vm.
  - decide_by_vm.
  - reflexivity.
Defined.

(** Counterexample to C5 as stated, for one channel of one video.  After
    the first tier channel X has a bucket of exactly one member, so for
    M = 1 it qualifies and, with N = 1, the stated terminal success
    state would return X with video x1.  The selector does not stop
    there: the escalation finds channel Y with two videos, the fallback
    ranks Y first, and the plan is Y with video y2. *)
Lemma C5_counterexample :
  (Scraper.first_tier yt_late_channel "k" 25).2 = Ok [(Some "X", ["x1"])]
  ∧ Scraper.spec_qualifying 1 [(Some "X", ["x1"])] = [(Some "X", ["x1"])]
  ∧ Scraper.main_selection yt_late_channel "k" 25 1 1 = Ok [(Some "Y", ["y2"])]
  ∧ Scraper.main_selection yt_late_channel "k" 25 1 1
    ≠ Ok (take 1 (Scraper.spec_qualifying 1 [(Some "X", ["x1"])])).
Proof. split_and!; [reflexivity..|discriminate]. Qed.

Lemma C5_witness :
  Z.of_nat (length [(Some "Y", ["y2"])]) ≤ Z.min 1 5
  ∧ Forall (λ kv : option string * list string,
              Z.of_nat (length kv.2) ≤ Z.min 1 5) [(Some "Y", ["y2"])].
Proof.
  destruct (C5_plan_shape yt_late_channel "k" 25) as (_ & _ & _ & _ & _ & _ & H).
  apply (H 1 1); [lia|lia|reflexivity].
Defined.

(** C8, at a failing input.  Relevance finds nothing, the most-viewed
    tier finds video A of channel X, the recency tier finds video B of
    the same channel and not A.  No tier can qualify five channels, yet
    the selector does not reach the fallback: the first tier and the
    most-viewed tier complete, and re-sorting the bucket of X in the
    recency tier looks A up in the first tier's statistics and in the
    current tier's only, finds it in neither and raises [TypeError]. *)
Theorem C8_selector_raises_in_escalation :
  Scraper.first_tier yt_two_tiers "k" 25 = ([], Ok [])
  ∧ Scraper.merge_tier yt_two_tiers "k" 25 [] "viewCount" [] = Ok [(Some "X", ["A"])]
  ∧ Scraper.merge_tier yt_two_tiers "k" 25 [] "date" [(Some "X", ["A"])]
    = Raise TypeError
  ∧ Scraper.pick_5_channels_5_videos yt_two_tiers "k" 25 = Raise TypeError
  ∧ Scraper.main_selection yt_two_tiers "k" 25 5 5 = Raise TypeError.
Proof. split_and!; reflexivity. Qed.

Example collect_all_of_V :
  (comment_id <$> (default ([], []) (match Scraper.fetch_comments_for_video 2 yt_rappler "V" 150
                                     with Ok res => Some res | Raise _ => None end)).1)
  = ["c1"; "c1.1"; "c1.2"; "c2"; "c3"; "c3.1"].
Proof. reflexivity. Qed.

Example collect_out_of_fuel :
  Scraper.fetch_comments_for_video 1 yt_rappler "V" 150 = Raise OutOfFuel.
Proof. reflexivity. Qed.

Lemma C2_witness :
  ∃ rows trace,
    Scraper.fetch_comments_for_video 2 yt_rappler "V" 4 = Ok (rows, trace)
    ∧ Topup.fetch_comments 2 yt_rappler "V" 4 = Ok (rows, trace)
    ∧ (4 ≤ available two_pages → 4 ≤ Z.of_nat (length rows))
    ∧ (available two_pages < 4 →
       Z.of_nat (length rows) = available two_pages
       ∧ rows = rows_of "V" (threads_of two_pages)
       ∧ length trace = length two_pages)
    ∧ (1 ≤ length trace ≤ length two_pages)%nat
    ∧ (∀ j : nat, (1 ≤ j < length trace)%nat → available (take j two_pages) < 4)
    ∧ (available two_pages = 0 → rows = []).
Proof.
  apply (C2_collector_reaches_target_or_exhausts yt_rappler "V" 4 two_pages 2).
  - apply (chain_next yt_rappler "V" None [pages_of_V "V" (Some "p2")]); [reflexivity|].
    apply (chain_last yt_rappler "V" (Some "p2")). reflexivity.
  - simpl. lia.
Defined.

Lemma C6_witness :
  Topup.fetch_comments 2 yt_rappler "V" 4 = Ok (collected_V.1, collected_V.2)
  ∧ (∃ threads,
       threads `prefix_of` requested_threads yt_rappler "V" collected_V.2
       ∧ collected_V.1 = rows_of "V" threads
       ∧ (λ r, (comment_id r, reply_parent_id r, is_reply r)) <$> collected_V.1
         = thread_keys threads)
  ∧ well_threaded collected_V.1
  ∧ (∀ r, r ∈ collected_V.1 → is_reply r = false → reply_parent_id r = None)
  ∧ (∀ r, r ∈ collected_V.1 → is_reply r = true →
       ∃ top, top ∈ collected_V.1 ∧ is_reply top = false
              ∧ reply_parent_id r = Some (comment_id top)).
Proof.
  apply (C6_rows_follow_threads yt_rappler "V" 4 2 collected_V.1 collected_V.2).
  vm_compute. reflexivity.
Defined.

Example collected_V_keys :
  (λ r, (comment_id r, reply_parent_id r, is_reply r)) <$> collected_V.1
  = [("c1", None, false); ("c1.1", Some "c1", true); ("c1.2", Some "c1", true);
     ("c2", None, false)].
Proof. reflexivity. Qed.

Lemma C9_witness :
  length (Scraper.fill_video_titles yt_rappler collected_V.1) = length collected_V.1
  ∧ length (Topup.fill_video_meta yt_rappler collected_V.1) = length collected_V.1.
Proof.
  destruct (C9_backfill_frame yt_rappler collected_V.1) as (H1 & H2 & _).
  exact (conj H1 H2).
Defined.

Example backfill_V :
  (λ r, (comment_id r, video_title r, video_uploader_channel_id r))
    <$> Topup.fill_video_meta yt_rappler collected_V.1
  = [("c1", Some "title of V", Some "UCrappler");
     ("c1.1", Some "title of V", Some "UCrappler");
     ("c1.2", Some "title of V", Some "UCrappler");
     ("c2", Some "title of V", Some "UCrappler")].
Proof. reflexivity. Qed.


Example first_run_log : Topup.log first_run.2 = [("Rappler", "V")].
Proof. reflexivity. Qed.

Example first_run_rows :
  (λ r, (comment_id r, video_id r, video_uploader_channel_id r)) <$> first_run.1
  = [("c1", Some "V", Some "UCrappler"); ("c1.1", Some "V", Some "UCrappler");
     ("c1.2", Some "V", Some "UCrappler"); ("c2", Some "V", Some "UCrappler");
     ("c3", Some "V", Some "UCrappler"); ("c3.1", Some "V", Some "UCrappler")].
Proof. reflexivity. Qed.

Lemma C7_witness :
  Topup.covered first_run.1 ⊆ Topup.existing_vids first_run.2
  ∧ ∃ st2,
      Topup.main 2 yt_rappler first_run.1 = Ok (first_run.1, st2)
      ∧ Topup.added st2 = [] ∧ Topup.log st2 = []
      ∧ Topup.existing_vids st2 = Topup.covered first_run.1.
Proof.
  apply (C7_top_up_idempotent yt_rappler yt_rappler 2 2 [] first_run.1 first_run.2).
  - vm_compute. reflexivity.
  - intros name c v Hname Hc Hv. right.
    assert (c = "UCrappler") as ->.
    { unfold Topup.TARGET_CHANNEL_NAMES in Hname.
      repeat (apply elem_of_cons in Hname as [->|Hname]);
        [vm_compute in Hc; congruence..|by apply elem_of_nil in Hname]. }
    vm_compute in Hv. apply list_elem_of_singleton in Hv as ->.
    decide_by_vm.
Defined.

Lemma C10_witness :
  (∃ urls,
     Forall2 (λ page url, Rappler.build_listing_url site "topic" "pogo" page = Ok url)
             (Z.of_nat <$> seq 1 (Z.to_nat 1)) urls
     ∧ scraped = Rappler.kept site (urls ≫= Rappler.get_article_links_from_listing site))
  ∧ (∀ a, a ∈ scraped →
       (∃ t, Rappler.a_title a = Some t ∧ t ≠ "")
       ∧ (∃ x, Rappler.a_text a = Some x ∧ x ≠ "")
       ∧ Rappler.extract_article site (Rappler.a_link a) = Some a).
Proof.
  apply (C10_rows_have_title_and_text site "topic" "pogo" 1 scraped).
  vm_compute. reflexivity.
Defined.

Example scraped_links :
  Rappler.a_link <$> scraped = ["https://www.rappler.com/a"].
Proof. reflexivity. Qed.
End runs.

(** ** The engagement prober *)
Section prober.
Context (y : YouTube).
Implicit Types (ids : list string) (items : list VideoItem).

Lemma range_step_50 (n : nat) :
  range_step n 50 = (λ k, k * 50)%nat <$> seq 0 ((n + 49) / 50)%nat.
Proof. unfold range_step. by replace (n + 50 - 1)%nat with (n + 49)%nat by lia. Qed.

Lemma range_step_50_lt (n i : nat) : i ∈ range_step n 50 → (i < n)%nat.
Proof.
  rewrite range_step_50. intros (k & -> & Hk)%list_elem_of_fmap.
  apply elem_of_seq in Hk as [_ Hk].
  pose proof (Nat.Div0.mul_div_le (n + 49) 50). lia.
Qed.

Lemma concat_chunks_from (m : nat) ids :
  (length ids ≤ m * 50)%nat →
  concat ((λ i, take 50 (drop i ids)) <$> ((λ k, k * 50)%nat <$> seq 0 m)) = ids.
Proof.
  revert ids. induction m as [|m IH]; intros ids Hlen.
  - destruct ids; [done | simpl in Hlen; lia].
  - cbn [seq]. rewrite <-fmap_S_seq, !fmap_cons, <-!list_fmap_compose.
    cbn [concat]. rewrite drop_0.
    assert (length (drop 50 ids) ≤ m * 50)%nat as Hdrop
      by (rewrite length_drop; lia).
    pose proof (IH _ Hdrop) as Hrest. rewrite <-list_fmap_compose in Hrest.
    etrans; [|apply (take_drop 50 ids)]. f_equal.
    etrans; [|exact Hrest]. f_equal. apply list_fmap_ext.
    intros _ k _. simpl. by rewrite drop_drop.
Qed.

(** X1.  The prober asks for every video id exactly once and in order, in
    batches of at most fifty ids, and never sends an empty batch; for an
    empty list of ids it sends no request. *)
Theorem X1_chunks_cover_ids ids :
  concat (chunks ids) = ids
  ∧ Forall (λ chunk, chunk ≠ [] ∧ (length chunk ≤ 50)%nat) (chunks ids)
  ∧ length (chunks ids) = ((length ids + 49) / 50)%nat
  ∧ (ids = [] → chunks ids = []).
Proof.
  unfold chunks. split_and!.
  - rewrite range_step_50. apply concat_chunks_from.
    pose proof (Nat.div_mod_eq (length ids + 49) 50).
    pose proof (Nat.mod_upper_bound (length ids + 49) 50). lia.
  - apply Forall_fmap, Forall_forall. intros i Hi%range_step_50_lt. simpl. split.
    + intros Hnil. apply (f_equal length) in Hnil.
      rewrite length_take, length_drop in Hnil. cbn [length] in Hnil. lia.
    + rewrite length_take. lia.
  - by rewrite range_step_50, !length_fmap, length_seq.
  - by intros ->.
Qed.

Lemma foldl_bind {A B C} (f : A → B → A) (g : C → list B) (a : A) (l : list C) :
  foldl f a (l ≫= g) = foldl (λ a x, foldl f a (g x)) a l.
Proof.
  revert a. induction l as [|x l IH]; intros a; [done|].
  by rewrite bind_cons, foldl_app, IH.
Qed.

Lemma foldl_ext_in {A B} (f g : A → B → A) (a : A) (l : list B) :
  (∀ a x, x ∈ l → f a x = g a x) → foldl f a l = foldl g a l.
Proof.
  revert a. induction l as [|x l IH]; intros a Hfg; [done|]. simpl.
  rewrite Hfg by left. apply IH. intros ???. apply Hfg. by right.
Qed.

Lemma video_stats_responses ids :
  Scraper.video_stats y ids
  = foldl (λ out it, od_set (vi_id it) (Scraper.meta_of it) out) []
          (responses y "snippet,statistics" ids).
Proof.
  unfold Scraper.video_stats, responses, chunks.
  by rewrite foldl_bind, foldl_fmap.
Qed.

Lemma last_item_cons v it items :
  last_item v (it :: items)
  = match last_item v items with
    | Some it' => Some it'
    | None => if decide (vi_id it = v) then Some it else None
    end.
Proof.
  unfold last_item. rewrite filter_cons.
  case_decide; [rewrite last_cons|]; by destruct (last _).
Qed.

Lemma foldl_od_set_get {V} (f : VideoItem → V) items (d : list (string * V)) v :
  od_get v (foldl (λ out it, od_set (vi_id it) (f it) out) d items)
  = match last_item v items with
    | Some it => Some (f it)
    | None => od_get v d
    end.
Proof.
  revert d. induction items as [|it items IH]; intros d; [done|].
  cbn [foldl]. rewrite IH, last_item_cons.
  destruct (last_item v items); [done|]. rewrite od_get_set.
  repeat case_decide; congruence.
Qed.

(** X2.  The statistics dictionary holds one entry per video id that some
    response carries; a lookup returns the statistics of the last response
    item with that id (a later item overwrites an earlier one), built from
    that item with a missing comment count read as 0; an id that no
    response carries is absent. *)
Theorem X2_video_stats_lookup ids v :
  od_get v (Scraper.video_stats y ids)
  = Scraper.meta_of <$> last_item v (responses y "snippet,statistics" ids)
  ∧ NoDup (Scraper.video_stats y ids).*1
  ∧ (v ∈ (Scraper.video_stats y ids).*1
     ↔ ∃ it, it ∈ responses y "snippet,statistics" ids ∧ vi_id it = v).
Proof.
  assert (od_get v (Scraper.video_stats y ids)
          = Scraper.meta_of <$> last_item v (responses y "snippet,statistics" ids)) as Hget.
  { rewrite video_stats_responses, foldl_od_set_get.
    by destruct (last_item _ _). }
  split_and!; [done|apply video_stats_NoDup|].
  destruct (od_get v (Scraper.video_stats y ids)) as [m|] eqn:Hm.
  - split.
    + intros _. destruct (last_item _ _) as [it|] eqn:Hlast; [|done].
      apply last_Some_elem_of, list_elem_of_filter in Hlast as [? ?]. by exists it.
    + intros _. apply od_get_elem_of in Hm. apply list_elem_of_fmap. by exists (v, m).
  - split.
    + intros Hin. by apply od_get_None in Hm.
    + intros (it & Hit & Hid). exfalso.
      destruct (last_item _ _) as [it'|] eqn:Hlast; [done|].
      apply last_None in Hlast.
      assert (it ∈ filter (λ it, vi_id it = v) (responses y "snippet,statistics" ids))
        as Hf by by apply list_elem_of_filter.
      rewrite Hlast in Hf. by apply elem_of_nil in Hf.
Qed.

Lemma od_set_fmap {V W} (g : V → W) (k : string) (x : V) (d : list (string * V)) :
  od_set k (g x) (prod_map id g <$> d) = prod_map id g <$> od_set k x d.
Proof.
  induction d as [|[k' x'] d IH]; [done|]. rewrite fmap_cons.
  cbn [od_set prod_map fst snd]. unfold id at 1.
  destruct (decide (k = k')); rewrite fmap_cons; [done|]. by rewrite IH.
Qed.

(** X3.  The statistics function of [yt_topup.py] computes the dictionary
    of [youtube_scraper.py]'s, entry by entry and in the same order,
    without the publication date: its guard against an empty batch never
    fires. *)
Theorem X3_topup_video_stats_agrees ids :
  Topup.video_stats y ids = prod_map id topup_meta <$> Scraper.video_stats y ids.
Proof.
  unfold Topup.video_stats, Scraper.video_stats.
  rewrite (foldl_ext_in _
    (λ out i, foldl (λ out it, od_set (vi_id it) (Topup.meta_of it) out) out
                    (videos_list y (take 50 (drop i ids)) "snippet,statistics"))).
  2:{ intros out i Hi%range_step_50_lt. rewrite bool_decide_false; [done|].
      intros Hnil. apply (f_equal length) in Hnil.
      rewrite length_take, length_drop in Hnil. cbn [length] in Hnil. lia. }
  generalize (range_step (length ids) 50). intros l.
  change (@nil (string * Topup.Meta)) with (prod_map id topup_meta <$> @nil (string * Scraper.Meta)).
  generalize (@nil (string * Scraper.Meta)). induction l as [|i l IH]; intros d; [done|].
  cbn [foldl]. rewrite <-IH. f_equal.
  generalize (videos_list y (take 50 (drop i ids)) "snippet,statistics").
  intros items. revert d. induction items as [|it items IH']; intros d; [done|].
  cbn [foldl]. rewrite <-IH'. f_equal.
  apply (od_set_fmap topup_meta (vi_id it) (Scraper.meta_of it)).
Qed.
End prober.

(** ** The first tier of the selector *)
Section first_tier.
Import Scraper.
Context (y : YouTube) (keywords : string) (min_comments : Z).
Implicit Types (by_channel : buckets) (stats : odict string Meta).

Lemma traverse_pure {A B} (f : A → result B) (g : A → B) (l : list A) :
  (∀ x, x ∈ l → f x = Ok (g x)) → traverse f l = Ok (g <$> l).
Proof.
  induction l as [|x l IH]; intros Hf; [done|]. cbn [traverse].
  rewrite Hf by left. simpl. rewrite IH; [done|]. intros ??. apply Hf. by right.
Qed.

(** With keys that can all be computed, the sort is the pure one. *)
Lemma sorted_descM_pure {A} (key : A → result Z) (k : A → Z) (l : list A) :
  (∀ x, x ∈ l → key x = Ok (k x)) → sorted_descM key l = Ok (sorted_desc k l).
Proof.
  intros Hkey. unfold sorted_descM, sorted_desc.
  rewrite (traverse_pure _ (λ x, (k x, x))); [done|].
  intros x Hx. by rewrite Hkey.
Qed.

(** The sort is stable: elements with equal keys keep their order. *)
Lemma insert_desc_filter {A} (k : Z) (x : Z * A) ks :
  filter (λ kx, kx.1 = k) (insert_desc x ks) = filter (λ kx, kx.1 = k) (x :: ks).
Proof.
  induction ks as [|z ks IH]; [done|]. cbn [insert_desc].
  case_bool_decide as Hlt; [|done].
  rewrite (filter_cons _ z), IH, !filter_cons.
  destruct (decide (x.1 = k)), (decide (z.1 = k)); try done. lia.
Qed.

Lemma isort_desc_filter {A} (k : Z) (ks : list (Z * A)) :
  filter (λ kx, kx.1 = k) (isort_desc ks) = filter (λ kx, kx.1 = k) ks.
Proof.
  induction ks as [|x ks IH]; [done|]. cbn [isort_desc foldr].
  rewrite insert_desc_filter, !filter_cons. unfold isort_desc in IH.
  by rewrite IH.
Qed.

Lemma filter_decorated {A} (key : A → Z) (k : Z) (ks : list (Z * A)) :
  Forall (λ kx, kx.1 = key kx.2) ks →
  filter (λ x, key x = k) ks.*2 = (filter (λ kx, kx.1 = k) ks).*2.
Proof.
  induction ks as [|[k' x] ks IH]; intros Hks; [done|].
  apply Forall_cons in Hks as [Hk Hks]. simpl in Hk. subst k'.
  rewrite fmap_cons, !filter_cons. cbn [fst snd]. rewrite (IH Hks).
  by destruct (decide (key x = k)).
Qed.

Lemma sorted_desc_stable_filter {A} (key : A → Z) (k : Z) (l : list A) :
  filter (λ x, key x = k) (sorted_desc key l) = filter (λ x, key x = k) l.
Proof.
  unfold sorted_desc. rewrite filter_decorated.
  - rewrite isort_desc_filter, <-(filter_decorated key).
    + by rewrite <-list_fmap_compose, list_fmap_id.
    + by apply Forall_fmap, Forall_true.
  - rewrite isort_desc_perm. by apply Forall_fmap, Forall_true.
Qed.

Lemma prefix_filter {A} (P : A → Prop) `{∀ x, Decision (P x)} (l1 l2 : list A) :
  l1 `prefix_of` l2 → filter P l1 `prefix_of` filter P l2.
Proof. intros [k ->]. rewrite filter_app. by apply prefix_app_r. Qed.

Lemma count_in_known stats v :
  is_Some (od_get v stats) → count_in stats v = Ok (count_of stats v).
Proof. intros [m Hm]. unfold count_in, count_of. by rewrite Hm. Qed.

Lemma od_get_bucket_append ch ch' vid by_channel :
  od_get ch' (bucket_append ch vid by_channel)
  = if decide (ch' = ch) then Some (default [] (od_get ch by_channel) ++ [vid])
    else od_get ch' by_channel.
Proof.
  unfold bucket_append. rewrite od_get_set. case_decide as Hch.
  - by rewrite setdefault_get.
  - rewrite od_get_setdefault. destruct (od_get ch' by_channel); [done|].
    by rewrite decide_False.
Qed.

(** The grouping loop, from any accumulator. *)
Lemma group_fold_get stats by_channel ch :
  od_get ch (foldl (λ by_channel '(vid, meta),
                      if bool_decide (min_comments ≤ commentCount meta)
                      then bucket_append (channelId meta) vid by_channel
                      else by_channel) by_channel stats)
  = match od_get ch by_channel, qualifying_of min_comments stats ch with
    | None, [] => None
    | b, q => Some (default [] b ++ q)
    end.
Proof.
  unfold qualifying_of. revert by_channel.
  induction stats as [|[vid meta] stats IH]; intros by_channel.
  - simpl. destruct (od_get ch by_channel); [by rewrite app_nil_r | done].
  - cbn [foldl]. rewrite IH. cbn [filter list_filter snd].
    destruct (decide (min_comments ≤ commentCount meta ∧ channelId meta = ch))
      as [[Hmin Hch]|Hno].
    + rewrite bool_decide_true by done.
      rewrite od_get_bucket_append, decide_True by done. rewrite fmap_cons, Hch.
      cbn [fst default]. destruct (od_get ch by_channel); simpl;
        by rewrite <-?(assoc_L (++)).
    + case_bool_decide as Hmin; [|done].
      rewrite od_get_bucket_append, decide_False; [done|]. intros ->. by apply Hno.
Qed.

Lemma group_by_channel_get stats ch :
  od_get ch (group_by_channel min_comments stats)
  = match qualifying_of min_comments stats ch with
    | [] => None
    | q => Some q
    end.
Proof.
  unfold group_by_channel. rewrite group_fold_get. simpl.
  by destruct (qualifying_of _ _ _).
Qed.

Lemma qualifying_of_known stats ch v :
  v ∈ qualifying_of min_comments stats ch → is_Some (od_get v stats).
Proof.
  unfold qualifying_of. intros ([v' m] & -> & [_ Hin]%list_elem_of_filter)%list_elem_of_fmap.
  destruct (od_get v' stats) eqn:Hget; [done|].
  apply od_get_None in Hget. exfalso. apply Hget, list_elem_of_fmap. by exists (v', m).
Qed.

Lemma od_get_fmap_values {V W} (g : V → W) (d : list (option string * V)) ch :
  od_get ch (prod_map id g <$> d) = g <$> od_get ch d.
Proof.
  induction d as [|[k x] d IH]; [done|]. rewrite fmap_cons.
  cbn [od_get prod_map fst snd]. unfold id at 1.
  destruct (decide (ch = k)); [done | apply IH].
Qed.

Lemma group_by_channel_known stats ch vids v :
  (ch, vids) ∈ group_by_channel min_comments stats → v ∈ vids →
  is_Some (od_get v stats).
Proof.
  intros Hin Hv.
  assert (NoDup (od_keys (group_by_channel min_comments stats))) as Hnd
    by apply group_by_channel_nonempty.
  apply (od_get_NoDup _ _ _ Hnd) in Hin. rewrite group_by_channel_get in Hin.
  destruct (qualifying_of min_comments stats ch) eqn:Hq; [done|]. simplify_eq.
  apply (qualifying_of_known stats ch). by rewrite Hq.
Qed.

Lemma top_5_pure stats :
  top_5 stats (group_by_channel min_comments stats)
  = Ok (prod_map id (λ vids, take 5 (sorted_desc (count_of stats) vids))
          <$> group_by_channel min_comments stats).
Proof.
  unfold top_5. apply traverse_pure. intros [ch vids] Hin.
  rewrite (sorted_descM_pure _ (count_of stats)); [done|].
  intros v Hv. apply count_in_known. by eapply group_by_channel_known.
Qed.

(** X4.  The first tier of the selector always completes (its lookups of
    comment counts cannot miss), and it leaves, for every channel, the
    bucket made of the five most-commented of the channel's videos that
    the relevance probe reports with at least [min_comments] comments,
    most-commented first and, among equals, in the order of the probe; a
    channel without such a video has no bucket.  Every bucket is therefore
    ordered by non-increasing comment count. *)
Theorem X4_first_tier_buckets :
  let stats := probe y keywords "relevance" in
  ∃ by_channel,
    first_tier y keywords min_comments = (stats, Ok by_channel)
    ∧ (∀ ch, od_get ch by_channel
             = match qualifying_of min_comments stats ch with
               | [] => None
               | q => Some (take 5 (sorted_desc (count_of stats) q))
               end)
    ∧ Forall (λ kv, descending (count_of stats) kv.2) by_channel
    ∧ (∀ ch vids k, od_get ch by_channel = Some vids →
         filter (λ v, count_of stats v = k) vids
         `prefix_of` filter (λ v, count_of stats v = k)
                            (qualifying_of min_comments stats ch)).
Proof.
  intros stats. eexists. unfold first_tier. fold (probe y keywords "relevance").
  fold stats. rewrite top_5_pure.
  assert (∀ ch, od_get ch (prod_map id (λ vids, take 5 (sorted_desc (count_of stats) vids))
                             <$> group_by_channel min_comments stats)
                = match qualifying_of min_comments stats ch with
                  | [] => None
                  | q => Some (take 5 (sorted_desc (count_of stats) q))
                  end) as Hget.
  { intros ch. rewrite od_get_fmap_values, group_by_channel_get.
    by destruct (qualifying_of _ _ _). }
  split_and!; [done|done| |].
  - apply Forall_fmap, Forall_forall. intros [ch vids] _. simpl.
    apply descending_take, sorted_desc_descending.
  - intros ch vids k Hvids. rewrite Hget in Hvids.
    destruct (qualifying_of min_comments stats ch) as [|v q] eqn:Hq; [done|].
    simplify_eq. rewrite <-(sorted_desc_stable_filter (count_of stats) k (v :: q)).
    apply prefix_filter, prefix_take.
Qed.
End first_tier.

(** ** When the escalation raises *)
Section escalation_errors.
Import Scraper.
Context (y : YouTube) (keywords : string) (min_comments : Z).
Implicit Types (by_channel : buckets) (stats : odict string Meta).

Lemma bind_Raise {A B} (m : result A) (f : A → result B) (e : exn) :
  m ≫= f = Raise e → m = Raise e ∨ ∃ a, m = Ok a ∧ f a = Raise e.
Proof. destruct m as [a|e']; [right; by exists a | left; by simplify_eq/=]. Qed.

Lemma foldlM_Raise {A B} (f : A → B → result A) (a : A) (l : list B) (e : exn) :
  foldlM f a l = Raise e → ∃ a' x, x ∈ l ∧ f a' x = Raise e.
Proof.
  revert a. induction l as [|x l IH]; intros a Hrun; [done|]. simpl in Hrun.
  apply bind_Raise in Hrun as [Hx|(a' & _ & Hrest)].
  - exists a, x. split; [left | done].
  - destruct (IH _ Hrest) as (a'' & x' & ? & ?). exists a'', x'. split; [by right | done].
Qed.

Lemma traverse_Raise {A B} (f : A → result B) (l : list A) (e : exn) :
  traverse f l = Raise e → ∃ x, x ∈ l ∧ f x = Raise e.
Proof.
  induction l as [|x l IH]; intros Hrun; [done|]. simpl in Hrun.
  apply bind_Raise in Hrun as [Hx|(b & _ & Hrest)].
  - exists x. split; [left | done].
  - apply bind_Raise in Hrest as [Hrest|(bs & _ & ?)]; [|done].
    destruct (IH Hrest) as (x' & ? & ?). exists x'. split; [by right | done].
Qed.

Lemma sorted_descM_Raise {A} (key : A → result Z) (l : list A) (e : exn) :
  sorted_descM key l = Raise e → ∃ x, x ∈ l ∧ key x = Raise e.
Proof.
  unfold sorted_descM. intros [Hrun|(ks & _ & ?)]%bind_Raise; [|done].
  apply traverse_Raise in Hrun as (x & Hx & Hkey). exists x. split; [done|].
  destruct (key x); by simplify_eq/=.
Qed.

Lemma sorted_descM_Ok_keys {A} (key : A → result Z) (l l' : list A) x :
  sorted_descM key l = Ok l' → x ∈ l → ∃ k, key x = Ok k.
Proof.
  unfold sorted_descM. intros Hrun Hx. inv_bind Hrun.
  apply traverse_Ok in Hrun0. apply list_elem_of_lookup in Hx as [i Hi].
  destruct (Forall2_lookup_l _ _ _ _ _ Hrun0 Hi) as (kx & _ & Hkx).
  destruct (key x) as [k|]; [by exists k | done].
Qed.

Lemma count_in2_Ok stats (stats2 : odict string Meta) v :
  (∃ k, count_in2 stats stats2 v = Ok k)
  ↔ is_Some (od_get v stats) ∨ is_Some (od_get v stats2).
Proof.
  unfold count_in2. destruct (od_get v stats), (od_get v stats2); split;
    intros H; eauto; try (destruct H as [? ?]; done); destruct H as [[? ?]|[? ?]]; done.
Qed.

Lemma count_in2_Raise stats (stats2 : odict string Meta) v e :
  count_in2 stats stats2 v = Raise e →
  e = TypeError ∧ od_get v stats = None ∧ od_get v stats2 = None.
Proof.
  unfold count_in2. destruct (od_get v stats), (od_get v stats2); intros ?; by simplify_eq.
Qed.

Lemma buckets_known_get stats (stats2 : odict string Meta) by_channel ch v :
  buckets_known stats stats2 by_channel → v ∈ default [] (od_get ch by_channel) →
  is_Some (od_get v stats) ∨ is_Some (od_get v stats2).
Proof.
  intros Hknown Hv. destruct (od_get ch by_channel) as [vids|] eqn:Hget; simpl in Hv.
  - apply od_get_elem_of in Hget.
    pose proof (proj1 (Forall_forall _ _) Hknown _ Hget) as Hvids. simpl in Hvids.
    by apply (proj1 (Forall_forall _ _) Hvids).
  - by apply elem_of_nil in Hv.
Qed.

Lemma merge_candidate_known stats (stats2 : odict string Meta) by_channel vid meta :
  (vid, meta) ∈ stats2 → buckets_known stats stats2 by_channel →
  ∃ by_channel',
    merge_candidate min_comments stats stats2 by_channel (vid, meta) = Ok by_channel'
    ∧ buckets_known stats stats2 by_channel'.
Proof.
  intros Hin Hknown. unfold merge_candidate.
  case_bool_decide; [|by eexists].
  assert (buckets_known stats stats2 (od_setdefault (channelId meta) [] by_channel))
    as Hknown1 by (apply Forall_od_setdefault; [done | constructor]).
  case_bool_decide; [by eexists|].
  assert (∀ v, v ∈ default [] (od_get (channelId meta)
                                 (od_setdefault (channelId meta) [] by_channel)) ++ [vid] →
               is_Some (od_get v stats) ∨ is_Some (od_get v stats2)) as Hkeys.
  { intros v [Hv| ->%list_elem_of_singleton]%elem_of_app.
    - by eapply buckets_known_get.
    - right. destruct (od_get vid stats2) eqn:Hget; [done|].
      apply od_get_None in Hget. exfalso. apply Hget, list_elem_of_fmap.
      by exists (vid, meta). }
  destruct (sorted_descM_total (count_in2 stats stats2) _
              (λ v Hv, proj2 (count_in2_Ok stats stats2 v) (Hkeys v Hv)))
    as [sorted Hsorted].
  rewrite Hsorted. simpl. eexists. split; [done|].
  apply Forall_od_set; [done|]. simpl. apply Forall_forall.
  intros v Hv%subseteq_take. apply Hkeys. by rewrite <-(sorted_descM_perm _ _ _ Hsorted).
Qed.

Lemma merge_fold_known stats (stats2 : odict string Meta) (l : list (string * Meta)) by_channel :
  l ⊆ stats2 → buckets_known stats stats2 by_channel →
  ∃ by_channel',
    foldlM (merge_candidate min_comments stats stats2) by_channel l = Ok by_channel'
    ∧ buckets_known stats stats2 by_channel'.
Proof.
  revert by_channel. induction l as [|[vid meta] l IH]; intros by_channel Hl Hknown.
  - by eexists.
  - destruct (merge_candidate_known stats stats2 by_channel vid meta)
      as (b1 & Hb1 & Hknown1); [apply Hl; left | done |].
    destruct (IH b1) as (b2 & Hb2 & Hknown2); [|done|].
    { intros e He. apply Hl. by right. }
    exists b2. cbn [foldlM]. rewrite Hb1. done.
Qed.

Lemma first_tier_known :
  ∃ by_channel,
    first_tier y keywords min_comments = (probe y keywords "relevance", Ok by_channel)
    ∧ ∀ stats2, buckets_known (probe y keywords "relevance") stats2 by_channel.
Proof.
  eexists. unfold first_tier. fold (probe y keywords "relevance").
  rewrite top_5_pure. split; [done|]. intros stats2.
  apply Forall_fmap, Forall_forall. intros [ch vids] Hin. simpl.
  apply Forall_forall. intros v Hv%subseteq_take. rewrite sorted_desc_perm in Hv.
  left. by eapply group_by_channel_known.
Qed.

(** X5.  An escalation tier completes whenever every video already held
    in a bucket is known to the first tier's statistics or to the
    statistics of this tier, and the buckets it leaves are again made of
    such videos.  The first escalation tier (most viewed) therefore always
    completes: a [TypeError] can arise in the second or third tier only. *)
Theorem X5_merge_tier_completes stats ordv by_channel :
  buckets_known stats (probe y keywords ordv) by_channel →
  (∃ by_channel',
     merge_tier y keywords min_comments stats ordv by_channel = Ok by_channel'
     ∧ buckets_known stats (probe y keywords ordv) by_channel')
  ∧ ∃ first second,
      first_tier y keywords min_comments = (probe y keywords "relevance", Ok first)
      ∧ merge_tier y keywords min_comments (probe y keywords "relevance")
          "viewCount" first = Ok second.
Proof.
  intros Hknown. split.
  - unfold merge_tier. by apply merge_fold_known.
  - destruct first_tier_known as (first & Hfirst & Hknown1).
    destruct (merge_fold_known (probe y keywords "relevance")
                (probe y keywords "viewCount") (probe y keywords "viewCount") first)
      as (second & Hsecond & _); [done|apply Hknown1|].
    by exists first, second.
Qed.

Lemma merge_tier_Raise stats ordv by_channel e :
  merge_tier y keywords min_comments stats ordv by_channel = Raise e → e = TypeError.
Proof.
  unfold merge_tier. intros (b & [vid meta] & _ & Hstep)%foldlM_Raise.
  unfold merge_candidate in Hstep. case_bool_decide; [|done].
  case_bool_decide; [done|].
  apply bind_Raise in Hstep as [Hsort|(? & _ & ?)]; [|done].
  apply sorted_descM_Raise in Hsort as (v & _ & Hv).
  by apply count_in2_Raise in Hv as [-> _].
Qed.

Lemma escalate_Raise stats vs by_channel e :
  escalate y keywords min_comments stats vs by_channel = Raise e → e = TypeError.
Proof.
  revert by_channel. induction vs as [|ordv vs IH]; intros by_channel Hrun; [done|].
  simpl in Hrun. apply bind_Raise in Hrun as [Hrun|(b & _ & Hrun)].
  - by eapply merge_tier_Raise.
  - case_bool_decide; [done | eauto].
Qed.

Lemma pick_Raise e :
  pick_5_channels_5_videos y keywords min_comments = Raise e → e = TypeError.
Proof.
  intros Hrun. unfold pick_5_channels_5_videos in Hrun.
  destruct first_tier_known as (first & Hfirst & _). rewrite Hfirst in Hrun.
  cbn -[escalate selected_of] in Hrun.
  case_bool_decide; [done|]. by eapply escalate_Raise.
Qed.

(** X6.  The only exception the selector raises is [TypeError], and the
    only other way [main]'s selection fails is the exit with code 2.
    Merging one candidate raises exactly when the candidate qualifies, is
    not yet in its channel's bucket, and some video of that bucket is
    known neither to the first tier's statistics nor to the current
    tier's. *)
Theorem X6_selector_raises_only_TypeError :
  (∀ e, pick_5_channels_5_videos y keywords min_comments = Raise e → e = TypeError)
  ∧ (∀ channels videos_per_channel e,
       main_selection y keywords min_comments channels videos_per_channel = Raise e →
       e = TypeError ∨ e = SystemExit 2)
  ∧ (∀ stats (stats2 : odict string Meta) by_channel vid meta e,
       (merge_candidate min_comments stats stats2 by_channel (vid, meta) = Raise e)
       ↔ (e = TypeError ∧ min_comments ≤ commentCount meta
          ∧ (vid ∉ default [] (od_get (channelId meta) by_channel))
          ∧ ∃ v, v ∈ default [] (od_get (channelId meta) by_channel) ++ [vid]
                 ∧ od_get v stats = None ∧ od_get v stats2 = None)).
Proof.
  split_and!; [apply pick_Raise| |].
  - intros channels videos_per_channel e Hrun. unfold main_selection in Hrun.
    apply bind_Raise in Hrun as [Hrun|(sel & _ & Hrun)];
      [left; by eapply pick_Raise|].
    case_bool_decide; [|done]. right. by simplify_eq.
  - intros stats stats2 by_channel vid meta e. unfold merge_candidate.
    rewrite setdefault_get. simpl.
    set (bucket := default [] (od_get (channelId meta) by_channel)).
    split.
    + intros Hrun. case_bool_decide; [|done]. case_bool_decide; [done|].
      apply bind_Raise in Hrun as [Hsort|(? & _ & ?)]; [|done].
      apply sorted_descM_Raise in Hsort as (v & Hv & Hkey).
      apply count_in2_Raise in Hkey as (-> & ? & ?). split_and!; try done.
      by exists v.
    + intros (-> & Hmin & Hnot & v & Hv & Hs & Hs2).
      rewrite bool_decide_true by done. rewrite bool_decide_false by done.
      destruct (sorted_descM (count_in2 stats stats2) (bucket ++ [vid]))
        as [sorted|e] eqn:Hsort.
      * destruct (sorted_descM_Ok_keys _ _ _ v Hsort Hv) as [k Hk].
        unfold count_in2 in Hk. by rewrite Hs, Hs2 in Hk.
      * simpl. apply sorted_descM_Raise in Hsort as (v' & _ & Hkey).
        by apply count_in2_Raise in Hkey as [-> _].
Qed.
End escalation_errors.

(** ** The empty plan *)
Section empty_plan.
Import Scraper.
Context (y : YouTube) (keywords : string) (min_comments : Z).
Implicit Types (by_channel : buckets) (stats : odict string Meta).

Lemma od_set_not_nil {V} (k : option string) (v : V) (d : list _) : od_set k v d ≠ [].
Proof. destruct d as [|[k' v'] d]; simpl; [done|]. by case_decide. Qed.

Lemma od_setdefault_not_nil {V} (k : option string) (v : V) (d : list _) :
  od_setdefault k v d ≠ [].
Proof.
  unfold od_setdefault. destruct (od_get k d) eqn:Hget.
  - by destruct d.
  - by destruct d.
Qed.

Lemma group_fold_nil stats by_channel :
  Forall (λ vm : string * Meta, commentCount vm.2 < min_comments) stats →
  foldl (λ by_channel '(vid, meta),
           if bool_decide (min_comments ≤ commentCount meta)
           then bucket_append (channelId meta) vid by_channel
           else by_channel) by_channel stats = by_channel.
Proof.
  revert by_channel. induction stats as [|[vid meta] stats IH]; intros by_channel Hno;
    [done|].
  apply Forall_cons in Hno as [Hlt Hno]. cbn [foldl]. simpl in Hlt.
  rewrite bool_decide_false by lia. by apply IH.
Qed.

Lemma group_fold_not_nil stats by_channel :
  by_channel ≠ [] ∨ Exists (λ vm : string * Meta, min_comments ≤ commentCount vm.2) stats →
  foldl (λ by_channel '(vid, meta),
           if bool_decide (min_comments ≤ commentCount meta)
           then bucket_append (channelId meta) vid by_channel
           else by_channel) by_channel stats ≠ [].
Proof.
  revert by_channel. induction stats as [|[vid meta] stats IH]; intros by_channel Hsome.
  - destruct Hsome as [?|Hex]; [done | by apply Exists_nil in Hex].
  - cbn [foldl]. apply IH. case_bool_decide as Hmin.
    + left. apply od_set_not_nil.
    + destruct Hsome as [?|Hex]; [by left|]. right.
      apply Exists_cons in Hex as [?|?]; [done | done].
Qed.

Lemma merge_fold_nil stats (stats2 l : list (string * Meta)) by_channel :
  Forall (λ vm : string * Meta, commentCount vm.2 < min_comments) l →
  foldlM (merge_candidate min_comments stats stats2) by_channel l = Ok by_channel.
Proof.
  revert by_channel. induction l as [|[vid meta] l IH]; intros by_channel Hno; [done|].
  apply Forall_cons in Hno as [Hlt Hno]. cbn [foldlM merge_candidate]. simpl in Hlt.
  rewrite bool_decide_false by lia. simpl. by apply IH.
Qed.

Lemma merge_candidate_not_nil stats (stats2 : odict string Meta) by_channel entry
    by_channel' :
  merge_candidate min_comments stats stats2 by_channel entry = Ok by_channel' →
  by_channel ≠ [] ∨ min_comments ≤ commentCount entry.2 → by_channel' ≠ [].
Proof.
  destruct entry as [vid meta]. unfold merge_candidate. simpl. intros Hrun Hsome.
  case_bool_decide as Hmin.
  - case_bool_decide.
    + simplify_eq. apply od_setdefault_not_nil.
    + inv_bind Hrun. simplify_eq. apply od_set_not_nil.
  - simplify_eq. by destruct Hsome.
Qed.

Lemma merge_fold_not_nil stats (stats2 l : list (string * Meta)) by_channel by_channel' :
  foldlM (merge_candidate min_comments stats stats2) by_channel l = Ok by_channel' →
  by_channel ≠ [] ∨ Exists (λ vm : string * Meta, min_comments ≤ commentCount vm.2) l →
  by_channel' ≠ [].
Proof.
  revert by_channel. induction l as [|entry l IH]; intros by_channel Hrun Hsome.
  - simpl in Hrun. simplify_eq. destruct Hsome as [?|Hex]; [done | by apply Exists_nil in Hex].
  - simpl in Hrun. inv_bind Hrun. apply (IH _ Hrun).
    destruct Hsome as [?|[?|?]%Exists_cons].
    + left. eapply merge_candidate_not_nil; [done | by left].
    + left. eapply merge_candidate_not_nil; [done | by right].
    + by right.
Qed.

Lemma fallback_not_nil by_channel : by_channel ≠ [] → fallback by_channel ≠ [].
Proof.
  intros Hne Hnil. apply (f_equal length) in Hnil. unfold fallback in Hnil.
  rewrite length_take, sorted_desc_perm in Hnil. destruct by_channel; [done|].
  cbn [length] in Hnil. lia.
Qed.

Lemma selected_not_nil by_channel :
  (5 ≤ length (selected_of by_channel))%nat → take 5 (selected_of by_channel) ≠ [].
Proof.
  intros Hlen Hnil. apply (f_equal length) in Hnil. rewrite length_take in Hnil.
  cbn [length] in Hnil. lia.
Qed.

Lemma probe_Exists order v m :
  (v, m) ∈ probe y keywords order → min_comments ≤ commentCount m →
  Exists (λ vm : string * Meta, min_comments ≤ commentCount vm.2) (probe y keywords order).
Proof. intros Hin Hmin. apply Exists_exists. by exists (v, m). Qed.

Lemma escalate_not_nil stats vs by_channel plan :
  escalate y keywords min_comments stats vs by_channel = Ok plan →
  by_channel ≠ []
  ∨ (∃ order v m, order ∈ vs ∧ (v, m) ∈ probe y keywords order
                  ∧ min_comments ≤ commentCount m) →
  plan ≠ [].
Proof.
  revert by_channel. induction vs as [|ordv vs IH]; intros by_channel Hrun Hsome.
  - simpl in Hrun. simplify_eq. apply fallback_not_nil.
    destruct Hsome as [?|(? & ? & ? & []%elem_of_nil & _)]. done.
  - simpl in Hrun. inv_bind Hrun. case_bool_decide.
    { simplify_eq. by apply selected_not_nil. }
    apply (IH _ Hrun). unfold merge_tier in Hrun0.
    destruct Hsome as [?|(order & v & m & [->|Hin]%elem_of_cons & Hvm & Hmin)].
    + left. eapply merge_fold_not_nil; [done | by left].
    + left. eapply merge_fold_not_nil; [done|]. right. by eapply probe_Exists.
    + right. by exists order, v, m.
Qed.

Lemma no_qualifying_Forall order :
  no_qualifying y keywords min_comments → order ∈ orders →
  Forall (λ vm : string * Meta, commentCount vm.2 < min_comments) (probe y keywords order).
Proof.
  intros Hno Ho. apply Forall_forall. intros [v m] Hin. simpl. by eapply Hno.
Qed.

Lemma escalate_nil stats vs :
  no_qualifying y keywords min_comments → vs ⊆ orders →
  escalate y keywords min_comments stats vs [] = Ok [].
Proof.
  intros Hno. induction vs as [|ordv vs IH]; intros Hvs; [done|].
  cbn [escalate]. unfold merge_tier. fold (probe y keywords ordv).
  rewrite merge_fold_nil; [|apply no_qualifying_Forall; [done | apply Hvs; left]].
  simpl. apply IH. intros o Ho. apply Hvs. by right.
Qed.

(** X7.  The selector returns the empty plan exactly when none of the
    four probes of the run reports a video with at least [min_comments]
    comments, and in that case it does return (it cannot raise); hence
    [main] exits with code 2 exactly in that case, and with no other
    code. *)
Theorem X7_exit_2_iff_nothing_qualifies :
  (pick_5_channels_5_videos y keywords min_comments = Ok []
   ↔ no_qualifying y keywords min_comments)
  ∧ (∀ channels videos_per_channel code,
       main_selection y keywords min_comments channels videos_per_channel
       = Raise (SystemExit code)
       ↔ (code = 2 ∧ no_qualifying y keywords min_comments)).
Proof.
  assert (no_qualifying y keywords min_comments →
          pick_5_channels_5_videos y keywords min_comments = Ok []) as Hnil.
  { intros Hno. unfold pick_5_channels_5_videos, first_tier.
    fold (probe y keywords "relevance"). unfold group_by_channel.
    rewrite group_fold_nil by (apply no_qualifying_Forall; [done | left]).
    cbn -[escalate]. apply escalate_nil; [done|]. intros o Ho. by right. }
  assert (pick_5_channels_5_videos y keywords min_comments = Ok [] →
          no_qualifying y keywords min_comments) as Hsome.
  { intros Hrun order v m Ho Hin.
    destruct (decide (min_comments ≤ commentCount m)) as [Hmin|]; [exfalso | lia].
    revert Hrun. unfold pick_5_channels_5_videos, first_tier.
    fold (probe y keywords "relevance"). rewrite top_5_pure. cbn -[escalate selected_of].
    set (first := prod_map id _ <$> _).
    assert (first ≠ [] ∨ ∃ order v m, order ∈ variants ∧ (v, m) ∈ probe y keywords order
                                      ∧ min_comments ≤ commentCount m) as Hcase.
    { apply elem_of_cons in Ho as [->|Ho]; [left | right; by exists order, v, m].
      unfold first. intros Hfirst%fmap_nil_inv. revert Hfirst.
      apply group_fold_not_nil. right. by eapply probe_Exists. }
    case_bool_decide.
    - intros ?. simplify_eq. by eapply selected_not_nil.
    - intros Hrun. by eapply escalate_not_nil. }
  split; [by split|].
  intros channels videos_per_channel code. unfold main_selection. split.
  - intros [Hrun|(sel & Hsel & Hrun)]%bind_Raise.
    + by apply pick_Raise in Hrun.
    + case_bool_decide as Hlen; [|done]. simplify_eq. split; [done|].
      apply Hsome. by destruct sel.
  - intros [-> Hno]. by rewrite (Hnil Hno).
Qed.
End empty_plan.

(** ** More on the comment collector *)
Section collector_more.
Context (y : YouTube) (vid : string) (target : Z).
Implicit Types (rows : list Row) (threads items : list Thread).

Lemma threads_size_take_le (j : nat) threads :
  threads_size (take j threads) ≤ threads_size threads.
Proof.
  rewrite <-(take_drop j threads) at 2. rewrite threads_size_app.
  pose proof (threads_size_nonneg (drop j threads)). lia.
Qed.

(** The inner loop again, with what holds before each thread it consumes. *)
Lemma collect_items_prefix items rows fetched :
  ∃ k : nat,
    collect_items vid target items rows fetched
    = (rows ++ rows_of vid (take k items), fetched + threads_size (take k items))
    ∧ (fetched + threads_size (take k items) < target → take k items = items)
    ∧ (fetched < target →
       ∀ j : nat, (j < length (take k items))%nat →
                  fetched + threads_size (take j items) < target).
Proof.
  revert rows fetched. induction items as [|item items IH]; intros rows fetched.
  - exists 0%nat. simpl. unfold rows_of. simpl. rewrite app_nil_r, Z.add_0_r.
    split_and!; [done|done|]. intros _ j Hj. lia.
  - cbn [collect_items]. case_bool_decide as Hstop.
    + exists 1%nat. cbn [take]. rewrite take_0, rows_of_cons.
      unfold rows_of at 1. cbn [threads_size foldr mbind list_bind].
      rewrite app_nil_r. unfold thread_size in *.
      split_and!; [f_equal; lia | lia |].
      intros Hlt j Hj. cbn [length] in Hj. replace j with 0%nat by lia.
      rewrite take_0. simpl. lia.
    + destruct (IH (rows ++ thread_rows vid item)
                   (fetched + 1 + Z.of_nat (length (th_replies item))))
        as (k & -> & Hall & Hpre).
      exists (S k). cbn [take]. rewrite rows_of_cons, <-(assoc_L (++)).
      cbn [threads_size foldr]. fold (threads_size (take k items)).
      unfold thread_size in *.
      split_and!; [f_equal; lia | |].
      * intros Hlt. f_equal. apply Hall. lia.
      * intros Hlt j Hj. destruct j as [|j]; [rewrite take_0; simpl; lia|].
        cbn [take threads_size foldr]. fold (threads_size (take j items)).
        cbn [length] in Hj. specialize (Hpre ltac:(lia) j ltac:(lia)).
        unfold thread_size. lia.
Qed.

Lemma collect_pages_overshoot (fuel : nat) rows token fetched trace rows' trace' :
  collect_pages fuel y vid target rows token fetched trace = Ok (rows', trace') →
  fetched < target →
  ∃ threads,
    rows' = rows ++ rows_of vid threads
    ∧ ∀ j : nat, (j < length threads)%nat →
                 fetched + threads_size (take j threads) < target.
Proof.
  revert rows token fetched trace.
  induction fuel as [|fuel IH]; intros rows token fetched trace Hrun Hlt; [done|].
  cbn [collect_pages] in Hrun.
  set (resp := commentThreads_list y vid (if truthy token then token else None)) in *.
  destruct (collect_items_prefix (tr_items resp) rows fetched) as (k & Hk & Hall & Hpre).
  rewrite Hk in Hrun.
  assert (∃ threads, rows ++ rows_of vid (take k (tr_items resp)) = rows ++ rows_of vid threads
                     ∧ ∀ j : nat, (j < length threads)%nat →
                                  fetched + threads_size (take j threads) < target) as Hhere.
  { exists (take k (tr_items resp)). split; [done|]. intros j Hj.
    rewrite take_take. replace (j `min` k)%nat with j; [by apply Hpre|].
    rewrite length_take in Hj. lia. }
  case_bool_decide as Hstop; [by simplify_eq|].
  destruct (truthy (tr_nextPageToken resp)); [|by simplify_eq].
  assert (take k (tr_items resp) = tr_items resp) as Htake by (apply Hall; lia).
  rewrite Htake in Hrun, Hstop.
  destruct (IH _ _ _ _ Hrun ltac:(lia)) as (threads & -> & Hrest).
  exists (tr_items resp ++ threads). split.
  - unfold rows_of. by rewrite bind_app, (assoc_L (++)).
  - intros j Hj. rewrite take_app, threads_size_app.
    destruct (decide (j ≤ length (tr_items resp))%nat) as [Hle|Hgt].
    + replace (j - length (tr_items resp))%nat with 0%nat by lia. rewrite take_0.
      pose proof (threads_size_take_le j (tr_items resp)). simpl. lia.
    + rewrite take_ge by lia. rewrite length_app in Hj.
      specialize (Hrest (j - length (tr_items resp))%nat ltac:(lia)). lia.
Qed.

(** X8.  For a positive target the collector overshoots by less than one
    thread: the rows it returns are those of a run of threads, and the
    rows of any shorter run of these threads number fewer than the target;
    in particular the rows without those of the last thread do. *)
Theorem X8_collector_overshoot (fuel : nat) rows trace :
  0 < target →
  Scraper.fetch_comments_for_video fuel y vid target = Ok (rows, trace) →
  ∃ threads,
    rows = rows_of vid threads
    ∧ Z.of_nat (length rows) = threads_size threads
    ∧ (∀ j : nat, (j < length threads)%nat → threads_size (take j threads) < target)
    ∧ (∀ threads' t, threads = threads' ++ [t] →
         Z.of_nat (length rows) < target + thread_size t).
Proof.
  intros Hpos Hrun.
  destruct (collect_pages_overshoot _ _ _ _ _ _ _ Hrun Hpos) as (threads & -> & Hpre).
  rewrite app_nil_l. exists threads. rewrite rows_of_length.
  split_and!; [done|done| |].
  - intros j Hj. specialize (Hpre j Hj). lia.
  - intros threads' t ->. specialize (Hpre (length threads')).
    rewrite length_app, take_app_length, threads_size_app in *. simpl in *.
    specialize (Hpre ltac:(lia)). lia.
Qed.

(** X9.  The collector has no page limit of its own: on a source whose
    every response is empty and carries a usable continuation token it
    requests pages for as long as it is allowed to, whatever the positive
    target. *)
Theorem X9_collector_follows_endless_cursor (fuel : nat) :
  0 < target →
  (∀ token, tr_items (commentThreads_list y vid token) = []
            ∧ truthy (tr_nextPageToken (commentThreads_list y vid token)) = true) →
  Scraper.fetch_comments_for_video fuel y vid target = Raise OutOfFuel.
Proof.
  intros Hpos Hsource. unfold Scraper.fetch_comments_for_video.
  generalize (@nil (option string)). generalize (@None string).
  induction fuel as [|fuel IH]; intros token trace; [done|].
  cbn [collect_pages].
  destruct (Hsource (if truthy token then token else None)) as [-> ->].
  cbn [collect_items]. rewrite bool_decide_false by lia. apply IH.
Qed.

Lemma rows_of_elem r threads :
  r ∈ rows_of vid threads →
  ∃ t, t ∈ threads
       ∧ (r = comment_row vid None false (th_top t)
          ∨ ∃ c, c ∈ th_replies t ∧ r = comment_row vid (Some (cm_id (th_top t))) true c).
Proof.
  unfold rows_of. intros (t & Hr & Ht)%list_elem_of_bind. exists t. split; [done|].
  unfold thread_rows in Hr. apply elem_of_cons in Hr as [->|Hr]; [by left|].
  right. apply list_elem_of_fmap in Hr as (c & -> & Hc). by exists c.
Qed.

(** X10.  Every row the collector returns carries the id of the requested
    video, a permalink built from that id and the row's own comment id, no
    video title and no uploader channel yet; a missing text or like count
    of the source comment shows as the empty string or 0. *)
Theorem X10_collected_row_fields (fuel : nat) rows trace r :
  Scraper.fetch_comments_for_video fuel y vid target = Ok (rows, trace) →
  r ∈ rows →
  video_id r = Some vid
  ∧ link r = "https://www.youtube.com/watch?v=" +:+ vid +:+ "&lc=" +:+ comment_id r
  ∧ video_title r = None
  ∧ video_uploader_channel_id r = None ∧ video_uploader_channel_title r = None
  ∧ author r = channel_title r
  ∧ ∃ c, c ∈ (requested_threads y vid trace ≫= λ t, th_top t :: th_replies t)
         ∧ comment_id r = cm_id c
         ∧ title r = default "" (cm_textDisplay c)
         ∧ text r = default "" (cm_textOriginal c)
         ∧ like_count r = default 0 (cm_likeCount c).
Proof.
  intros Hrun Hr.
  destruct (collect_pages_rows _ _ _ _ _ _ _ _ _ _ Hrun) as (threads & tokens & -> & -> & Hpre).
  rewrite app_nil_l in *. apply rows_of_elem in Hr as (t & Ht & Hr).
  assert (t ∈ requested_threads y vid tokens) as Hreq.
  { destruct Hpre as [rest ->]. apply elem_of_app. by left. }
  destruct Hr as [->|(c & Hc & ->)]; (split_and!; [done..|]).
  - exists (th_top t). split; [|done]. apply list_elem_of_bind. exists t.
    split; [left | done].
  - exists c. split; [|done]. apply list_elem_of_bind. exists t.
    split; [by right | done].
Qed.
End collector_more.

(** ** The whole run of [youtube_scraper.py] *)
Section scraper_main.
Context (fuel : nat) (y : YouTube) (keywords : string).
Context (min_comments channels videos_per_channel target : Z).

Lemma collect_selected_spec (vids : list string) (acc rows : list Row) :
  foldlM (λ all_rows vid,
            '(rows, _) ← Scraper.fetch_comments_for_video fuel y vid target;
            Ok (all_rows ++ rows)) acc vids = Ok rows →
  ∃ per_video,
    Forall2 (λ vid rs, ∃ trace,
               Scraper.fetch_comments_for_video fuel y vid target = Ok (rs, trace))
            vids per_video
    ∧ rows = acc ++ concat per_video.
Proof.
  revert acc. induction vids as [|vid vids IH]; intros acc Hrun.
  - exists []. simpl in *. simplify_eq. by rewrite app_nil_r.
  - cbn [foldlM] in Hrun. inv_bind Hrun.
    destruct (Scraper.fetch_comments_for_video fuel y vid target) as [[rs trace]|e] eqn:Hvid;
      [|done].
    simpl in Hrun0. simplify_eq.
    destruct (IH _ Hrun) as (per_video & Hall & ->).
    exists (rs :: per_video). split; [constructor; [by exists trace | done]|].
    simpl. by rewrite (assoc_L (++)).
Qed.

Lemma fill_title_video_id meta r : video_id (Scraper.fill_title meta r) = video_id r.
Proof. unfold Scraper.fill_title. by destruct (video_id r ≫= (meta !!.)). Qed.

(** X11.  A run of [main] that completes returns the rows of the videos
    of the plan, one uninterrupted group per video, in the order of the
    plan: the rows of a group are what the collector returned for that
    video, with the title filled in afterwards.  Every row therefore
    belongs to a video that some probe reported with at least
    [min_comments] comments. *)
Theorem X11_main_rows_follow_plan (rows : list Row) :
  ScraperMain.main fuel y keywords min_comments channels videos_per_channel target
  = Ok rows →
  ∃ plan per_video,
    Scraper.main_selection y keywords min_comments channels videos_per_channel = Ok plan
    ∧ Forall2 (λ vid rs, ∃ trace,
                 Scraper.fetch_comments_for_video fuel y vid target = Ok (rs, trace))
              (plan ≫= snd) per_video
    ∧ rows = Scraper.fill_video_titles y (concat per_video)
    ∧ video_id <$> rows
      = concat (zip_with (λ vid rs, replicate (length rs) (Some vid))
                         (plan ≫= snd) per_video)
    ∧ Forall (λ r, ∃ ch v, video_id r = Some v
                           ∧ Scraper.probed_ok y keywords min_comments ch v) rows.
Proof.
  unfold ScraperMain.main, ScraperMain.collect_selected. intros Hrun.
  inv_bind Hrun. rename a into plan. inv_bind Hrun.
  apply collect_selected_spec in Hrun1 as (per_video & Hall & ->).
  rewrite app_nil_l in Hrun. simplify_eq.
  exists plan, per_video. split_and!; [done|done|done| |].
  - unfold Scraper.fill_video_titles. rewrite <-list_fmap_compose.
    rewrite (list_fmap_ext _ video_id (concat per_video))
      by (intros; apply fill_title_video_id).
    clear Hrun0. induction Hall as [|vid rs vids per_video (trace & Hvid) _ IH]; [done|].
    cbn [zip_with concat]. rewrite fmap_app, IH. f_equal.
    apply (collected_rows_video y fuel) in Hvid.
    clear -Hvid. induction Hvid as [|r rs Hr _ IH]; [done|].
    rewrite fmap_cons. cbn [length replicate]. by rewrite Hr, IH.
  - unfold Scraper.fill_video_titles. apply Forall_fmap, Forall_forall.
    intros r Hr. simpl. rewrite fill_title_video_id.
    assert (∃ vid, vid ∈ plan ≫= snd ∧ video_id r = Some vid) as (vid & Hvid & Hfetch).
    { clear Hrun0. induction Hall as [|vid rs vids per_video (trace & Hvid) _ IH];
        [by apply elem_of_nil in Hr|].
      cbn [concat] in Hr. apply elem_of_app in Hr as [Hr|Hr].
      - apply (collected_rows_video y fuel) in Hvid. rewrite Forall_forall in Hvid.
        exists vid. split; [left | by apply Hvid].
      - destruct (IH Hr) as (vid' & ? & ?). exists vid'. split; [by right | done]. }
    apply list_elem_of_bind in Hvid as ([ch vids] & Hv & Hplan).
    simpl in Hv. exists ch, vid. split; [done|].
    destruct (main_selection_entry _ _ _ _ _ _ _ _ Hrun0 Hplan)
      as (sel & vids0 & Hsel & Hin0 & ->).
    apply (pick_ok _ _ _ _ Hsel ch vids0 vid); [by eapply py_take_subseteq|].
    case_bool_decide; [by eapply py_take_subseteq | done].
Qed.
End scraper_main.

(** ** More on the backfill *)
Section backfill_more.
Context (y : YouTube).
Implicit Types (rows : list Row).

Lemma covered_ids_video_id (f : Row → Row) rows :
  (∀ r, video_id (f r) = video_id r) →
  Scraper.covered_ids (f <$> rows) = Scraper.covered_ids rows.
Proof.
  intros Hf. unfold Scraper.covered_ids. do 2 f_equal.
  induction rows as [|r rows IH]; [done|].
  csimpl. by rewrite Hf, IH.
Qed.

Lemma fill_title_idemp meta r :
  Scraper.fill_title meta (Scraper.fill_title meta r) = Scraper.fill_title meta r.
Proof.
  unfold Scraper.fill_title.
  destruct (video_id r ≫= (meta !!.)) as [t|] eqn:Hv; [|by rewrite Hv].
  cbn [video_id]. by rewrite Hv.
Qed.

Lemma fill_meta_idemp meta r :
  Topup.fill_meta meta (Topup.fill_meta meta r) = Topup.fill_meta meta r.
Proof.
  unfold Topup.fill_meta.
  destruct (video_id r ≫= (λ v, od_get v meta)) as [m|] eqn:Hv; [|by rewrite Hv].
  cbn [video_id Topup.set_video_meta]. by rewrite Hv.
Qed.

(** X12.  The backfill passes are idempotent: against the same API
    answers a second pass of [fill_video_titles], or of
    [fill_video_meta], requests the same video ids and leaves every row
    as the first pass left it. *)
Theorem X12_backfill_idempotent rows :
  Scraper.covered_ids (Scraper.fill_video_titles y rows) = Scraper.covered_ids rows
  ∧ Scraper.fill_video_titles y (Scraper.fill_video_titles y rows)
    = Scraper.fill_video_titles y rows
  ∧ Topup.covered_ids (Topup.fill_video_meta y rows) = Topup.covered_ids rows
  ∧ Topup.fill_video_meta y (Topup.fill_video_meta y rows)
    = Topup.fill_video_meta y rows.
Proof.
  assert (Scraper.covered_ids (Scraper.fill_video_titles y rows)
          = Scraper.covered_ids rows) as Hs
    by apply covered_ids_video_id, fill_title_video_id.
  assert (Topup.covered_ids (Topup.fill_video_meta y rows) = Topup.covered_ids rows) as Ht
    by apply covered_ids_video_id, fill_meta_video_id.
  split_and!; [done| |done|].
  - unfold Scraper.fill_video_titles in *. rewrite Hs, <-list_fmap_compose.
    apply list_fmap_ext. intros _ r _. apply fill_title_idemp.
  - unfold Topup.fill_video_meta in *. rewrite Ht, <-list_fmap_compose.
    apply list_fmap_ext. intros _ r _. apply fill_meta_idemp.
Qed.

Lemma title_map_responses (vids : list string) :
  Scraper.title_map y vids
  = foldl (λ meta it, <[vi_id it := vi_title it]> meta) ∅ (responses y "snippet" vids).
Proof.
  unfold Scraper.title_map, responses, chunks.
  by rewrite foldl_bind, foldl_fmap.
Qed.

Lemma foldl_insert_lookup (items : list VideoItem) (m : gmap string (option string)) v :
  foldl (λ meta it, <[vi_id it := vi_title it]> meta) m items !! v
  = match last_item v items with
    | Some it => Some (vi_title it)
    | None => m !! v
    end.
Proof.
  revert m. induction items as [|it items IH]; intros m; [done|].
  cbn [foldl]. rewrite IH, last_item_cons.
  destruct (last_item v items); [done|].
  case_decide as Hv; [by rewrite <-Hv, lookup_insert_eq | by rewrite lookup_insert_ne].
Qed.

(** X13.  The backfill asks for the titles of the video ids that occur in
    the rows: each such id once, in ascending order, without null and
    empty ids.  The title it keeps for a video is that of the last
    response item with the video's id; a video that no response item
    mentions keeps no entry, so its rows stay as they are. *)
Theorem X13_backfill_lookup rows v :
  let vids := Scraper.covered_ids rows in
  StronglySorted String.le vids ∧ NoDup vids
  ∧ (v ∈ vids ↔ v ≠ "" ∧ ∃ r, r ∈ rows ∧ video_id r = Some v)
  ∧ Topup.covered_ids rows = vids
  ∧ Scraper.title_map y vids !! v = vi_title <$> last_item v (responses y "snippet" vids)
  ∧ ((∀ it, it ∈ responses y "snippet" vids → vi_id it ≠ v) →
     ∀ r, r ∈ rows → video_id r = Some v →
          Scraper.fill_title (Scraper.title_map y vids) r = r).
Proof.
  intros vids.
  assert (Scraper.title_map y vids !! v
          = vi_title <$> last_item v (responses y "snippet" vids)) as Hget.
  { rewrite title_map_responses, foldl_insert_lookup, lookup_empty.
    by destruct (last_item _ _). }
  split_and!; [| | |done|done|].
  - apply (StronglySorted_merge_sort _).
  - unfold vids, Scraper.covered_ids. rewrite merge_sort_Permutation.
    apply NoDup_remove_dups.
  - unfold vids, Scraper.covered_ids. rewrite merge_sort_Permutation, elem_of_remove_dups.
    rewrite list_elem_of_omap. split.
    + intros (r & Hr & Hv). destruct (video_id r) as [s|] eqn:Hid; [|done].
      destruct s; simpl in Hv; simplify_eq. split; [done|]. by exists r.
    + intros (Hne & r & Hr & Hid). exists r. split; [done|]. rewrite Hid.
      by destruct v.
  - intros Hnone r Hr Hid. unfold Scraper.fill_title. rewrite Hid. simpl.
    rewrite Hget. destruct (last_item _ _) as [it|] eqn:Hlast; [|done].
    apply last_Some_elem_of, list_elem_of_filter in Hlast as [? ?].
    by destruct (Hnone it).
Qed.
End backfill_more.

(** ** More on the top-up *)
Section top_up_more.
Import Topup.
Context (y : YouTube) (fuel : nat).
Implicit Types (st : State) (rows existing : list Row) (pick : list string).

Lemma per_ch_add_get c v (p : gmap string (gset string)) c' :
  default ∅ (per_ch_add c v p !! c')
  = if decide (c' = c) then {[v]} ∪ default ∅ (p !! c) else default ∅ (p !! c').
Proof.
  unfold per_ch_add. case_decide as Hc.
  - subst. by rewrite lookup_insert_eq.
  - by rewrite lookup_insert_ne.
Qed.

Lemma size_add_le (v : string) (X : gset string) : (size ({[v]} ∪ X) ≤ S (size X))%nat.
Proof.
  rewrite size_union_alt, size_singleton.
  pose proof (subseteq_size (X ∖ {[v]}) X ltac:(set_solver)). lia.
Qed.

(** One collected video, with the uploader fields and the tally. *)
Lemma collect_video_fields name c meta st vid st' :
  collect_video fuel y name c meta st vid = Ok st' →
  per_ch st' = per_ch_add c vid (per_ch st)
  ∧ ∃ new, added st' = added st ++ new
           ∧ Forall (λ r, video_id r = Some vid
                          ∧ ∃ m, od_get vid meta = Some m
                                 ∧ video_uploader_channel_id r = channelId m
                                 ∧ video_uploader_channel_title r = channelTitle m) new.
Proof.
  unfold collect_video. intros Hrun. inv_bind Hrun. destruct a as [rows trace].
  inv_bind Hrun. simplify_eq. simpl. split; [done|].
  exists a. split; [done|].
  apply (collected_rows_video y fuel) in Hrun0. apply traverse_Ok in Hrun1.
  apply Forall_forall. intros r' Hr'.
  apply list_elem_of_lookup in Hr' as [i Hi].
  destruct (Forall2_lookup_r _ _ _ _ _ Hrun1 Hi) as (r & Hr & Hset).
  unfold fill_video_meta in Hr. apply list_lookup_fmap_Some in Hr as (r0 & -> & Hr0).
  destruct (od_get vid meta) as [m|] eqn:Hm; [|done]. simplify_eq. simpl.
  rewrite fill_meta_video_id. split; [|by exists m].
  apply (proj1 (Forall_forall _ _) Hrun0). by eapply list_elem_of_lookup_2.
Qed.

Lemma collect_pick_fields name c meta pick st st' :
  foldlM (collect_video fuel y name c meta) st pick = Ok st' →
  (∀ c', (size (default ∅ (per_ch st' !! c'))
          ≤ size (default ∅ (per_ch st !! c'))
            + (if decide (c' = c) then length pick else 0))%nat)
  ∧ ∃ new, added st' = added st ++ new
           ∧ Forall (λ r, ∃ v m, v ∈ pick ∧ video_id r = Some v
                                 ∧ od_get v meta = Some m
                                 ∧ video_uploader_channel_id r = channelId m
                                 ∧ video_uploader_channel_title r = channelTitle m) new.
Proof.
  revert st. induction pick as [|vid pick IH]; intros st Hrun; simpl in Hrun.
  - simplify_eq. split.
    + intros c'. case_decide; simpl; lia.
    + exists []. by rewrite app_nil_r.
  - inv_bind Hrun.
    destruct (collect_video_fields _ _ _ _ _ _ Hrun0) as (Hper & new1 & Hadd & Hnew1).
    destruct (IH _ Hrun) as (Hsize & new2 & Hadd' & Hnew2).
    split.
    + intros c'. specialize (Hsize c'). rewrite Hper, per_ch_add_get in Hsize.
      cbn [length]. case_decide; [|lia]. subst c'.
      pose proof (size_add_le vid (default ∅ (per_ch st !! c))). lia.
    + exists (new1 ++ new2). split; [by rewrite Hadd', Hadd, (assoc_L (++))|].
      apply Forall_app. split.
      * eapply Forall_impl; [exact Hnew1|]. intros r (? & m & ? & ? & ?).
        exists vid, m. split_and!; [left|done..].
      * eapply Forall_impl; [exact Hnew2|]. intros r (v & m & ? & ? & ? & ? & ?).
        exists v, m. split_and!; [by right|done..].
Qed.

Lemma count_in_candidates meta (covered : gset string) vids v :
  v ∈ candidates meta covered vids →
  ∃ m, od_get v meta = Some m ∧ MIN_COMMENTS ≤ commentCount m
       ∧ count_in meta v = Ok (commentCount m) ∧ v ∈ vids ∧ v ∉ covered.
Proof.
  unfold candidates, count_in. intros [[Hmin Hcov] Hv]%list_elem_of_filter.
  destruct (od_get v meta) as [m|]; [by exists m|].
  unfold MIN_COMMENTS in Hmin. simpl in Hmin. lia.
Qed.

(** One target channel: what a pass that completes has done. *)
Lemma top_up_channel_step st name st' :
  top_up_channel fuel y st name = Ok st' →
  ∃ pick,
    log st' = log st ++ ((name,.) <$> pick)
    ∧ (length pick ≤ 5)%nat
    ∧ (∀ v, v ∈ pick → ∃ c m, fetched_as y name v c m)
    ∧ (∀ c', (size (default ∅ (per_ch st' !! c'))
              ≤ 5 `max` size (default ∅ (per_ch st !! c')))%nat)
    ∧ ∃ new, added st' = added st ++ new
             ∧ Forall (λ r, ∃ v c m, v ∈ pick ∧ fetched_as y name v c m
                                     ∧ video_id r = Some v
                                     ∧ video_uploader_channel_id r = channelId m
                                     ∧ video_uploader_channel_title r = channelTitle m)
                      new.
Proof.
  unfold top_up_channel. intros Hrun.
  assert (∀ st0, Ok st = Ok st0 → ∃ pick,
    log st0 = log st ++ ((name,.) <$> pick)
    ∧ (length pick ≤ 5)%nat
    ∧ (∀ v, v ∈ pick → ∃ c m, fetched_as y name v c m)
    ∧ (∀ c', (size (default ∅ (per_ch st0 !! c'))
              ≤ 5 `max` size (default ∅ (per_ch st !! c')))%nat)
    ∧ ∃ new, added st0 = added st ++ new
             ∧ Forall (λ r, ∃ v c m, v ∈ pick ∧ fetched_as y name v c m
                                     ∧ video_id r = Some v
                                     ∧ video_uploader_channel_id r = channelId m
                                     ∧ video_uploader_channel_title r = channelTitle m)
                      new) as Hskip.
  { intros st0 ?. simplify_eq. exists []. rewrite app_nil_r.
    split_and!; [done|simpl; lia| |lia|].
    - by intros v ?%elem_of_nil.
    - exists []. by rewrite app_nil_r. }
  destruct (find_channel_id y name) as [ch_id ch_title] eqn:Hfind.
  destruct ch_id as [c|]; [|by apply Hskip].
  destruct (truthy (Some c)) eqn:Hc; simpl in Hrun; [|by apply Hskip].
  case_bool_decide as Hneed; [by apply Hskip|].
  inv_bind Hrun. rename a into cand.
  set (vids := search_channel_videos y c KEYWORDS 40) in *.
  set (meta := video_stats y vids) in *.
  set (have := size (default ∅ (per_ch st !! c))) in *.
  pose proof (sorted_descM_perm _ _ _ Hrun0) as Hperm.
  set (pick := py_take (Z.max 0 (5 - Z.of_nat have)) cand) in *.
  assert (length pick ≤ 5 - have)%nat as Hlen.
  { pose proof (py_take_length (Z.max 0 (5 - Z.of_nat have)) cand ltac:(lia)).
    fold pick in H. lia. }
  assert (∀ v, v ∈ pick → ∃ m, od_get v meta = Some m ∧ fetched_as y name v c m)
    as Hpick.
  { intros v Hv%py_take_subseteq. rewrite Hperm in Hv.
    apply count_in_candidates in Hv as (m & Hm & Hmin & _ & Hv & _).
    exists m. split; [done|]. unfold fetched_as. rewrite Hfind. fold vids meta.
    split_and!; [done| |done..]. intros ->. done. }
  destruct (collect_pick_spec _ _ _ _ _ _ _ _ Hrun) as (Hlog & _).
  destruct (collect_pick_fields _ _ _ _ _ _ Hrun) as (Hsize & new & Hadd & Hnew).
  exists pick. split_and!; [done|lia| | |].
  - intros v Hv. destruct (Hpick v Hv) as (m & _ & ?). eauto.
  - intros c'. specialize (Hsize c'). case_decide; [subst c'; fold have in Hsize|]; lia.
  - exists new. split; [done|]. eapply Forall_impl; [exact Hnew|].
    intros r (v & m & Hv & Hid & Hm & ? & ?). exists v, c, m.
    destruct (Hpick v Hv) as (m' & Hm' & ?). by simplify_eq.
Qed.

Lemma top_up_fold_log names st st' :
  foldlM (top_up_channel fuel y) st names = Ok st' →
  ∃ picks : list (list string),
    length picks = length names
    ∧ Forall (λ pick, (length pick ≤ 5)%nat) picks
    ∧ log st' = log st ++ concat (zip_with (λ name pick, (name,.) <$> pick) names picks).
Proof.
  revert st. induction names as [|name names IH]; intros st Hrun; simpl in Hrun.
  - simplify_eq. exists []. by rewrite app_nil_r.
  - inv_bind Hrun. destruct (top_up_channel_step _ _ _ Hrun0) as (pick & Hlog & Hlen & _).
    destruct (IH _ Hrun) as (picks & Hpicks & Hall & Hlog').
    exists (pick :: picks). split_and!; [simpl; by rewrite Hpicks | by constructor |].
    cbn [zip_with concat]. by rewrite Hlog', Hlog, (assoc_L (++)).
Qed.

Lemma length_concat_le {A} (n : nat) (ls : list (list A)) :
  Forall (λ l, (length l ≤ n)%nat) ls → (length (concat ls) ≤ n * length ls)%nat.
Proof.
  induction 1 as [|l ls Hl _ IH]; simpl; [lia|]. rewrite length_app. lia.
Qed.

(** X14.  What a top-up run that completes has fetched.  The fetches come
    target by target, in the order of the target list, at most five per
    target and so at most twenty-five in all.  Every fetched video was
    listed by the search of the channel its target name resolved to, with
    at least [MIN_COMMENTS] comments in the statistics fetched for that
    search.  No channel ends with more than five tallied videos unless it
    had more to begin with.  Every added row belongs to a fetched video
    and carries the uploader channel id and title of those search-time
    statistics. *)
Theorem X14_top_up_fetches_qualify existing corpus st :
  main fuel y existing = Ok (corpus, st) →
  (∃ picks : list (list string),
     length picks = length TARGET_CHANNEL_NAMES
     ∧ Forall (λ pick, (length pick ≤ 5)%nat) picks
     ∧ log st = concat (zip_with (λ name pick, (name,.) <$> pick)
                                 TARGET_CHANNEL_NAMES picks))
  ∧ (length (log st) ≤ 25)%nat
  ∧ (∀ name v, (name, v) ∈ log st →
       name ∈ TARGET_CHANNEL_NAMES ∧ ∃ c m, fetched_as y name v c m)
  ∧ (∀ c, (size (default ∅ (per_ch st !! c))
           ≤ 5 `max` size (default ∅ (count_existing existing !! c)))%nat)
  ∧ Forall (λ r, ∃ name v c m,
               (name, v) ∈ log st ∧ fetched_as y name v c m
               ∧ video_id r = Some v
               ∧ video_uploader_channel_id r = channelId m
               ∧ video_uploader_channel_title r = channelTitle m) (added st).
Proof.
  unfold main. intros Hrun. inv_bind Hrun. simplify_eq.
  destruct (top_up_fold_log _ _ _ Hrun0) as (picks & Hpicks & Hall & Hlog).
  cbn [initial log app] in Hlog.
  pose (P := λ st : State,
          (∀ name v, (name, v) ∈ log st →
             name ∈ TARGET_CHANNEL_NAMES ∧ ∃ c m, fetched_as y name v c m)
          ∧ (∀ c, (size (default ∅ (per_ch st !! c))
                   ≤ 5 `max` size (default ∅ (count_existing existing !! c)))%nat)
          ∧ Forall (λ r, ∃ name v c m,
                      (name, v) ∈ log st ∧ fetched_as y name v c m
                      ∧ video_id r = Some v
                      ∧ video_uploader_channel_id r = channelId m
                      ∧ video_uploader_channel_title r = channelTitle m) (added st)).
  assert (P st) as (Hfetched & Hsize & Hrows).
  { eapply (foldlM_inv P); [| |exact Hrun0]; unfold P.
    - intros acc name acc' Hname (Hfetched & Hsize & Hrows) Hstep.
      destruct (top_up_channel_step _ _ _ Hstep)
        as (pick & Hlog' & _ & Hpick & Hsize' & new & Hadd & Hnew).
      rewrite Hlog', Hadd. split_and!.
      + intros n v [Hin|Hin]%elem_of_app; [by apply Hfetched|].
        apply list_elem_of_fmap in Hin as (v' & ? & Hv'). simplify_eq. auto.
      + intros c. specialize (Hsize c). specialize (Hsize' c). lia.
      + apply Forall_app. split.
        * eapply Forall_impl; [exact Hrows|]. intros r (n & v & c & m & Hin & ?).
          exists n, v, c, m. split; [|done]. apply elem_of_app. by left.
        * eapply Forall_impl; [exact Hnew|]. intros r (v & c & m & Hv & ?).
          exists name, v, c, m. split; [|done]. apply elem_of_app. right.
          apply list_elem_of_fmap. by exists v.
    - split_and!; [by intros ?? ?%elem_of_nil | intros c; simpl; lia | constructor]. }
  split_and!; [by exists picks| |done..].
  rewrite Hlog. etrans; [apply (length_concat_le 5)|].
  - clear -Hall. revert Hall. generalize TARGET_CHANNEL_NAMES.
    induction picks as [|pick picks IH]; intros names Hall; destruct names; try constructor.
    + rewrite length_fmap. by inversion Hall.
    + apply IH. by inversion Hall.
  - rewrite length_zip_with, Hpicks, Nat.min_id. simpl. lia.
Qed.

Lemma collect_pages_Raise (n : nat) vid target rows token fetched trace e :
  collect_pages n y vid target rows token fetched trace = Raise e → e = OutOfFuel.
Proof.
  revert rows token fetched trace.
  induction n as [|n IH]; intros rows token fetched trace Hrun; [by simplify_eq/=|].
  cbn [collect_pages] in Hrun.
  destruct (collect_items _ _ _ _ _) as [rows' fetched'].
  case_bool_decide; [done|].
  destruct (truthy _); [by eapply IH | done].
Qed.

Lemma collect_video_Raise name c meta st vid e :
  is_Some (od_get vid meta) →
  collect_video fuel y name c meta st vid = Raise e →
  e = OutOfFuel ∧ fetch_comments fuel y vid TARGET_PER_VIDEO = Raise OutOfFuel.
Proof.
  intros [m Hm] Hrun. unfold collect_video in Hrun.
  apply bind_Raise in Hrun as [Hrun|([rows trace] & _ & Hrun)].
  - pose proof (collect_pages_Raise _ _ _ _ _ _ _ _ Hrun) as ->. done.
  - exfalso. apply bind_Raise in Hrun as [Hrun|(? & _ & ?)]; [|done].
    apply traverse_Raise in Hrun as (r & _ & Hr). by rewrite Hm in Hr.
Qed.

Lemma top_up_channel_Raise st name e :
  top_up_channel fuel y st name = Raise e →
  e = OutOfFuel ∧ ∃ vid, fetch_comments fuel y vid TARGET_PER_VIDEO = Raise OutOfFuel.
Proof.
  unfold top_up_channel. intros Hrun.
  destruct (find_channel_id y name) as [ch_id ch_title].
  destruct ch_id as [c|]; [|done].
  destruct (negb (truthy (Some c))); [done|].
  case_bool_decide; [done|].
  set (meta := video_stats y (search_channel_videos y c KEYWORDS 40)) in *.
  apply bind_Raise in Hrun as [Hrun|(cand & Hcand & Hrun)].
  - exfalso. apply sorted_descM_Raise in Hrun as (v & Hv & Hkey).
    apply count_in_candidates in Hv as (m & _ & _ & Hcount & _). congruence.
  - apply foldlM_Raise in Hrun as (st0 & vid & Hvid & Hrun).
    apply py_take_subseteq in Hvid. rewrite (sorted_descM_perm _ _ _ Hcand) in Hvid.
    apply count_in_candidates in Hvid as (m & Hm & _).
    apply collect_video_Raise in Hrun as [-> ?]; [|by exists m]. eauto.
Qed.

(** X15.  The top-up never fails on a missing key: statistics are looked
    up, for sorting and for the uploader fields, only for videos that
    passed the comment threshold and so have statistics.  A run stops
    early only when a collector loop is cut off; when every collector
    loop finishes, the run returns a corpus that begins with the loaded
    one. *)
Theorem X15_top_up_completes existing :
  (∀ e, main fuel y existing = Raise e →
        e = OutOfFuel
        ∧ ∃ vid, fetch_comments fuel y vid TARGET_PER_VIDEO = Raise OutOfFuel)
  ∧ ((∀ vid, ∃ res, fetch_comments fuel y vid TARGET_PER_VIDEO = Ok res) →
     ∃ st, main fuel y existing = Ok (existing ++ added st, st)).
Proof.
  assert (∀ e, main fuel y existing = Raise e →
               e = OutOfFuel
               ∧ ∃ vid, fetch_comments fuel y vid TARGET_PER_VIDEO = Raise OutOfFuel)
    as Hraise.
  { unfold main. intros e [Hrun|(st & _ & ?)]%bind_Raise; [|done].
    apply foldlM_Raise in Hrun as (st & name & _ & Hrun).
    by apply top_up_channel_Raise in Hrun. }
  split; [done|]. intros Hfetch.
  destruct (main fuel y existing) as [[corpus st]|e] eqn:Hrun.
  - exists st. by destruct (main_inv _ _ _ _ _ Hrun) as [-> _].
  - destruct (Hraise e eq_refl) as (_ & vid & Hvid).
    destruct (Hfetch vid) as [res Hres]. congruence.
Qed.


End top_up_more.

(** ** More on the article scraper *)
Section rappler_more.
Import Rappler.
Context (e : Env).

Lemma build_listing_url_Ok mode slug_or_query page :
  mode = "topic" ∨ mode = "person" ∨ mode = "search" →
  ∃ url, build_listing_url e mode slug_or_query page = Ok url.
Proof.
  unfold build_listing_url. intros [-> | [-> | ->]]; simpl; by eexists.
Qed.

Lemma build_listing_url_Raise mode slug_or_query page x :
  build_listing_url e mode slug_or_query page = Raise x →
  x = ValueError ∧ mode ≠ "topic" ∧ mode ≠ "person" ∧ mode ≠ "search".
Proof.
  unfold build_listing_url. repeat case_bool_decide; intros ?; by simplify_eq.
Qed.

Lemma build_listing_url_invalid mode slug_or_query page :
  mode ≠ "topic" → mode ≠ "person" → mode ≠ "search" →
  build_listing_url e mode slug_or_query page = Raise ValueError.
Proof.
  intros. unfold build_listing_url. by rewrite !bool_decide_false.
Qed.

(** X17.  The scraper rejects an unknown mode only when it gets to build
    a listing address: it raises [ValueError], and nothing else, exactly
    when the mode is none of [topic], [person], [search] and at least one
    page is asked for.  With no page to crawl it returns the empty table
    whatever the mode; with a known mode it always returns a table. *)
Theorem X17_scrape_rappler_errors (mode slug_or_query : string) (pages : Z) :
  (∀ x, scrape_rappler e mode slug_or_query pages = Raise x → x = ValueError)
  ∧ (scrape_rappler e mode slug_or_query pages = Raise ValueError
     ↔ (mode ≠ "topic" ∧ mode ≠ "person" ∧ mode ≠ "search") ∧ 1 ≤ pages)
  ∧ (pages ≤ 0 → scrape_rappler e mode slug_or_query pages = Ok []).
Proof.
  assert (∀ x, scrape_rappler e mode slug_or_query pages = Raise x →
               x = ValueError
               ∧ (mode ≠ "topic" ∧ mode ≠ "person" ∧ mode ≠ "search") ∧ 1 ≤ pages)
    as Hraise.
  { unfold scrape_rappler. intros x Hrun.
    apply foldlM_Raise in Hrun as (rows & page & Hpage & Hrun).
    apply bind_Raise in Hrun as [Hrun|(url & _ & ?)]; [|done].
    apply build_listing_url_Raise in Hrun as (-> & ? & ? & ?).
    split_and!; [done|done|done|done|].
    apply list_elem_of_fmap in Hpage as (n & -> & Hn).
    apply elem_of_seq in Hn. lia. }
  split_and!.
  - intros x Hx. by destruct (Hraise x Hx).
  - split; [intros Hx; by destruct (Hraise _ Hx)|].
    intros [(Ht & Hp & Hs) Hpages]. unfold scrape_rappler.
    destruct (Z.to_nat pages) as [|n] eqn:Hn; [lia|].
    cbn [seq fmap list_fmap foldlM]. by rewrite build_listing_url_invalid.
  - intros Hpages. unfold scrape_rappler.
    by replace (Z.to_nat pages) with 0%nat by lia.
Qed.

Lemma app_slash_inj (s1 s2 : string) : s1 +:+ "/" = s2 +:+ "/" → s1 = s2.
Proof.
  revert s2. induction s1 as [|a s1 IH]; intros [|b s2] Heq; simpl in Heq.
  - done.
  - simplify_eq. by destruct s2.
  - simplify_eq. by destruct s1.
  - simplify_eq. f_equal. by apply IH.
Qed.

Lemma build_listing_url_inj mode slug_or_query page1 page2 url :
  build_listing_url e mode slug_or_query page1 = Ok url →
  build_listing_url e mode slug_or_query page2 = Ok url →
  page1 = page2.
Proof.
  unfold build_listing_url. intros H1 H2. rewrite <-H2 in H1.
  repeat case_bool_decide; try done; clear H2; injection H1 as H1;
    do 3 apply (inj (String.app _)) in H1.
  - apply app_slash_inj in H1. by apply (inj pretty).
  - apply app_slash_inj in H1. by apply (inj pretty).
  - by apply (inj pretty).
Qed.

Lemma scrape_pages_urls mode slug_or_query (page_numbers : list Z) urls :
  Forall2 (λ page url, build_listing_url e mode slug_or_query page = Ok url)
          page_numbers urls →
  NoDup page_numbers → NoDup urls.
Proof.
  induction 1 as [|page url pages urls Hurl Hall IH]; intros Hnd; [constructor|].
  apply NoDup_cons in Hnd as [Hpage Hnd]. apply NoDup_cons. split; [|auto].
  intros Hin. apply list_elem_of_lookup in Hin as [i Hi].
  destruct (Forall2_lookup_r _ _ _ _ _ Hall Hi) as (page' & Hpage' & Hurl').
  assert (page = page') as -> by by eapply build_listing_url_inj.
  apply Hpage. by eapply list_elem_of_lookup_2.
Qed.

(** X18.  A crawl asks for one listing page per page number from 1 to
    [pages], in ascending order, and no listing address twice: the page
    number can be read back from the address.  Crawling more pages only
    appends rows: the table of a shorter crawl is a prefix of the table
    of a longer one. *)
Theorem X18_scrape_rappler_pages (mode slug_or_query : string) (pages : Z)
    (df : list Article) :
  scrape_rappler e mode slug_or_query pages = Ok df →
  (∃ urls,
     Forall2 (λ page url, build_listing_url e mode slug_or_query page = Ok url)
             (Z.of_nat <$> seq 1 (Z.to_nat pages)) urls
     ∧ length urls = Z.to_nat pages ∧ NoDup urls
     ∧ df = kept e (urls ≫= get_article_links_from_listing e))
  ∧ (∀ page1 page2 url,
       build_listing_url e mode slug_or_query page1 = Ok url →
       build_listing_url e mode slug_or_query page2 = Ok url → page1 = page2)
  ∧ (∀ pages' df', pages ≤ pages' →
       scrape_rappler e mode slug_or_query pages' = Ok df' → df `prefix_of` df').
Proof.
  intros Hrun. split_and!.
  - pose proof Hrun as Hrun'.
    apply scrape_pages_kept in Hrun' as (urls & Hurls & ->).
    exists urls. split_and!; [done| | |done].
    + apply Forall2_length in Hurls. by rewrite length_fmap, length_seq in Hurls.
    + eapply scrape_pages_urls; [exact Hurls|].
      apply (NoDup_fmap_2 _), NoDup_seq.
  - intros page1 page2 url. apply build_listing_url_inj.
  - intros pages' df' Hle Hrun'. unfold scrape_rappler in Hrun, Hrun'.
    replace (Z.to_nat pages') with (Z.to_nat pages + (Z.to_nat pages' - Z.to_nat pages))%nat
      in Hrun' by lia.
    rewrite seq_app, fmap_app, foldlM_app, Hrun in Hrun'. simpl in Hrun'.
    apply scrape_pages_kept in Hrun' as (urls & _ & ->). by eexists.
Qed.
End rappler_more.

(** ** Further runs *)
Section more_runs.
Import Fixture.

Example main_rows_keys :
  (λ r, (comment_id r, video_id r, video_title r)) <$> main_rows
  = [("c1", Some "V", Some "title of V"); ("c1.1", Some "V", Some "title of V");
     ("c1.2", Some "V", Some "title of V"); ("c2", Some "V", Some "title of V")].
Proof. reflexivity. Qed.

Lemma X5_witness :
  (∃ by_channel',
     Scraper.merge_tier yt_full_bucket "k" 25
       (Scraper.first_tier yt_full_bucket "k" 25).1 "viewCount"
       [(Some "X", ["e"; "d"; "c"; "b"; "a"])] = Ok by_channel'
     ∧ buckets_known (Scraper.first_tier yt_full_bucket "k" 25).1
         (Scraper.probe yt_full_bucket "k" "viewCount") by_channel')
  ∧ ∃ first second,
      Scraper.first_tier yt_full_bucket "k" 25
      = (Scraper.probe yt_full_bucket "k" "relevance", Ok first)
      ∧ Scraper.merge_tier yt_full_bucket "k" 25
          (Scraper.probe yt_full_bucket "k" "relevance") "viewCount" first = Ok second.
Proof.
  apply (X5_merge_tier_completes yt_full_bucket "k" 25
           (Scraper.first_tier yt_full_bucket "k" 25).1 "viewCount"
           [(Some "X", ["e"; "d"; "c"; "b"; "a"])]).
  apply Forall_cons. split; [|apply Forall_nil]. simpl.
  repeat (apply Forall_cons; split; [left; eexists; reflexivity|]).
  all: try apply Forall_nil; exact I.
Defined.

Lemma X8_witness :
  ∃ threads,
    collected_V.1 = rows_of "V" threads
    ∧ Z.of_nat (length collected_V.1) = threads_size threads
    ∧ (∀ j : nat, (j < length threads)%nat → threads_size (take j threads) < 4)
    ∧ (∀ threads' t, threads = threads' ++ [t] →
         Z.of_nat (length collected_V.1) < 4 + thread_size t).
Proof.
  apply (X8_collector_overshoot yt_rappler "V" 4 2 collected_V.1 collected_V.2).
  - lia.
  - vm_compute. reflexivity.
Defined.

Lemma X9_witness :
  Scraper.fetch_comments_for_video 3 yt_endless "V" 1 = Raise OutOfFuel.
Proof.
  apply (X9_collector_follows_endless_cursor yt_endless "V" 1 3).
  - lia.
  - intros token. split; reflexivity.
Defined.

Lemma X10_witness :
  video_id (comment_row "V" None false (comment "c1")) = Some "V"
  ∧ link (comment_row "V" None false (comment "c1"))
    = "https://www.youtube.com/watch?v=" +:+ "V" +:+ "&lc="
      +:+ comment_id (comment_row "V" None false (comment "c1"))
  ∧ video_title (comment_row "V" None false (comment "c1")) = None
  ∧ video_uploader_channel_id (comment_row "V" None false (comment "c1")) = None
  ∧ video_uploader_channel_title (comment_row "V" None false (comment "c1")) = None
  ∧ author (comment_row "V" None false (comment "c1"))
    = channel_title (comment_row "V" None false (comment "c1"))
  ∧ ∃ c, c ∈ (requested_threads yt_rappler "V" collected_V.2
              ≫= λ t, th_top t :: th_replies t)
         ∧ comment_id (comment_row "V" None false (comment "c1")) = cm_id c
         ∧ title (comment_row "V" None false (comment "c1"))
           = default "" (cm_textDisplay c)
         ∧ text (comment_row "V" None false (comment "c1"))
           = default "" (cm_textOriginal c)
         ∧ like_count (comment_row "V" None false (comment "c1"))
           = default 0 (cm_likeCount c).
Proof.
  apply (X10_collected_row_fields yt_rappler "V" 4 2 collected_V.1 collected_V.2).
  - vm_compute. reflexivity.
  - apply (list_elem_of_lookup_2 _ 0%nat). reflexivity.
Defined.

Lemma X11_witness :
  ∃ plan per_video,
    Scraper.main_selection yt_video_V "k" 25 5 5 = Ok plan
    ∧ Forall2 (λ vid rs, ∃ trace,
                 Scraper.fetch_comments_for_video 2 yt_video_V vid 4 = Ok (rs, trace))
              (plan ≫= snd) per_video
    ∧ main_rows = Scraper.fill_video_titles yt_video_V (concat per_video)
    ∧ video_id <$> main_rows
      = concat (zip_with (λ vid rs, replicate (length rs) (Some vid))
                         (plan ≫= snd) per_video)
    ∧ Forall (λ r, ∃ ch v, video_id r = Some v
                           ∧ Scraper.probed_ok yt_video_V "k" 25 ch v) main_rows.
Proof.
  apply (X11_main_rows_follow_plan 2 yt_video_V "k" 25 5 5 4 main_rows).
  vm_compute. reflexivity.
Defined.

Lemma X14_witness :
  (∃ picks : list (list string),
     length picks = length Topup.TARGET_CHANNEL_NAMES
     ∧ Forall (λ pick, (length pick ≤ 5)%nat) picks
     ∧ Topup.log first_run.2
       = concat (zip_with (λ name pick, (name,.) <$> pick)
                          Topup.TARGET_CHANNEL_NAMES picks))
  ∧ (length (Topup.log first_run.2) ≤ 25)%nat
  ∧ (∀ name v, (name, v) ∈ Topup.log first_run.2 →
       name ∈ Topup.TARGET_CHANNEL_NAMES ∧ ∃ c m, fetched_as yt_rappler name v c m)
  ∧ (∀ c, (size (default ∅ (Topup.per_ch first_run.2 !! c))
           ≤ 5 `max` size (default ∅ (Topup.count_existing [] !! c)))%nat)
  ∧ Forall (λ r, ∃ name v c m,
               (name, v) ∈ Topup.log first_run.2 ∧ fetched_as yt_rappler name v c m
               ∧ video_id r = Some v
               ∧ video_uploader_channel_id r = Topup.channelId m
               ∧ video_uploader_channel_title r = Topup.channelTitle m)
           (Topup.added first_run.2).
Proof.
  apply (X14_top_up_fetches_qualify yt_rappler 2 [] first_run.1 first_run.2).
  vm_compute. reflexivity.
Defined.

Lemma X18_witness :
  (∃ urls,
     Forall2 (λ page url, Rappler.build_listing_url site "topic" "pogo" page = Ok url)
             (Z.of_nat <$> seq 1 (Z.to_nat 1)) urls
     ∧ length urls = Z.to_nat 1 ∧ NoDup urls
     ∧ scraped = Rappler.kept site (urls ≫= Rappler.get_article_links_from_listing site))
  ∧ (∀ page1 page2 url,
       Rappler.build_listing_url site "topic" "pogo" page1 = Ok url →
       Rappler.build_listing_url site "topic" "pogo" page2 = Ok url → page1 = page2)
  ∧ (∀ pages' df', 1 ≤ pages' →
       Rappler.scrape_rappler site "topic" "pogo" pages' = Ok df' →
       scraped `prefix_of` df').
Proof.
  apply (X18_scrape_rappler_pages site "topic" "pogo" 1 scraped).
  vm_compute. reflexivity.
Defined.

Lemma X19_witness : Scraper.buckets_nonempty [(Some "X", ["A"])].
Proof.
  apply (plan_buckets_nonempty yt_one_video "k" 25 [(Some "X", ["A"])]).
  reflexivity.
Defined.

Lemma X15_witness :
  ∃ st, Topup.main 2 yt_rappler [] = Ok ([] ++ Topup.added st, st).
Proof.
  destruct (X15_top_up_completes yt_rappler 2 []) as [_ H]. apply H.
  intros vid. unfold Topup.fetch_comments.
  destruct (decide (vid = "V")) as [->|Hne].
  - eexists. vm_compute. reflexivity.
  - assert (∀ token, pages_of_V vid token = {| tr_items := []; tr_nextPageToken := None |})
      as Hpages by (intros; unfold pages_of_V; by rewrite bool_decide_false).
    cbn [collect_pages yt_rappler client commentThreads_list].
    rewrite !Hpages. by eexists.
Defined.
End more_runs.
